(** * xmsAI: the card game state machine and its Q-learning trainer

    A shallow embedding of [gamemain.py] and [card_recommendation.py].

    Conventions of the embedding.
    - Python [int] is [Z]. Python [float] is modelled twice. The loops of
      the game and of the trainer compute in exact rationals ([Qc]); the
      play of one card and the update of the value table are also given in
      binary64 ([apply_effects_float], [play_card_float],
      [update_q_table_float], [train_play_float]), with the rounding of
      every operation and the [OverflowError] of an int beyond the doubles.
      The two agree where the doubles are exact: for a damage base [b] with
      [3 * |b| < 2^53] (lemma [float_floor_times_1_5_exact]) and for the
      sort key of the first shuffle with priorities 0 and -1.
    - Card objects live in a store ([Heap]) and piles hold references, because
      [create_base_deck] appends one object several times and the shuffle
      rewrites fields of the shared objects.
    - Exceptions are values of [exn]; every function that can raise returns in
      the [res] monad. [OutOfFuel] is not a Python outcome: it marks a
      [while] loop of the model that was given too few iterations.
    - Console output ([print]) is not modelled, but for the verdict that
      [Game.start] prints after its loop. *)

From Stdlib Require Import ZArith QArith Qcanon Qround Ascii SpecFloat.
From stdpp Require Import gmap strings list fin_maps pretty numbers.

Local Open Scope Z_scope.

(** ** Exceptions and the result monad *)

Inductive exn :=
| KeyError (k : string)
| ValueError
| IndexError
| ZeroDivisionError
| OverflowError
| SystemExit.

Inductive res (A : Type) :=
| Ok (a : A)
| Raise (e : exn)
| OutOfFuel.

Arguments Ok {A} a.
Arguments Raise {A} e.
Arguments OutOfFuel {A}.

Global Instance res_ret : MRet res := λ A a, Ok a.
Global Instance res_bind : MBind res := λ A B f m,
  match m with
  | Ok a => f a
  | Raise e => Raise e
  | OutOfFuel => OutOfFuel
  end.

(** [d[k]] on a dict: raises [KeyError] when the key is absent. *)
Definition getitem {V} (d : gmap string V) (k : string) : res V :=
  match d !! k with
  | Some v => Ok v
  | None => Raise (KeyError k)
  end.

(** [d.get(k, dflt)]. *)
Definition dict_get {V} (d : gmap string V) (k : string) (dflt : V) : V :=
  default dflt (d !! k).

(** ** String formatting *)

(** [f"{z}"] for an int. *)
Definition fmt (z : Z) : string := pretty z.

(** [f"{z:+}"]: the sign is always printed. *)
Definition fmt_signed (z : Z) : string :=
  if bool_decide (0 ≤ z) then "+" +:+ pretty z else pretty z.

(** ** Enumerations *)

Inductive Phase := TURN_START | PLAYER_ACTION | TURN_END.

Inductive EffectType :=
| DAMAGE | SPIRIT | FOCUS | DRAW | PLAY_COUNT | MOOD | DIRECT_DAMAGE.

Global Instance EffectType_eq_dec : EqDecision EffectType.
Proof. solve_decision. Defined.

(** [EffectType.X.value] *)
Definition EffectType_value (t : EffectType) : string :=
  match t with
  | DAMAGE => "伤害"
  | SPIRIT => "元气"
  | FOCUS => "集中"
  | DRAW => "抽牌"
  | PLAY_COUNT => "出牌机会"
  | MOOD => "好调"
  | DIRECT_DAMAGE => "直接伤害"
  end.

Definition all_EffectType : list EffectType :=
  [DAMAGE; SPIRIT; FOCUS; DRAW; PLAY_COUNT; MOOD; DIRECT_DAMAGE].

(** [EffectType(s)]: lookup by value, [ValueError] for an unknown string. *)
Definition EffectType_of_value (s : string) : res EffectType :=
  match list_find (λ t, EffectType_value t = s) all_EffectType with
  | Some (_, t) => Ok t
  | None => Raise ValueError
  end.

Inductive CardTrait := EXHAUST | BYPASS_SPIRIT.

Definition CardTrait_value (t : CardTrait) : string :=
  match t with
  | EXHAUST => "消耗"
  | BYPASS_SPIRIT => "无视元气"
  end.

(** Names of the buffs in [GameState.buffs]. *)
Definition PLAYS : string := "出牌机会".
Definition FOCUS_KEY : string := "集中".
Definition MOOD_KEY : string := "好调".

(** ** Effects and cards *)

Record Effect := mkEffect {
  type : EffectType;
  value : Z;
  effect_bypass_spirit : bool
}.

(** One entry of a card's [effects] list as the deck data gives it:
    [{"type": ..., "value": ...}] with an optional ["bypass_spirit"]. *)
Record EffectDict := mkEffectDict {
  dict_type : string;
  dict_value : Z;
  dict_bypass_spirit : option bool
}.

Record Card := mkCard {
  name : string;
  effects : list Effect;
  cost : Z;
  bypass_spirit : bool;
  shuffle_priority : Qc;
  exhaust : bool;
  shuffle_random : Qc
}.

Definition set_shuffle_random (x : Qc) (c : Card) : Card :=
  mkCard (name c) (effects c) (cost c) (bypass_spirit c) (shuffle_priority c)
         (exhaust c) x.

Definition set_shuffle_priority (x : Qc) (c : Card) : Card :=
  mkCard (name c) (effects c) (cost c) (bypass_spirit c) x
         (exhaust c) (shuffle_random c).

(** The loop of [Card.__init__] that turns the effect dicts into [Effect]s. *)
Fixpoint build_effects (ds : list EffectDict) : res (list Effect) :=
  match ds with
  | [] => Ok []
  | d :: ds' =>
      let bypass := default false (dict_bypass_spirit d) in
      t ← EffectType_of_value (dict_type d);
      rest ← build_effects ds';
      mret (mkEffect t (dict_value d) bypass :: rest)
  end.

(** [Card.__init__]: the field values of the new object. *)
Definition Card_init (name : string) (effects : list EffectDict) (cost : Z)
    (bypass_spirit : bool) (shuffle_priority : Qc) (exhaust : bool) : res Card :=
  es ← build_effects effects;
  mret (mkCard name es cost bypass_spirit shuffle_priority exhaust 0%Qc).

(** ** The object store *)

Definition ref := nat.

Record Heap := mkHeap {
  next_ref : ref;
  obj : ref → Card
}.

Definition blank_card : Card := mkCard "" [] 0 false 0%Qc false 0%Qc.

Definition empty_heap : Heap := mkHeap 0%nat (λ _, blank_card).

Definition alloc (c : Card) (h : Heap) : ref * Heap :=
  (next_ref h,
   mkHeap (S (next_ref h)) (λ r, if decide (r = next_ref h) then c else obj h r)).

(** In-place update of the object behind [r]. *)
Definition modify (r : ref) (f : Card → Card) (h : Heap) : Heap :=
  mkHeap (next_ref h) (λ r', if decide (r' = r) then f (obj h r) else obj h r').

(** The attributes of a [CardTemplate]. *)
Record CardTemplate := mkCardTemplate {
  template_name : string;
  template_effects : list EffectDict;
  template_cost : Z;
  template_count : Z;
  template_traits : option (list string);
  template_shuffle_priority : Qc
}.

(** [create_card_from_template]: [template.traits or []] decides the two
    flags; the new object is put in the store. *)
Definition create_card_from_template (template : CardTemplate) (h : Heap)
    : res (ref * Heap) :=
  let traits := default [] (template_traits template) in
  c ← Card_init (template_name template) (template_effects template)
                (template_cost template)
                (bool_decide (CardTrait_value BYPASS_SPIRIT ∈ traits))
                (template_shuffle_priority template)
                (bool_decide (CardTrait_value EXHAUST ∈ traits));
  Ok (alloc c h).

(** ** The random source

    [random] is a library; it is modelled as a stream of raw draws and a
    cursor. [random.random()] yields a multiple of 2^-53 in [0,1);
    [randbelow n] yields a value below [n]. *)

Record Rng := mkRng {
  raw : nat → Z;
  cursor : nat
}.

Definition advance (g : Rng) : Rng := mkRng (raw g) (S (cursor g)).

Definition random_random (g : Rng) : Qc * Rng :=
  (Q2Qc (Qmake (raw g (cursor g) `mod` 2 ^ 53) (2 ^ 53)), advance g).

Definition randbelow (n : nat) (g : Rng) : nat * Rng :=
  (Z.to_nat (raw g (cursor g) `mod` Z.of_nat n), advance g).

(** [x[i], x[j] = x[j], x[i]] *)
Definition swap {A} (i j : nat) (x : list A) : list A :=
  match x !! i, x !! j with
  | Some a, Some b => <[i := b]> (<[j := a]> x)
  | _, _ => x
  end.

(** The loop of [random.shuffle]: [for i in reversed(range(1, len(x)))],
    with [i] running from [n] down to 1. *)
Fixpoint shuffle_from {A} (n : nat) (x : list A) (g : Rng) : list A * Rng :=
  match n with
  | O => (x, g)
  | S n' =>
      let '(j, g') := randbelow (S n) g in
      shuffle_from n' (swap n j x) g'
  end.

Definition random_shuffle {A} (x : list A) (g : Rng) : list A * Rng :=
  shuffle_from (length x - 1)%nat x g.

(** [random.choice(seq)] *)
Definition random_choice {A} (seq : list A) (g : Rng) : res (A * Rng) :=
  match seq with
  | [] => Raise IndexError
  | _ =>
      let '(i, g') := randbelow (length seq) g in
      match seq !! i with
      | Some a => Ok (a, g')
      | None => Raise IndexError
      end
  end.

(** ** Game state *)

Record GameState := mkGameState {
  deck : list ref;
  num_rounds : Z;
  target_score : Z;
  max_hand_size : Z;
  current_round : Z;
  score : Z;
  spirit : Z;
  vitality : Z;
  current_phase : Phase;
  hand : list ref;
  draw_pile : list ref;
  discard_pile : list ref;
  exhaust_pile : list ref;
  buffs : gmap string Z;
  new_buffs : gmap string bool;
  log : list string;
  is_first_shuffle : bool;
  defense : option Z
}.

Definition set_current_round (x : Z) (s : GameState) : GameState :=
  mkGameState (deck s) (num_rounds s) (target_score s) (max_hand_size s)
    x (score s) (spirit s) (vitality s) (current_phase s)
    (hand s) (draw_pile s) (discard_pile s) (exhaust_pile s)
    (buffs s) (new_buffs s) (log s) (is_first_shuffle s) (defense s).

Definition set_score (x : Z) (s : GameState) : GameState :=
  mkGameState (deck s) (num_rounds s) (target_score s) (max_hand_size s)
    (current_round s) x (spirit s) (vitality s) (current_phase s)
    (hand s) (draw_pile s) (discard_pile s) (exhaust_pile s)
    (buffs s) (new_buffs s) (log s) (is_first_shuffle s) (defense s).

Definition set_spirit (x : Z) (s : GameState) : GameState :=
  mkGameState (deck s) (num_rounds s) (target_score s) (max_hand_size s)
    (current_round s) (score s) x (vitality s) (current_phase s)
    (hand s) (draw_pile s) (discard_pile s) (exhaust_pile s)
    (buffs s) (new_buffs s) (log s) (is_first_shuffle s) (defense s).

Definition set_vitality (x : Z) (s : GameState) : GameState :=
  mkGameState (deck s) (num_rounds s) (target_score s) (max_hand_size s)
    (current_round s) (score s) (spirit s) x (current_phase s)
    (hand s) (draw_pile s) (discard_pile s) (exhaust_pile s)
    (buffs s) (new_buffs s) (log s) (is_first_shuffle s) (defense s).

Definition set_current_phase (x : Phase) (s : GameState) : GameState :=
  mkGameState (deck s) (num_rounds s) (target_score s) (max_hand_size s)
    (current_round s) (score s) (spirit s) (vitality s) x
    (hand s) (draw_pile s) (discard_pile s) (exhaust_pile s)
    (buffs s) (new_buffs s) (log s) (is_first_shuffle s) (defense s).

Definition set_hand (x : list ref) (s : GameState) : GameState :=
  mkGameState (deck s) (num_rounds s) (target_score s) (max_hand_size s)
    (current_round s) (score s) (spirit s) (vitality s) (current_phase s)
    x (draw_pile s) (discard_pile s) (exhaust_pile s)
    (buffs s) (new_buffs s) (log s) (is_first_shuffle s) (defense s).

Definition set_draw_pile (x : list ref) (s : GameState) : GameState :=
  mkGameState (deck s) (num_rounds s) (target_score s) (max_hand_size s)
    (current_round s) (score s) (spirit s) (vitality s) (current_phase s)
    (hand s) x (discard_pile s) (exhaust_pile s)
    (buffs s) (new_buffs s) (log s) (is_first_shuffle s) (defense s).

Definition set_discard_pile (x : list ref) (s : GameState) : GameState :=
  mkGameState (deck s) (num_rounds s) (target_score s) (max_hand_size s)
    (current_round s) (score s) (spirit s) (vitality s) (current_phase s)
    (hand s) (draw_pile s) x (exhaust_pile s)
    (buffs s) (new_buffs s) (log s) (is_first_shuffle s) (defense s).

Definition set_exhaust_pile (x : list ref) (s : GameState) : GameState :=
  mkGameState (deck s) (num_rounds s) (target_score s) (max_hand_size s)
    (current_round s) (score s) (spirit s) (vitality s) (current_phase s)
    (hand s) (draw_pile s) (discard_pile s) x
    (buffs s) (new_buffs s) (log s) (is_first_shuffle s) (defense s).

Definition set_buffs (x : gmap string Z) (s : GameState) : GameState :=
  mkGameState (deck s) (num_rounds s) (target_score s) (max_hand_size s)
    (current_round s) (score s) (spirit s) (vitality s) (current_phase s)
    (hand s) (draw_pile s) (discard_pile s) (exhaust_pile s)
    x (new_buffs s) (log s) (is_first_shuffle s) (defense s).

Definition set_new_buffs (x : gmap string bool) (s : GameState) : GameState :=
  mkGameState (deck s) (num_rounds s) (target_score s) (max_hand_size s)
    (current_round s) (score s) (spirit s) (vitality s) (current_phase s)
    (hand s) (draw_pile s) (discard_pile s) (exhaust_pile s)
    (buffs s) x (log s) (is_first_shuffle s) (defense s).

Definition set_log (x : list string) (s : GameState) : GameState :=
  mkGameState (deck s) (num_rounds s) (target_score s) (max_hand_size s)
    (current_round s) (score s) (spirit s) (vitality s) (current_phase s)
    (hand s) (draw_pile s) (discard_pile s) (exhaust_pile s)
    (buffs s) (new_buffs s) x (is_first_shuffle s) (defense s).

Definition set_is_first_shuffle (x : bool) (s : GameState) : GameState :=
  mkGameState (deck s) (num_rounds s) (target_score s) (max_hand_size s)
    (current_round s) (score s) (spirit s) (vitality s) (current_phase s)
    (hand s) (draw_pile s) (discard_pile s) (exhaust_pile s)
    (buffs s) (new_buffs s) (log s) x (defense s).

Definition set_defense (x : option Z) (s : GameState) : GameState :=
  mkGameState (deck s) (num_rounds s) (target_score s) (max_hand_size s)
    (current_round s) (score s) (spirit s) (vitality s) (current_phase s)
    (hand s) (draw_pile s) (discard_pile s) (exhaust_pile s)
    (buffs s) (new_buffs s) (log s) (is_first_shuffle s) x.

(** ** Card.apply_cost and Card.apply_effects *)

Definition apply_cost (self : Card) (game_state : GameState)
    : GameState * list string :=
  let remaining_cost := cost self in
  if bypass_spirit self then
    (set_vitality (vitality game_state - remaining_cost) game_state,
     ["消耗体力 " +:+ fmt remaining_cost])
  else
    let '(gs1, remaining_cost1, log1) :=
      if bool_decide (spirit game_state > 0) then
        let spirit_reduction := Z.min (spirit game_state) remaining_cost in
        (set_spirit (spirit game_state - spirit_reduction) game_state,
         remaining_cost - spirit_reduction,
         ["消耗元气 " +:+ fmt spirit_reduction])
      else (game_state, remaining_cost, []) in
    if bool_decide (remaining_cost1 > 0) then
      (set_vitality (vitality gs1 - remaining_cost1) gs1,
       log1 ++ ["消耗体力 " +:+ fmt remaining_cost1])
    else (gs1, log1).

(** [math.floor(base_damage * 1.5)] in exact arithmetic: the floor of the
    exact product. [float_floor_times_1_5] is the computation in binary64;
    it gives this value while [3 * |base_damage| < 2^53]. *)
Definition floor_times_1_5 (base_damage : Z) : Z :=
  Qfloor (inject_Z base_damage * (3 # 2)).

(** The body of the [for effect in self.effects] loop, in exact
    arithmetic. *)
Definition apply_effect (effect : Effect) (game_state : GameState)
    : res (GameState * list string) :=
  match type effect with
  | DAMAGE =>
      let focus_bonus := dict_get (buffs game_state) FOCUS_KEY 0 in
      let base_damage := value effect + focus_bonus in
      let mood_bonus := dict_get (buffs game_state) MOOD_KEY 0 in
      let head := EffectType_value (type effect) +:+ fmt (value effect) +:+
                  (if bool_decide (focus_bonus ≠ 0) then fmt_signed focus_bonus
                   else "") in
      let '(actual_damage, log_entry) :=
        if bool_decide (mood_bonus > 0) then
          let actual_damage := floor_times_1_5 base_damage in
          (actual_damage, head +:+ "×1.5(好调)=" +:+ fmt actual_damage)
        else
          (base_damage, head +:+ "=" +:+ fmt base_damage) in
      Ok (set_score (score game_state + actual_damage) game_state, [log_entry])
  | SPIRIT =>
      let actual_spirit := value effect in
      let gs := set_spirit (spirit game_state + actual_spirit) game_state in
      Ok (gs, [EffectType_value (type effect) +:+ fmt_signed actual_spirit +:+
               "=" +:+ fmt (spirit gs)])
  | FOCUS =>
      let current_focus := dict_get (buffs game_state) FOCUS_KEY 0 in
      let new_focus := current_focus + value effect in
      Ok (set_buffs (<[FOCUS_KEY := new_focus]> (buffs game_state)) game_state,
          [EffectType_value (type effect) +:+ fmt_signed (value effect) +:+
           "=" +:+ fmt new_focus])
  | MOOD =>
      let current_mood := dict_get (buffs game_state) MOOD_KEY 0 in
      let was_zero := bool_decide (current_mood = 0) in
      let new_mood := current_mood + value effect in
      let gs := set_buffs (<[MOOD_KEY := new_mood]> (buffs game_state))
                          game_state in
      let entry := EffectType_value (type effect) +:+ fmt_signed (value effect)
                   +:+ "=" +:+ fmt new_mood in
      if was_zero && bool_decide (new_mood > 0) then
        Ok (set_new_buffs (<[MOOD_KEY := true]> (new_buffs gs)) gs,
            [entry +:+ " (新获得)"])
      else
        Ok (gs, [entry])
  | PLAY_COUNT =>
      plays ← getitem (buffs game_state) PLAYS;
      Ok (set_buffs (<[PLAYS := plays + value effect]> (buffs game_state))
                    game_state,
          [EffectType_value (type effect) +:+ fmt_signed (value effect)])
  | DRAW | DIRECT_DAMAGE => Ok (game_state, [])
  end.

(** The loop [for effect in self.effects], accumulating [log_entries]. *)
Fixpoint run_effects (es : list Effect) (game_state : GameState)
    (log_entries : list string) : res (GameState * list string) :=
  match es with
  | [] => Ok (game_state, log_entries)
  | effect :: es' =>
      '(gs, entries) ← apply_effect effect game_state;
      run_effects es' gs (log_entries ++ entries)
  end.

Definition apply_effects (self : Card) (game_state : GameState)
    : res (GameState * list string) :=
  let '(gs, cost_logs) := apply_cost self game_state in
  run_effects (effects self) gs cost_logs.

(** ** List operations of Python *)

(** [l.pop()]: removes and returns the last item. *)
Definition list_pop {A} (l : list A) : res (A * list A) :=
  match reverse l with
  | a :: rest => Ok (a, reverse rest)
  | [] => Raise IndexError
  end.

(** [l[i]] with Python's negative indices. *)
Definition list_index {A} (l : list A) (i : Z) : res A :=
  let n := Z.of_nat (length l) in
  let j := if bool_decide (i < 0) then n + i else i in
  if bool_decide (0 ≤ j < n) then
    match l !! Z.to_nat j with
    | Some a => Ok a
    | None => Raise IndexError
    end
  else Raise IndexError.

(** [l.remove(x)]: removes the first item equal to [x]; cards have no
    [__eq__], so equality of cards is identity of references. *)
Fixpoint list_remove (x : ref) (l : list ref) : res (list ref) :=
  match l with
  | [] => Raise ValueError
  | y :: l' =>
      if decide (y = x) then Ok l'
      else l'' ← list_remove x l'; mret (y :: l'')
  end.

(** [l.sort(key=..., reverse=True)]: descending and stable, items with equal
    keys keep their order. *)
Fixpoint insert_desc (key : ref → Qc) (x : ref) (l : list ref) : list ref :=
  match l with
  | [] => [x]
  | y :: l' =>
      if bool_decide (key x < key y)%Qc then y :: insert_desc key x l'
      else x :: y :: l'
  end.

Definition sort_desc (key : ref → Qc) (l : list ref) : list ref :=
  foldr (insert_desc key) [] l.

(** ** GameState *)

(** [for card in self.draw_pile: card.shuffle_random = random.random()] *)
Fixpoint assign_randoms (pile : list ref) (h : Heap) (g : Rng) : Heap * Rng :=
  match pile with
  | [] => (h, g)
  | card :: pile' =>
      let '(x, g') := random_random g in
      assign_randoms pile' (modify card (set_shuffle_random x) h) g'
  end.

(** [for card in self.draw_pile: card.shuffle_priority = 0] *)
Definition reset_priorities (pile : list ref) (h : Heap) : Heap :=
  foldl (λ h' card, modify card (set_shuffle_priority 0%Qc) h') h pile.

(** [_initialize_draw_pile]. The sort key of the first shuffle is the exact
    sum; it is the double the code computes when the priority is 0 or -1,
    the random number being a multiple of 2^-53 in [0, 1). *)
Definition _initialize_draw_pile (self : GameState) (h : Heap) (g : Rng)
    : GameState * Heap * Rng :=
  let pile := deck self in
  let '(h1, g1) := assign_randoms pile h g in
  if is_first_shuffle self then
    let sorted :=
      sort_desc (λ x, shuffle_random (obj h1 x) + shuffle_priority (obj h1 x))%Qc
                pile in
    (set_is_first_shuffle false (set_draw_pile sorted self),
     reset_priorities sorted h1, g1)
  else
    (set_draw_pile (sort_desc (λ x, shuffle_random (obj h1 x)) pile) self,
     h1, g1).

Definition initial_buffs : gmap string Z :=
  <[MOOD_KEY := 0]> (<[FOCUS_KEY := 0]> (<[PLAYS := 1]> ∅)).

Definition initial_new_buffs : gmap string bool :=
  <[MOOD_KEY := false]> ∅.

(** [GameState.__init__] *)
Definition GameState_init (deck : list ref) (num_rounds target_score : Z)
    (max_hand_size starting_vitality : Z) (h : Heap) (g : Rng)
    : GameState * Heap * Rng :=
  _initialize_draw_pile
    (mkGameState deck num_rounds target_score max_hand_size
       1 0 0 starting_vitality TURN_START
       [] [] [] []
       initial_buffs initial_new_buffs [] true None)
    h g.

(** The loop of [draw_cards]; [n] is the number of iterations left. *)
Fixpoint draw_loop (n : nat) (self : GameState) (g : Rng)
    : res (GameState * Rng) :=
  match n with
  | O => Ok (self, g)
  | S n' =>
      let refill :=
        if bool_decide (length (draw_pile self) = 0%nat) then
          if bool_decide (length (discard_pile self) = 0%nat) then None
          else
            let '(pile, g') := random_shuffle (discard_pile self) g in
            Some (set_draw_pile pile (set_discard_pile [] self), g')
        else Some (self, g) in
      match refill with
      | None => Ok (self, g)
      | Some (s1, g1) =>
          if bool_decide (Z.of_nat (length (hand s1)) < max_hand_size s1) then
            '(card, rest) ← list_pop (draw_pile s1);
            draw_loop n' (set_hand (hand s1 ++ [card]) (set_draw_pile rest s1)) g1
          else draw_loop n' s1 g1
      end
  end.

Definition draw_cards (count : Z) (self : GameState) (g : Rng)
    : res (GameState * Rng) :=
  draw_loop (Z.to_nat count) self g.

Definition reset_for_new_round (self : GameState) : GameState :=
  let s1 := set_discard_pile (discard_pile self ++ hand self) self in
  let s2 := set_hand [] s1 in
  let s3 := set_buffs (<[FOCUS_KEY := 0]> (buffs s2)) s2 in
  set_defense (Some 0) s3.

Definition handle_phase_start (self : GameState) (g : Rng)
    : res (GameState * list string * Rng) :=
  mood ← getitem (buffs self) MOOD_KEY;
  '(s1, log_entries) ←
    (if bool_decide (mood > 0) then
       is_new ← getitem (new_buffs self) MOOD_KEY;
       if is_new : bool then
         Ok (set_new_buffs (<[MOOD_KEY := false]> (new_buffs self)) self,
             ["好调效果为新获得，跳过衰减"])
       else
         let s := set_buffs (<[MOOD_KEY := mood - 1]> (buffs self)) self in
         Ok (s, ["好调效果衰减: " +:+ fmt (mood - 1 + 1) +:+ " -> " +:+
                 fmt (mood - 1)])
     else Ok (self, []));
  let s2 := set_buffs (<[PLAYS := 1]> (buffs s1)) s1 in
  '(s3, g') ← draw_cards 3 s2 g;
  Ok (s3, log_entries ++ ["抽取3张卡牌"], g').

(** ** Game: the interactive loop

    [Game] wraps one [GameState] ([self.state]); its methods are modelled on
    that state. The console is outside the core: [get_valid_input] is a
    parameter, a validated read that yields 0 (skip), a number between
    [min_val] and [max_val], or raises [SystemExit] (quit). *)

(** The guard of the main loop of [Game.start] and of [train]. *)
Definition running (s : GameState) : bool :=
  bool_decide (current_round s ≤ num_rounds s) &&
  bool_decide (score s < target_score s) &&
  bool_decide (vitality s > 0).

Definition handle_turn_start (state : GameState) (g : Rng)
    : res (GameState * Rng) :=
  '(s, log_entries, g') ← handle_phase_start state g;
  Ok (set_log (log s ++ log_entries) s, g').

Definition handle_turn_end (state : GameState) : GameState :=
  let s := reset_for_new_round state in
  set_log (log s ++ ["回合 " +:+ fmt (current_round s) +:+ " 结束"]) s.

(** Where a played card goes in [Game.play_turn]. *)
Definition dispose (h : Heap) (selected_card : ref) (s : GameState)
    : GameState :=
  if exhaust (obj h selected_card) then
    set_exhaust_pile (exhaust_pile s ++ [selected_card]) s
  else
    set_discard_pile (discard_pile s ++ [selected_card]) s.

(** The body of the loop of [Game.play_turn] once a card number is chosen. *)
Definition play_card (h : Heap) (state : GameState) (choice : Z)
    : res GameState :=
  selected_card ← list_index (hand state) (choice - 1);
  '(s1, log_entries) ← apply_effects (obj h selected_card) state;
  let s2 := set_log (log s1 ++ log_entries) s1 in
  hand' ← list_remove selected_card (hand s2);
  let s3 := dispose h selected_card (set_hand hand' s2) in
  plays ← getitem (buffs s3) PLAYS;
  Ok (set_buffs (<[PLAYS := plays - 1]> (buffs s3)) s3).

Section Interactive.
Context {Console : Type}.
Variable get_valid_input : Z → Z → Console → res Z * Console.

(** The [while] loop of [Game.play_turn]. *)
Fixpoint play_turn (fuel : nat) (h : Heap) (state : GameState) (c : Console)
    : res (GameState * Console) :=
  match fuel with
  | O => OutOfFuel
  | S fuel' =>
      plays ← getitem (buffs state) PLAYS;
      if bool_decide (plays > 0) && bool_decide (hand state ≠ []) then
        let '(answer, c1) :=
          get_valid_input 1 (Z.of_nat (length (hand state))) c in
        choice ← answer;
        if bool_decide (choice = 0) then Ok (state, c1)
        else
          s ← play_card h state choice;
          play_turn fuel' h s c1
      else Ok (state, c)
  end.

(** One pass through the body of the main loop of [Game.start]. *)
Definition game_cycle (plays_fuel : nat) (h : Heap) (state : GameState)
    (g : Rng) (c : Console) : res (GameState * Rng * Console) :=
  let s1 := set_current_phase TURN_START state in
  '(s2, g1) ← handle_turn_start s1 g;
  let s3 := set_current_phase PLAYER_ACTION s2 in
  '(s4, c1) ← play_turn plays_fuel h s3 c;
  let s5 := set_current_phase TURN_END s4 in
  let s6 := handle_turn_end s5 in
  Ok (set_current_round (current_round s6 + 1) s6, g1, c1).

(** The main loop of [Game.start]. *)
Fixpoint start (fuel plays_fuel : nat) (h : Heap) (state : GameState)
    (g : Rng) (c : Console) : res (GameState * Rng * Console) :=
  match fuel with
  | O => OutOfFuel
  | S fuel' =>
      if running state then
        '(s, g1, c1) ← game_cycle plays_fuel h state g c;
        start fuel' plays_fuel h s g1 c1
      else Ok (state, g, c)
  end.
End Interactive.

(** ** create_base_deck *)

(** One entry of [CARDS]; [count], [traits] and [shuffle_priority] are
    optional keys. *)
Record CardData := mkCardData {
  data_name : string;
  data_effects : list EffectDict;
  data_cost : Z;
  data_count : option Z;
  data_traits : option (list string);
  data_shuffle_priority : option Qc
}.

Definition eff (t : string) (v : Z) : EffectDict := mkEffectDict t v None.

Definition CARDS : list CardData :=
  [ mkCardData "进攻" [eff "伤害" 9] 4 (Some 2) None None;
    mkCardData "防御" [eff "元气" 4] 0 (Some 2) None None;
    mkCardData "集中" [eff "元气" 2; eff "集中" 2] 1 (Some 2) None None;
    mkCardData "双击" [eff "伤害" 9; eff "伤害" 9] 7 None (Some ["消耗"]) None;
    mkCardData "沉静意志1" [eff "集中" 4; eff "好调" 3] 2 None (Some ["消耗"])
               (Some (Q2Qc (-1)));
    mkCardData "测试" [eff "伤害" 9; eff "集中" 2; eff "伤害" 9] 4 None
               (Some ["消耗"]) None;
    mkCardData "舍身一击" [eff "伤害" 15] 6 None (Some ["消耗"; "无视元气"]) None;
    mkCardData "爆发" [eff "伤害" 20] 8 None (Some ["消耗"; "无视元气"]) None ].

(** The loop [for card_data in CARDS] of [create_base_deck]: one [Card] is
    constructed per entry and that object is appended [count] times. *)
Fixpoint add_cards (cards : list CardData) (deck : list ref) (h : Heap)
    : res (list ref * Heap) :=
  match cards with
  | [] => Ok (deck, h)
  | card_data :: cards' =>
      let count := default 1 (data_count card_data) in
      let traits := default [] (data_traits card_data) in
      let shuffle_priority := default 0%Qc (data_shuffle_priority card_data) in
      c ← Card_init (data_name card_data) (data_effects card_data)
                    (data_cost card_data)
                    (bool_decide ("无视元气" ∈ traits))
                    shuffle_priority
                    (bool_decide ("消耗" ∈ traits));
      let '(card, h1) := alloc c h in
      add_cards cards' (deck ++ replicate (Z.to_nat count) card) h1
  end.

Definition build_deck (cards : list CardData) (h : Heap)
    : res (list ref * Heap) :=
  add_cards cards [] h.

Definition create_base_deck (h : Heap) : res (list ref * Heap) :=
  build_deck CARDS h.

(** ** CardRecommendationAgent *)

Record Agent := mkAgent {
  agent_deck : list ref;
  q_table : gmap string (gmap string Qc);
  learning_rate : Qc;
  discount_factor : Qc;
  exploration_rate : Qc
}.

Definition set_q_table (q : gmap string (gmap string Qc)) (a : Agent) : Agent :=
  mkAgent (agent_deck a) q (learning_rate a) (discount_factor a)
          (exploration_rate a).

(** [CardRecommendationAgent.__init__] with its defaults 0.1, 0.9, 0.1. *)
Definition Agent_init (deck : list ref) : Agent :=
  mkAgent deck ∅ (Q2Qc (1 # 10)) (Q2Qc (9 # 10)) (Q2Qc (1 # 10)).

Definition get_state_key (game_state : GameState) : string :=
  "round:" +:+ fmt (current_round game_state) +:+
  "_score:" +:+ fmt (score game_state) +:+
  "_spirit:" +:+ fmt (spirit game_state) +:+
  "_vitality:" +:+ fmt (vitality game_state) +:+
  "_focus:" +:+ fmt (dict_get (buffs game_state) FOCUS_KEY 0) +:+
  "_mood:" +:+ fmt (dict_get (buffs game_state) MOOD_KEY 0).

(** [{card.name: 0 for card in cards}] *)
Definition zero_row (h : Heap) (cards : list ref) : gmap string Qc :=
  list_to_map ((λ card, (name (obj h card), 0%Qc)) <$> cards).

(** [row.values()] *)
Definition row_values (row : gmap string Qc) : list Qc := (map_to_list row).*2.

(** [max(values)]: the first largest item, [ValueError] on an empty
    sequence. *)
Definition max_value (values : list Qc) : res Qc :=
  match values with
  | [] => Raise ValueError
  | x :: l =>
      Ok (foldl (λ best y, if bool_decide (best < y)%Qc then y else best) x l)
  end.

(** [max(items, key=...)] *)
Definition max_by (key : ref → Qc) (items : list ref) : res ref :=
  match items with
  | [] => Raise ValueError
  | x :: l =>
      Ok (foldl (λ best y, if bool_decide (key best < key y)%Qc then y
                           else best) x l)
  end.

Definition choose_card (self : Agent) (h : Heap) (game_state : GameState)
    (g : Rng) : res (option ref * Agent * Rng) :=
  if bool_decide (hand game_state = []) then Ok (None, self, g)
  else
    let state_key := get_state_key game_state in
    let '(u, g1) := random_random g in
    if bool_decide (u < exploration_rate self)%Qc then
      '(card, g2) ← random_choice (hand game_state) g1;
      Ok (Some card, self, g2)
    else
      let self1 :=
        if bool_decide (is_Some (q_table self !! state_key)) then self
        else set_q_table (<[state_key := zero_row h (hand game_state)]>
                            (q_table self)) self in
      q_values ← getitem (q_table self1) state_key;
      best_card ← max_by (λ card, dict_get q_values (name (obj h card)) 0%Qc)
                         (hand game_state);
      Ok (Some best_card, self1, g1).

(** [update_q_table] in exact arithmetic; [update_q_table_float] is the
    update in binary64. *)
Definition update_q_table (self : Agent) (h : Heap) (prev_state : string)
    (card : Card) (reward : Z) (curr_state : string) : res Agent :=
  let q1 :=
    if bool_decide (is_Some (q_table self !! prev_state)) then q_table self
    else <[prev_state := zero_row h (agent_deck self)]> (q_table self) in
  let q2 :=
    if bool_decide (is_Some (q1 !! curr_state)) then q1
    else <[curr_state := zero_row h (agent_deck self)]> q1 in
  prev_row ← getitem q2 prev_state;
  let current_q := dict_get prev_row (name card) 0%Qc in
  curr_row ← getitem q2 curr_state;
  max_next_q ← max_value (row_values curr_row);
  let new_q :=
    (current_q + learning_rate self *
       (Q2Qc (inject_Z reward) + discount_factor self * max_next_q - current_q))%Qc in
  Ok (set_q_table (<[prev_state := <[name card := new_q]> prev_row]> q2) self).

(** The body of the inner [while] loop of [train] once a card is selected:
    the new agent, the new state and [curr_state_key]. *)
Definition train_play (self : Agent) (h : Heap) (game_state : GameState)
    (prev_state_key : string) (selected_card : ref)
    : res (Agent * GameState * string) :=
  '(gs1, log_entries) ← apply_effects (obj h selected_card) game_state;
  let curr_state_key := get_state_key gs1 in
  let reward := score gs1 in
  self1 ← update_q_table self h prev_state_key (obj h selected_card)
                         reward curr_state_key;
  hand' ← list_remove selected_card (hand gs1);
  let gs2 := set_hand hand' gs1 in
  let gs3 := set_discard_pile (discard_pile gs2 ++ [selected_card]) gs2 in
  plays ← getitem (buffs gs3) PLAYS;
  let gs4 := set_buffs (<[PLAYS := plays - 1]> (buffs gs3)) gs3 in
  Ok (self1, gs4, curr_state_key).

(** The inner [while] loop of [train] (the play phase of one round). *)
Fixpoint train_plays (fuel : nat) (self : Agent) (h : Heap)
    (game_state : GameState) (g : Rng) (prev_state_key : string)
    : res (Agent * GameState * Rng) :=
  match fuel with
  | O => OutOfFuel
  | S fuel' =>
      plays ← getitem (buffs game_state) PLAYS;
      if bool_decide (plays > 0) && bool_decide (hand game_state ≠ []) then
        '(selected, self1, g1) ← choose_card self h game_state g;
        match selected with
        | None => Ok (self1, game_state, g1)
        | Some selected_card =>
            '(self2, gs, curr_state_key) ←
              train_play self1 h game_state prev_state_key selected_card;
            train_plays fuel' self2 h gs g1 curr_state_key
        end
      else Ok (self, game_state, g)
  end.

(** One pass through the body of the outer [while] loop of [train]. *)
Definition train_cycle (plays_fuel : nat) (self : Agent) (h : Heap)
    (game_state : GameState) (g : Rng) : res (Agent * GameState * Rng) :=
  let gs1 := set_current_phase TURN_START game_state in
  '(gs2, _, g1) ← handle_phase_start gs1 g;
  let gs3 := set_current_phase PLAYER_ACTION gs2 in
  let prev_state_key := get_state_key gs3 in
  '(self1, gs4, g2) ← train_plays plays_fuel self h gs3 g1 prev_state_key;
  let gs5 := set_current_phase TURN_END gs4 in
  let gs6 := reset_for_new_round gs5 in
  Ok (self1, set_current_round (current_round gs6 + 1) gs6, g2).

(** The outer [while] loop of [train]. *)
Fixpoint train_rounds (fuel plays_fuel : nat) (self : Agent) (h : Heap)
    (game_state : GameState) (g : Rng) : res (Agent * GameState * Rng) :=
  match fuel with
  | O => OutOfFuel
  | S fuel' =>
      if running game_state then
        '(self1, gs, g1) ← train_cycle plays_fuel self h game_state g;
        train_rounds fuel' plays_fuel self1 h gs g1
      else Ok (self, game_state, g)
  end.

(** One episode of [train]: a fresh [GameState] over the agent's deck, then
    the loop. *)
Definition train_episode (fuel plays_fuel : nat) (self : Agent) (h : Heap)
    (g : Rng) (num_rounds target_score : Z)
    : res (Agent * GameState * Heap * Rng) :=
  let '(game_state, h1, g1) :=
    GameState_init (agent_deck self) num_rounds target_score 5 30 h g in
  '(self1, gs, g2) ← train_rounds fuel plays_fuel self h1 game_state g1;
  Ok (self1, gs, h1, g2).

Record TrainingResults := mkTrainingResults {
  total_episodes : Z;
  successful_episodes : Z;
  average_final_score : Qc;
  total_final_score : Z
}.

(** The [for episode in range(num_episodes)] loop of [train]; the lists
    [episode_states], [episode_actions] and [episode_rewards] are only
    written, never read, and are left out. *)
Fixpoint train_episodes (n fuel plays_fuel : nat) (self : Agent) (h : Heap)
    (g : Rng) (num_rounds target_score : Z) (successful total : Z)
    : res (Agent * Heap * Rng * Z * Z) :=
  match n with
  | O => Ok (self, h, g, successful, total)
  | S n' =>
      '(self1, gs, h1, g1) ←
        train_episode fuel plays_fuel self h g num_rounds target_score;
      let total1 := total + score gs in
      let successful1 :=
        if bool_decide (target_score ≤ score gs) then successful + 1
        else successful in
      train_episodes n' fuel plays_fuel self1 h1 g1 num_rounds target_score
                     successful1 total1
  end.

(** [train]: the episodes, then the summary with the average final
    score, here the exact quotient, which the code rounds to a double. *)
Definition train (fuel plays_fuel : nat) (self : Agent) (h : Heap) (g : Rng)
    (num_episodes num_rounds target_score : Z)
    : res (TrainingResults * Agent * Heap * Rng) :=
  '(self1, h1, g1, successful, total) ←
    train_episodes (Z.to_nat num_episodes) fuel plays_fuel self h g
                   num_rounds target_score 0 0;
  if bool_decide (num_episodes = 0) then Raise ZeroDivisionError
  else
    Ok (mkTrainingResults num_episodes successful
          (Q2Qc (inject_Z total) / Q2Qc (inject_Z num_episodes))%Qc total,
        self1, h1, g1).

(** ** Notions used in the statements *)

(** A card without its effects of kind [DRAW]. *)
Definition without_draw (c : Card) : Card :=
  mkCard (name c) (filter (λ e, type e ≠ DRAW) (effects c)) (cost c)
         (bypass_spirit c) (shuffle_priority c) (exhaust c) (shuffle_random c).

(** [n] consecutive TURN_START phases with nothing played in between. *)
Fixpoint turn_starts (n : nat) (s : GameState) (g : Rng)
    : res (GameState * Rng) :=
  match n with
  | O => Ok (s, g)
  | S n' =>
      '(s1, _, g1) ← handle_phase_start s g;
      turn_starts n' s1 g1
  end.

(** [n] passes through the body of the trainer's outer loop, the guard not
    being looked at. *)
Fixpoint train_cycles (n plays_fuel : nat) (self : Agent) (h : Heap)
    (game_state : GameState) (g : Rng) : res (Agent * GameState * Rng) :=
  match n with
  | O => Ok (self, game_state, g)
  | S n' =>
      '(self1, gs, g1) ← train_cycle plays_fuel self h game_state g;
      train_cycles n' plays_fuel self1 h gs g1
  end.

(** The same for the interactive loop. *)
Fixpoint game_cycles {Console : Type}
    (get_valid_input : Z → Z → Console → res Z * Console)
    (n plays_fuel : nat) (h : Heap) (state : GameState) (g : Rng) (c : Console)
    : res (GameState * Rng * Console) :=
  match n with
  | O => Ok (state, g, c)
  | S n' =>
      '(s, g1, c1) ← game_cycle get_valid_input plays_fuel h state g c;
      game_cycles get_valid_input n' plays_fuel h s g1 c1
  end.

(** [Game(deck, ...).start()]: a fresh state, then the main loop. *)
Definition play_game {Console : Type}
    (get_valid_input : Z → Z → Console → res Z * Console)
    (fuel plays_fuel : nat) (deck : list ref) (num_rounds target_score : Z)
    (max_hand_size starting_vitality : Z) (h : Heap) (g : Rng) (c : Console)
    : res (GameState * Rng * Console) :=
  let '(state, h1, g1) :=
    GameState_init deck num_rounds target_score max_hand_size
                   starting_vitality h g in
  start get_valid_input fuel plays_fuel h1 state g1 c.

(** The same game taken through exactly [n] cycles. *)
Definition play_game_cycles {Console : Type}
    (get_valid_input : Z → Z → Console → res Z * Console)
    (n plays_fuel : nat) (deck : list ref) (num_rounds target_score : Z)
    (max_hand_size starting_vitality : Z) (h : Heap) (g : Rng) (c : Console)
    : res (GameState * Rng * Console) :=
  let '(state, h1, g1) :=
    GameState_init deck num_rounds target_score max_hand_size
                   starting_vitality h g in
  game_cycles get_valid_input n plays_fuel h1 state g1 c.

(** An episode of the trainer taken through exactly [n] cycles. *)
Definition train_episode_cycles (n plays_fuel : nat) (self : Agent) (h : Heap)
    (g : Rng) (num_rounds target_score : Z)
    : res (Agent * GameState * Heap * Rng) :=
  let '(game_state, h1, g1) :=
    GameState_init (agent_deck self) num_rounds target_score 5 30 h g in
  '(self1, gs, g2) ← train_cycles n plays_fuel self h1 game_state g1;
  Ok (self1, gs, h1, g2).

(** What [get_valid_input] guarantees about its result. *)
Definition validated {Console : Type}
    (get_valid_input : Z → Z → Console → res Z * Console) : Prop :=
  ∀ min_val max_val c,
    match (get_valid_input min_val max_val c).1 with
    | Ok v => v = 0 ∨ min_val ≤ v ≤ max_val
    | Raise e => e = SystemExit
    | OutOfFuel => False
    end.

(** The entries that [GameState.__init__] puts into the two dicts are
    there. *)
Definition keys_present (s : GameState) : Prop :=
  is_Some (buffs s !! MOOD_KEY) ∧ is_Some (buffs s !! PLAYS) ∧
  is_Some (new_buffs s !! MOOD_KEY).

(** The most cycles a game can go through from [s]. *)
Definition rounds_left (s : GameState) : nat :=
  Z.to_nat (num_rounds s - current_round s + 1).

(** Only the three piles a draw works on differ between [s] and [s']. *)
Definition piles_moved (s s' : GameState) : Prop :=
  s' = set_hand (hand s') (set_draw_pile (draw_pile s')
         (set_discard_pile (discard_pile s') s)).

(** The cards in circulation: everything but the exhaust pile. *)
Definition all_cards (s : GameState) : list ref :=
  hand s ++ draw_pile s ++ discard_pile s.

(** With an empty deck there is no card in circulation. *)
Definition piles_from_deck (s : GameState) : Prop :=
  deck s = [] → all_cards s = [].

(** The configuration and the round counter are the same in [s] and [s']. *)
Definition same_round (s s' : GameState) : Prop :=
  deck s' = deck s ∧ num_rounds s' = num_rounds s ∧
  current_round s' = current_round s ∧ target_score s' = target_score s ∧
  max_hand_size s' = max_hand_size s.

(** Only score, spirit, vitality and the two buff dicts differ between [s]
    and [s']. *)
Definition effects_frame (s s' : GameState) : Prop :=
  s' = set_score (score s') (set_spirit (spirit s') (set_vitality (vitality s')
         (set_buffs (buffs s') (set_new_buffs (new_buffs s') s)))).

(** The buff bookkeeping of TURN_START, before the draw. *)
Definition begin_turn (s : GameState) : GameState :=
  let m := dict_get (buffs s) MOOD_KEY 0 in
  let s1 :=
    if bool_decide (m > 0) then
      if dict_get (new_buffs s) MOOD_KEY false then
        set_new_buffs (<[MOOD_KEY := false]> (new_buffs s)) s
      else set_buffs (<[MOOD_KEY := m - 1]> (buffs s)) s
    else s in
  set_buffs (<[PLAYS := 1]> (buffs s1)) s1.

(** The number of deck slots an entry of [CARDS] asks for. *)
Definition copies (d : CardData) : nat := Z.to_nat (default 1 (data_count d)).

(** The pile is in descending order of the cards' [shuffle_random]. *)
Fixpoint descending_by_random (h : Heap) (pile : list ref) : Prop :=
  match pile with
  | [] => True
  | x :: rest =>
      Forall (λ y, (shuffle_random (obj h y) ≤ shuffle_random (obj h x))%Qc) rest
      ∧ descending_by_random h rest
  end.

(** No row of the value table is empty. *)
Definition rows_nonempty (q : gmap string (gmap string Qc)) : Prop :=
  ∀ k row, q !! k = Some row → row ≠ ∅.

(** The row of [key] that [update_q_table] works on: the stored one, or the
    all-zero row over the deck that it creates. *)
Definition row_at (self : Agent) (h : Heap) (key : string) : gmap string Qc :=
  default (zero_row h (agent_deck self)) (q_table self !! key).

(** The table after the two lazy row initialisations of
    [update_q_table]. *)
Definition with_rows (self : Agent) (h : Heap) (prev curr : string)
    : gmap string (gmap string Qc) :=
  let q1 :=
    if bool_decide (is_Some (q_table self !! prev)) then q_table self
    else <[prev := zero_row h (agent_deck self)]> (q_table self) in
  if bool_decide (is_Some (q1 !! curr)) then q1
  else <[curr := zero_row h (agent_deck self)]> q1.

(** The value the table holds for a fingerprint and a card name. *)
Definition stored (self : Agent) (key card_name : string) : option Qc :=
  q_table self !! key ≫= (.!! card_name).

(** What the trainer's loops keep true of the agent and the state. *)
Definition trainer_inv (self : Agent) (gs : GameState) : Prop :=
  keys_present gs ∧ rows_nonempty (q_table self) ∧
  agent_deck self = deck gs ∧ piles_from_deck gs.

(** ** Three statements of the specification in closed form *)

(** The cost rule in the closed form max(s−c, 0) / max(c−s, 0). *)
Definition cost_formula (c : Card) (gs : GameState) : Prop :=
  let gs' := (apply_cost c gs).1 in
  (bypass_spirit c = false →
     spirit gs' = Z.max (spirit gs - cost c) 0 ∧
     vitality gs' = vitality gs - Z.max (cost c - spirit gs) 0) ∧
  (bypass_spirit c = true →
     spirit gs' = spirit gs ∧ vitality gs' = vitality gs - cost c).

(** "Draw silently capped": with a full hand the top card leaves the draw
    pile and does not reach the hand. *)
Definition draw_silently_capped (gs : GameState) (g : Rng) : Prop :=
  Z.of_nat (length (hand gs)) = max_hand_size gs → draw_pile gs ≠ [] →
  ∃ gs' g' top rest,
    draw_cards 1 gs g = Ok (gs', g') ∧ draw_pile gs = rest ++ [top] ∧
    draw_pile gs' = rest ∧ hand gs' = hand gs.

(** The update leaves the stored value as it was exactly when
    reward + γ·max(next row) is the old value. *)
Definition unchanged_exactly_when (self : Agent) (h : Heap) (prev : string)
    (card : Card) (reward : Z) (curr : string) : Prop :=
  ∀ m self',
    max_value (row_values (row_at self h curr)) = Ok m →
    update_q_table self h prev card reward curr = Ok self' →
    let old := dict_get (row_at self h prev) (name card) 0%Qc in
    stored self' prev (name card) = Some old ↔
    (Q2Qc (inject_Z reward) + discount_factor self * m = old)%Qc.

(** ** Concrete inputs *)

Definition rng_ones : Rng := mkRng (λ _, 1) 0.

(** A console whose user always picks the lowest number offered, and skips
    when there is none. *)
Definition always_first : Z → Z → unit → res Z * unit :=
  λ min_val max_val c,
    (Ok (if bool_decide (min_val ≤ max_val) then min_val else 0), c).

(** The deck of [create_base_deck] and the store that holds its cards. *)
Definition base_world : list ref * Heap :=
  match create_base_deck empty_heap with
  | Ok w => w
  | _ => ([], empty_heap)
  end.

Definition base_deck : list ref := base_world.1.
Definition base_heap : Heap := base_world.2.

(** A state over the base deck as [GameState.__init__] leaves it, but with
    the piles given. *)
Definition state_with (hand draw discard : list ref) : GameState :=
  mkGameState base_deck 9 90 5 1 0 0 30 PLAYER_ACTION hand draw discard []
              initial_buffs initial_new_buffs [] false None.

Definition fresh_state : GameState := state_with [] [] [].

Definition full_hand_state : GameState :=
  state_with [0; 0; 1; 1; 2]%nat [2; 3]%nat [].

(** An empty draw pile with cards 0 and 1 discarded. *)
Definition reshuffle_state : GameState := state_with [] [] [0; 1]%nat.

(** The base cards after a shuffle that drew 1/4 for card 0 and 3/4 for
    card 1. *)
Definition quarters_heap : Heap :=
  modify 1%nat (set_shuffle_random (Q2Qc (3 # 4)))
    (modify 0%nat (set_shuffle_random (Q2Qc (1 # 4))) base_heap).

(** The exhaust card "双击" in hand. *)
Definition exhaust_in_hand : GameState := state_with [3]%nat [] [].

(** The exhaust card "双击" on top of the draw pile, nothing else in
    circulation. *)
Definition exhaust_on_top : GameState := state_with [] [3]%nat [].

(** The mood buff at 3, just acquired. *)
Definition new_mood_state : GameState :=
  set_new_buffs (<[MOOD_KEY := true]> initial_new_buffs)
    (set_buffs (<[MOOD_KEY := 3]> initial_buffs) fresh_state).

(** The mood buff at 3, acquired in an earlier turn. *)
Definition old_mood_state : GameState :=
  set_buffs (<[MOOD_KEY := 3]> initial_buffs) fresh_state.

Definition drain_card : Card :=
  mkCard "drain" [mkEffect SPIRIT (-1) false] 0 false 0%Qc false 0%Qc.

Definition plain_card : Card :=
  mkCard "plain" [] 2 false 0%Qc false 0%Qc.

(** An agent with learning rate 0 whose table holds 1 for "进攻" in the
    rows "p" and "c". *)
Definition frozen_agent : Agent :=
  mkAgent base_deck
    (<["p" := {["进攻" := 1%Qc]}]> (<["c" := {["进攻" := 1%Qc]}]> ∅))
    0%Qc (Q2Qc (9 # 10)) (Q2Qc (1 # 10)).
(** ** Binary64 arithmetic

    Python's [float] is IEEE 754 binary64.  [spec_float] at precision 53 and
    maximal exponent 1024 is its specification in the standard library:
    every operation rounds to nearest, ties to even, and overflows to an
    infinity without raising. *)

Definition float := spec_float.
Definition prec : Z := 53.
Definition emax : Z := 1024.

Definition fadd : float → float → float := SFadd prec emax.
Definition fsub : float → float → float := SFsub prec emax.
Definition fmul : float → float → float := SFmul prec emax.

(** [x == y] and [x < y] on floats. *)
Definition feqb : float → float → bool := SFeqb.
Definition fltb : float → float → bool := SFltb.

(** Neither an infinity nor a NaN. *)
Definition is_finite (x : float) : bool :=
  match x with
  | S754_zero _ | S754_finite _ _ _ => true
  | _ => false
  end.

(** The int [0] where a float is expected, and the literals [1.5], [0.1]
    and [0.9]. *)
Definition float_zero : float := S754_zero false.
Definition float_1_5 : float := S754_finite false 6755399441055744 (-52).
Definition float_0_1 : float := S754_finite false 7205759403792794 (-56).
Definition float_0_9 : float := S754_finite false 8106479329266893 (-53).

(** The conversion of an [int] operand that meets a [float] operand:
    rounded to nearest, [OverflowError] when the int is beyond the range
    of the doubles. *)
Definition float_of_int (z : Z) : res float :=
  match binary_normalize prec emax z 0 false with
  | S754_infinity _ => Raise OverflowError
  | x => Ok x
  end.

(** [math.floor(x)]: [OverflowError] on an infinity, [ValueError] on a
    NaN. *)
Definition math_floor (x : float) : res Z :=
  match x with
  | S754_zero _ => Ok 0
  | S754_finite s m e => Ok (Z.shiftl (cond_Zopp s (Z.pos m)) e)
  | S754_infinity _ => Raise OverflowError
  | S754_nan => Raise ValueError
  end.

(** [math.floor(base_damage * 1.5)] as it is computed: the int is converted
    to a double, the product is rounded to a double, and the floor of that
    double is taken. *)
Definition float_floor_times_1_5 (base_damage : Z) : res Z :=
  x ← float_of_int base_damage;
  math_floor (fmul x float_1_5).

(** ** The effects of a card in binary64

    [apply_effect] with the arithmetic of the DAMAGE branch as the code
    performs it; the other branches work on ints alone. *)

Definition apply_effect_float (effect : Effect) (game_state : GameState)
    : res (GameState * list string) :=
  match type effect with
  | DAMAGE =>
      let focus_bonus := dict_get (buffs game_state) FOCUS_KEY 0 in
      let base_damage := value effect + focus_bonus in
      let mood_bonus := dict_get (buffs game_state) MOOD_KEY 0 in
      let head := EffectType_value (type effect) +:+ fmt (value effect) +:+
                  (if bool_decide (focus_bonus ≠ 0) then fmt_signed focus_bonus
                   else "") in
      if bool_decide (mood_bonus > 0) then
        actual_damage ← float_floor_times_1_5 base_damage;
        Ok (set_score (score game_state + actual_damage) game_state,
            [head +:+ "×1.5(好调)=" +:+ fmt actual_damage])
      else
        Ok (set_score (score game_state + base_damage) game_state,
            [head +:+ "=" +:+ fmt base_damage])
  | _ => apply_effect effect game_state
  end.

Fixpoint run_effects_float (es : list Effect) (game_state : GameState)
    (log_entries : list string) : res (GameState * list string) :=
  match es with
  | [] => Ok (game_state, log_entries)
  | effect :: es' =>
      '(gs, entries) ← apply_effect_float effect game_state;
      run_effects_float es' gs (log_entries ++ entries)
  end.

Definition apply_effects_float (self : Card) (game_state : GameState)
    : res (GameState * list string) :=
  let '(gs, cost_logs) := apply_cost self game_state in
  run_effects_float (effects self) gs cost_logs.

(** The body of the loop of [Game.play_turn] once a card number is
    chosen. *)
Definition play_card_float (h : Heap) (state : GameState) (choice : Z)
    : res GameState :=
  selected_card ← list_index (hand state) (choice - 1);
  '(s1, log_entries) ← apply_effects_float (obj h selected_card) state;
  let s2 := set_log (log s1 ++ log_entries) s1 in
  hand' ← list_remove selected_card (hand s2);
  let s3 := dispose h selected_card (set_hand hand' s2) in
  plays ← getitem (buffs s3) PLAYS;
  Ok (set_buffs (<[PLAYS := plays - 1]> (buffs s3)) s3).

(** Every DAMAGE effect of the list that meets a positive mood has a base,
    magnitude plus focus, of which three times the absolute value is below
    2^53; [focus] and [mood] are the buffs before the first effect. For
    such a base the product with 1.5 is a double. *)
Fixpoint damage_exact (focus mood : Z) (es : list Effect) : Prop :=
  match es with
  | [] => True
  | e :: es' =>
      match type e with
      | DAMAGE =>
          (mood > 0 → 3 * Z.abs (value e + focus) < 2 ^ 53) ∧
          damage_exact focus mood es'
      | FOCUS => damage_exact (focus + value e) mood es'
      | MOOD => damage_exact focus (mood + value e) es'
      | _ => damage_exact focus mood es'
      end
  end.

(** ** The value table in binary64

    A row is a Python dict from card names to values; its order, which
    [max] over the values sees, is the order of insertion. The ints [0] of
    a new row are the float zero: in the arithmetic and the comparisons of
    [update_q_table] an int [0] is converted to it. *)

Definition Row := list (string * float).

(** [row.get(k)] *)
Fixpoint row_get (row : Row) (k : string) : option float :=
  match row with
  | [] => None
  | (k', v) :: row' => if decide (k' = k) then Some v else row_get row' k
  end.

(** [row[k] = v]: an entry that is there keeps its place, a new one goes to
    the end. *)
Fixpoint row_set (row : Row) (k : string) (v : float) : Row :=
  match row with
  | [] => [(k, v)]
  | (k', v') :: row' =>
      if decide (k' = k) then (k, v) :: row' else (k', v') :: row_set row' k v
  end.

(** [{card.name: 0 for card in cards}] *)
Definition zero_row_float (h : Heap) (cards : list ref) : Row :=
  foldl (λ row card, row_set row (name (obj h card)) float_zero) [] cards.

(** [max(values)]: an item replaces the largest so far when it is greater;
    [ValueError] on an empty sequence. *)
Definition max_float (values : list float) : res float :=
  match values with
  | [] => Raise ValueError
  | x :: l => Ok (foldl (λ best y, if fltb best y then y else best) x l)
  end.

(** The agent with its table and its three rates as floats, which the
    defaults of [__init__] are. *)
Record FloatAgent := mkFloatAgent {
  float_deck : list ref;
  float_q_table : gmap string Row;
  float_learning_rate : float;
  float_discount_factor : float;
  float_exploration_rate : float
}.

Definition set_float_q_table (q : gmap string Row) (a : FloatAgent)
    : FloatAgent :=
  mkFloatAgent (float_deck a) q (float_learning_rate a)
               (float_discount_factor a) (float_exploration_rate a).

(** [CardRecommendationAgent.__init__] with its defaults 0.1, 0.9, 0.1. *)
Definition FloatAgent_init (deck : list ref) : FloatAgent :=
  mkFloatAgent deck ∅ float_0_1 float_0_9 float_0_1.

Definition update_q_table_float (self : FloatAgent) (h : Heap)
    (prev_state : string) (card : Card) (reward : Z) (curr_state : string)
    : res FloatAgent :=
  let q1 :=
    if bool_decide (is_Some (float_q_table self !! prev_state))
    then float_q_table self
    else <[prev_state := zero_row_float h (float_deck self)]>
           (float_q_table self) in
  let q2 :=
    if bool_decide (is_Some (q1 !! curr_state)) then q1
    else <[curr_state := zero_row_float h (float_deck self)]> q1 in
  prev_row ← getitem q2 prev_state;
  let current_q := default float_zero (row_get prev_row (name card)) in
  curr_row ← getitem q2 curr_state;
  max_next_q ← max_float (curr_row.*2);
  r ← float_of_int reward;
  let new_q :=
    fadd current_q
         (fmul (float_learning_rate self)
               (fsub (fadd r (fmul (float_discount_factor self) max_next_q))
                     current_q)) in
  Ok (set_float_q_table
        (<[prev_state := row_set prev_row (name card) new_q]> q2) self).

(** The body of the inner [while] loop of [train] once a card is
    selected. *)
Definition train_play_float (self : FloatAgent) (h : Heap)
    (game_state : GameState) (prev_state_key : string) (selected_card : ref)
    : res (FloatAgent * GameState * string) :=
  '(gs1, log_entries) ← apply_effects_float (obj h selected_card) game_state;
  let curr_state_key := get_state_key gs1 in
  let reward := score gs1 in
  self1 ← update_q_table_float self h prev_state_key (obj h selected_card)
                               reward curr_state_key;
  hand' ← list_remove selected_card (hand gs1);
  let gs2 := set_hand hand' gs1 in
  let gs3 := set_discard_pile (discard_pile gs2 ++ [selected_card]) gs2 in
  plays ← getitem (buffs gs3) PLAYS;
  let gs4 := set_buffs (<[PLAYS := plays - 1]> (buffs gs3)) gs3 in
  Ok (self1, gs4, curr_state_key).

(** The row of [key] that [update_q_table] works on: the stored one, or the
    all-zero row over the deck that it creates. *)
Definition float_row_at (self : FloatAgent) (h : Heap) (key : string) : Row :=
  default (zero_row_float h (float_deck self)) (float_q_table self !! key).

(** The value the table holds for a fingerprint and a card name. *)
Definition float_stored (self : FloatAgent) (key card_name : string)
    : option float :=
  float_q_table self !! key ≫= (λ row, row_get row card_name).

(** The double k·2^-53, for 0 ≤ k < 2^53 a value of [random.random()], and
    the ints -1, 1 and 2 as doubles. *)
Definition random_double (k : Z) : float :=
  binary_normalize prec emax k (-53) false.
Definition float_minus_1 : float := S754_finite true 4503599627370496 (-52).
Definition float_1 : float := S754_finite false 4503599627370496 (-52).
Definition float_2 : float := S754_finite false 4503599627370496 (-51).

(** The priorities of the deck data, 0 and -1. With one of them the sort
    key of the first shuffle, [shuffle_random + shuffle_priority], is a
    double: the random number is a multiple of 2^-53 in [0, 1), hence the
    sum a multiple of 2^-53 in [-1, 1). *)
Definition shipped_priorities (h : Heap) (d : list ref) : Prop :=
  ∀ r, r ∈ d →
    shuffle_priority (obj h r) = 0%Qc ∨ shuffle_priority (obj h r) = (-1)%Qc.

(** The table after the two lazy row initialisations of
    [update_q_table]. *)
Definition float_with_rows (self : FloatAgent) (h : Heap) (prev curr : string)
    : gmap string Row :=
  let q1 :=
    if bool_decide (is_Some (float_q_table self !! prev))
    then float_q_table self
    else <[prev := zero_row_float h (float_deck self)]> (float_q_table self) in
  if bool_decide (is_Some (q1 !! curr)) then q1
  else <[curr := zero_row_float h (float_deck self)]> q1.

(** The damage rule in closed form: floor((d+f) × 1.5) under a positive
    mood, d+f otherwise, the buffs left as they were. *)
Definition damage_formula (d : Z) (b : bool) (gs : GameState) : Prop :=
  let f := dict_get (buffs gs) FOCUS_KEY 0 in
  let m := dict_get (buffs gs) MOOD_KEY 0 in
  ∃ gs' entry,
    apply_effect_float (mkEffect DAMAGE d b) gs = Ok (gs', [entry]) ∧
    score gs' = score gs + (if bool_decide (m > 0)
                            then Qfloor (inject_Z (d + f) * (3 # 2))
                            else d + f) ∧
    buffs gs' = buffs gs ∧ new_buffs gs' = new_buffs gs.

(** The update leaves the stored value as it was exactly when
    reward + γ·max(next row), computed in doubles, is the old value. *)
Definition float_unchanged_exactly_when (self : FloatAgent) (h : Heap)
    (prev : string) (card : Card) (reward : Z) (curr : string) : Prop :=
  ∀ m r self' new,
    max_float ((float_row_at self h curr).*2) = Ok m →
    float_of_int reward = Ok r →
    update_q_table_float self h prev card reward curr = Ok self' →
    float_stored self' prev (name card) = Some new →
    let old := default float_zero
                 (row_get (float_row_at self h prev) (name card)) in
    feqb new old = true ↔
    feqb (fadd r (fmul (float_discount_factor self) m)) old = true.

(** ** Concrete inputs for the binary64 arithmetic *)

(** The mood buff at 3 and the focus buff at 2. *)
Definition focused_mood_state : GameState :=
  set_buffs (<[FOCUS_KEY := 2]> (buffs old_mood_state)) old_mood_state.

(** The double 8.999999999999993, three units in the last place below 9. *)
Definition float_near_9 : float := S754_finite false 5066549580791804 (-49).

(** An agent with the default rates whose table holds that double for
    "进攻" in the row "p". *)
Definition settled_agent : FloatAgent :=
  mkFloatAgent base_deck (<["p" := [("进攻", float_near_9)]]> ∅)
               float_0_1 float_0_9 float_0_1.

(** The double 9. *)
Definition float_9 : float := S754_finite false 5066549580791808 (-49).

(** ** The closing message of Game.start *)

(** The verdict [Game.start] prints after its loop, before the final
    score. *)
Definition final_message (s : GameState) : string :=
  if bool_decide (vitality s ≤ 0) then "体力耗尽，游戏失败！"
  else if bool_decide (target_score s ≤ score s) then "恭喜！您达到了目标分数。"
  else "很遗憾，您没有达到目标分数。".

(** The test by which [train] counts an episode as successful. *)
Definition counted_successful (s : GameState) : bool :=
  bool_decide (target_score s ≤ score s).

(** ** Notions used in the further properties *)

(** The sum of the magnitudes of the effects of kind [t]. *)
Definition effect_total (t : EffectType) (es : list Effect) : Z :=
  foldr (λ e acc, (if decide (type e = t) then value e else 0) + acc) 0 es.

(** The score a list of effects adds, as a function of the focus and the
    mood before the first of them. *)
Fixpoint card_damage (focus mood : Z) (es : list Effect) : Z :=
  match es with
  | [] => 0
  | e :: es' =>
      match type e with
      | DAMAGE =>
          (if bool_decide (mood > 0) then floor_times_1_5 (value e + focus)
           else value e + focus) + card_damage focus mood es'
      | FOCUS => card_damage (focus + value e) mood es'
      | MOOD => card_damage focus (mood + value e) es'
      | _ => card_damage focus mood es'
      end
  end.

(** Two cards that differ at most in the [bypass_spirit] flags of their
    effects. *)
Definition same_but_effect_flags (c c' : Card) : Prop :=
  name c' = name c ∧ cost c' = cost c ∧ bypass_spirit c' = bypass_spirit c ∧
  exhaust c' = exhaust c ∧
  (λ e, (type e, value e)) <$> effects c' = (λ e, (type e, value e)) <$> effects c.

(** A string names an effect kind. *)
Definition known_kind (s : string) : Prop := ∃ t, EffectType_value t = s.

(** Every effect of the entry names an effect kind. *)
Definition valid_data (d : CardData) : Prop :=
  Forall (λ e, known_kind (dict_type e)) (data_effects d).

(** The slots of a deck built from [cards] when the first new object gets
    reference [n]: entry [i] fills [copies] slots with reference [n + i]. *)
Fixpoint deck_layout (n : ref) (cards : list CardData) : list ref :=
  match cards with
  | [] => []
  | d :: cards' => replicate (copies d) n ++ deck_layout (S n) cards'
  end.

(** The [CARDS] entry with the fields of a template. *)
Definition data_of_template (t : CardTemplate) : CardData :=
  mkCardData (template_name t) (template_effects t) (template_cost t)
             (Some (template_count t)) (template_traits t)
             (Some (template_shuffle_priority t)).

(** The pile is in descending order of [key]. *)
Fixpoint descending_by (key : ref → Qc) (pile : list ref) : Prop :=
  match pile with
  | [] => True
  | x :: rest =>
      Forall (λ y, (key y ≤ key x)%Qc) rest ∧ descending_by key rest
  end.

(** Two cards agree on everything but [shuffle_random]. *)
Definition same_but_random (c c' : Card) : Prop :=
  set_shuffle_random 0%Qc c' = set_shuffle_random 0%Qc c.

(** The number of cards the hand can still take. *)
Definition room (s : GameState) : nat :=
  Z.to_nat (max_hand_size s - Z.of_nat (length (hand s))).

(** The number of cards that can still be drawn. *)
Definition stock (s : GameState) : nat :=
  (length (draw_pile s) + length (discard_pile s))%nat.

(** Every card of the state, wherever it lies. *)
Definition everything (s : GameState) : list ref :=
  hand s ++ draw_pile s ++ discard_pile s ++ exhaust_pile s.

(** From [s] to [s'] cards have only moved between the four piles. *)
Definition cards_kept (s s' : GameState) : Prop :=
  everything s' ≡ₚ everything s ∧ deck s' = deck s.

(** From [s] to [s'] cards have only moved between the hand, the draw pile
    and the discard pile. *)
Definition circulation_kept (s s' : GameState) : Prop :=
  all_cards s' ≡ₚ all_cards s ∧ exhaust_pile s' = exhaust_pile s ∧
  deck s' = deck s.

(** From [s] to [s'] the round counter stands and the log has only grown. *)
Definition within_round (s s' : GameState) : Prop :=
  current_round s' = current_round s ∧ log s `prefix_of` log s'.

(** At a round boundary: focus and defense are 0 and the hand is empty. *)
Definition round_closed (s s' : GameState) : Prop :=
  buffs s' !! FOCUS_KEY = Some 0 ∧ defense s' = Some 0 ∧ hand s' = [] ∧
  current_phase s' = TURN_END ∧ current_round s' = current_round s + 1.

(** No card in hand or exhausted, and the two remaining piles hold the
    deck [d]. *)
Definition deck_in_piles (d : list ref) (s : GameState) : Prop :=
  hand s = [] ∧ draw_pile s ++ discard_pile s ++ exhaust_pile s ≡ₚ d ∧
  deck s = d.

(** The value a row holds for a card, 0 when it has none. *)
Definition q_of (h : Heap) (row : gmap string Qc) (card : ref) : Qc :=
  dict_get row (name (obj h card)) 0%Qc.

(** The row [choose_card] reads for the state of [gs]: the stored one, or
    the all-zero row over the hand that it creates. *)
Definition hand_row (self : Agent) (h : Heap) (gs : GameState)
    : gmap string Qc :=
  default (zero_row h (hand gs)) (q_table self !! get_state_key gs).

(** The string holds no underscore. *)
Fixpoint plain (s : string) : Prop :=
  match s with
  | EmptyString => True
  | String a s' => a ≠ "_"%char ∧ plain s'
  end.

(** What the trainer's play leaves where the game's play leaves [s]: the
    log as it was before the play, and an exhaust card on the discard
    pile. *)
Definition as_trained (h : Heap) (gs : GameState) (c : ref) (s : GameState)
    : GameState :=
  set_log (log gs)
    (if exhaust (obj h c) then
       set_discard_pile (discard_pile s ++ [c])
                        (set_exhaust_pile (exhaust_pile gs) s)
     else s).

(** ** Further concrete inputs *)

(** Four cards to draw, none in hand. *)
Definition four_to_draw : GameState := state_with [] [0; 1; 2; 3]%nat [].

(** A winning score reached with the last of the vitality. *)
Definition pyrrhic_state : GameState := set_vitality 0 (set_score 100 fresh_state).

(** A card whose one effect carries the [bypass_spirit] flag, and the same
    card without the flag. *)
Definition flagged_card : Card :=
  mkCard "flag" [mkEffect DAMAGE 9 true] 2 false 0%Qc false 0%Qc.

Definition unflagged_card : Card :=
  mkCard "flag" [mkEffect DAMAGE 9 false] 2 false 0%Qc false 0%Qc.

(** An agent over the base deck that never explores. *)
Definition greedy_agent : Agent :=
  mkAgent base_deck ∅ (Q2Qc (1 # 10)) (Q2Qc (9 # 10)) 0%Qc.

(** * Properties *)

(** ** Arithmetic of the damage bonus *)

Lemma floor_times_1_5_div (x : Z) : floor_times_1_5 x = (3 * x) `div` 2.
Proof.
  unfold floor_times_1_5, Qfloor. simpl.
  f_equal. lia.
Qed.

(** ** Rounding to binary64 *)

Lemma digits2_pos_bounds (p : positive) :
  2 ^ (Z.pos (digits2_pos p) - 1) ≤ Z.pos p < 2 ^ Z.pos (digits2_pos p).
Proof.
  induction p as [p IH|p IH|]; cbn [digits2_pos].
  - rewrite Pos2Z.inj_succ. change (Z.pos p~1) with (2 * Z.pos p + 1).
    replace (Z.succ (Z.pos (digits2_pos p)) - 1)
      with (Z.succ (Z.pos (digits2_pos p) - 1)) by lia.
    rewrite !Z.pow_succ_r by lia.
    revert IH. generalize (2 ^ (Z.pos (digits2_pos p) - 1)).
    generalize (2 ^ Z.pos (digits2_pos p)). lia.
  - rewrite Pos2Z.inj_succ. change (Z.pos p~0) with (2 * Z.pos p).
    replace (Z.succ (Z.pos (digits2_pos p)) - 1)
      with (Z.succ (Z.pos (digits2_pos p) - 1)) by lia.
    rewrite !Z.pow_succ_r by lia.
    revert IH. generalize (2 ^ (Z.pos (digits2_pos p) - 1)).
    generalize (2 ^ Z.pos (digits2_pos p)). lia.
  - cbn. lia.
Qed.

Lemma digits2_pos_log2 (p : positive) :
  Z.pos (digits2_pos p) = Z.log2 (Z.pos p) + 1.
Proof.
  pose proof (digits2_pos_bounds p) as Hb.
  rewrite (Z.log2_unique (Z.pos p) (Z.pos (digits2_pos p) - 1)); [lia|lia|].
  by replace (Z.succ (Z.pos (digits2_pos p) - 1))
       with (Z.pos (digits2_pos p)) by lia.
Qed.

Lemma iter_xO_mul (m n : positive) :
  Z.pos (Pos.iter xO m n) = Z.pos m * 2 ^ Z.pos n.
Proof.
  induction n as [|n IH] using Pos.peano_ind.
  - cbn. lia.
  - rewrite Pos.iter_succ, Pos2Z.inj_xO, IH, Pos2Z.inj_succ, Z.pow_succ_r by lia.
    lia.
Qed.

Lemma iter_pos_iter {A} (f : A → A) (n : positive) (x : A) :
  SpecFloat.iter_pos f n x = Pos.iter f x n.
Proof.
  revert x. induction n as [n IH|n IH|]; intros x;
    cbn [SpecFloat.iter_pos Pos.iter].
  - by rewrite !IH, <-!Pos.iter_swap.
  - by rewrite !IH.
  - done.
Qed.

(** Shifting out [n] zero bits loses nothing. *)
Lemma shr_zero_bits (q n : positive) :
  SpecFloat.iter_pos shr_1 n
    (Build_shr_record (Z.pos (Pos.iter xO q n)) false false)
  = Build_shr_record (Z.pos q) false false.
Proof.
  rewrite iter_pos_iter.
  induction n as [|n IH] using Pos.peano_ind; [done|].
  rewrite Pos.iter_succ. rewrite Pos.iter_succ, <-Pos.iter_swap.
  cbn [shr_1 orb]. exact IH.
Qed.

Lemma fexp_64 (e : Z) : fexp prec emax e = Z.max (e - 53) (-1074).
Proof. done. Qed.

(** Rounding a mantissa that already fits is the identity. *)
Lemma binary_round_aux_fits (s : bool) (m : positive) (e : Z) :
  Z.max (Z.pos (digits2_pos m) + e - 53) (-1074) ≤ e → e ≤ 971 →
  binary_round_aux prec emax s (Z.pos m) e loc_Exact = S754_finite s m e.
Proof.
  intros Hf He. unfold binary_round_aux, shr_fexp.
  cbn [Zdigits2 shr_record_of_loc]. rewrite fexp_64.
  assert (Hshr : ∀ mrs,
    shr mrs e (Z.max (Z.pos (digits2_pos m) + e - 53) (-1074) - e) = (mrs, e)).
  { intros mrs. unfold shr.
    destruct (Z.max (Z.pos (digits2_pos m) + e - 53) (-1074) - e) eqn:Hd;
      try done. lia. }
  rewrite Hshr.
  cbn [shr_m loc_of_shr_record round_nearest_even Zdigits2 shr_record_of_loc].
  rewrite fexp_64, Hshr. cbn [shr_m].
  unfold prec, emax. replace (1024 - 53) with 971 by done.
  by rewrite (proj2 (Z.leb_le e 971)) by done.
Qed.

(** Rounding a mantissa whose excess bits are all zero drops them. *)
Lemma binary_round_aux_zero_bits (s : bool) (m q n : positive) (e : Z) :
  m = Pos.iter xO q n →
  Z.max (Z.pos (digits2_pos m) + e - 53) (-1074) = e + Z.pos n →
  e + Z.pos n ≤ 971 →
  binary_round_aux prec emax s (Z.pos m) e loc_Exact
  = S754_finite s q (e + Z.pos n).
Proof.
  intros -> Hf He. unfold binary_round_aux, shr_fexp.
  cbn [Zdigits2 shr_record_of_loc]. rewrite fexp_64, Hf.
  replace (e + Z.pos n - e) with (Z.pos n) by lia. cbn [shr].
  rewrite shr_zero_bits.
  cbn [shr_m loc_of_shr_record round_nearest_even Zdigits2 shr_record_of_loc].
  assert (Hd : Z.pos (digits2_pos q) + (e + Z.pos n)
               = Z.pos (digits2_pos (Pos.iter xO q n)) + e).
  { rewrite !digits2_pos_log2, iter_xO_mul, Z.log2_mul_pow2 by lia. lia. }
  rewrite fexp_64, Hd, Hf, Z.sub_diag. cbn [shr shr_m].
  unfold prec, emax. replace (1024 - 53) with 971 by done.
  by rewrite (proj2 (Z.leb_le _ 971)) by done.
Qed.

(** An int below 2^53 in absolute value is a double. *)
Lemma binary_normalize_small (z : Z) :
  z ≠ 0 → Z.abs z < 2 ^ 53 →
  ∃ m e, binary_normalize prec emax z 0 false = S754_finite (z <? 0) m e ∧
         e = Z.log2 (Z.abs z) - 52 ∧ Z.pos m = Z.abs z * 2 ^ (- e).
Proof.
  intros Hz Hlt.
  assert (Hround : ∀ (s : bool) (p : positive), Z.pos p < 2 ^ 53 →
    ∃ m e, binary_round prec emax s p 0 = S754_finite s m e ∧
           e = Z.log2 (Z.pos p) - 52 ∧ Z.pos m = Z.pos p * 2 ^ (- e)).
  { intros s p Hp. unfold binary_round. rewrite fexp_64.
    assert (Hd : Z.log2 (Z.pos p) < 53) by (apply Z.log2_lt_pow2; lia).
    pose proof (Z.log2_nonneg (Z.pos p)) as Hd0.
    rewrite Z.add_0_r, digits2_pos_log2.
    rewrite Z.max_l by lia. unfold shl_align.
    destruct (Z.log2 (Z.pos p) + 1 - 53 - 0) as [|k|k] eqn:Hk; [|lia|].
    - exists p, 0. split; [|split; [lia|cbn; lia]].
      apply binary_round_aux_fits; [|lia].
      rewrite digits2_pos_log2. lia.
    - exists (Pos.iter xO p k), (Z.log2 (Z.pos p) + 1 - 53).
      split; [|split; [lia|]].
      + apply binary_round_aux_fits; [|lia].
        rewrite digits2_pos_log2, iter_xO_mul, Z.log2_mul_pow2 by lia. lia.
      + rewrite iter_xO_mul. f_equal. f_equal. lia. }
  destruct z as [|p|p]; [done| |]; cbn [binary_normalize Z.abs] in *.
  - exact (Hround false p Hlt).
  - exact (Hround true p Hlt).
Qed.

(** For a base [b] with [3 * |b| < 2^53] the product with 1.5 is a double,
    and its floor is the exact floor. *)
Lemma float_floor_times_1_5_exact (base_damage : Z) :
  3 * Z.abs base_damage < 2 ^ 53 →
  float_floor_times_1_5 base_damage = Ok (floor_times_1_5 base_damage).
Proof.
  intros Hb. rewrite floor_times_1_5_div.
  unfold float_floor_times_1_5, float_of_int.
  destruct (decide (base_damage = 0)) as [->|Hz]; [done|].
  destruct (binary_normalize_small base_damage Hz ltac:(lia))
    as (m & e & -> & He & Hm).
  cbn [mbind res_bind]. unfold fmul, float_1_5. cbn [SFmul].
  set (z := Z.abs base_damage) in *.
  assert (Hz0 : 0 < z) by (unfold z; lia).
  set (D := Z.log2 (3 * z) + 1).
  assert (HD : Z.log2 z + 2 ≤ D ≤ 53).
  { unfold D. split.
    - pose proof (Z.log2_double z Hz0) as Hdbl.
      pose proof (Z.log2_le_mono (2 * z) (3 * z) ltac:(lia)). lia.
    - assert (Z.log2 (3 * z) < 53); [|lia]. apply Z.log2_lt_pow2; lia. }
  pose proof (Z.log2_nonneg z) as Hl0.
  set (n := D - 2 - e).
  assert (Hn : 0 < n) by (unfold n; lia).
  set (q := 3 * z * 2 ^ (53 - D)).
  assert (Hq : 0 < q).
  { unfold q. apply Z.mul_pos_pos; [lia|apply Z.pow_pos_nonneg; lia]. }
  assert (Hprod : Z.pos (m * 6755399441055744) = q * 2 ^ n).
  { rewrite Pos2Z.inj_mul, Hm. unfold q.
    change (Z.pos 6755399441055744) with (3 * 2 ^ 51).
    replace (z * 2 ^ (- e) * (3 * 2 ^ 51))
      with (3 * z * (2 ^ (- e) * 2 ^ 51)) by ring.
    rewrite <-(Z.mul_assoc (3 * z)), <-!Z.pow_add_r by lia.
    f_equal. f_equal. unfold n. lia. }
  rewrite (binary_round_aux_zero_bits _ _ (Z.to_pos q) (Z.to_pos n)).
  - cbn [math_floor]. f_equal. rewrite Z2Pos.id by done.
    replace (e + -52 + Z.pos (Z.to_pos n)) with (- (54 - D))
      by (rewrite Z2Pos.id by done; unfold n; lia).
    rewrite Z.shiftl_opp_r, Z.shiftr_div_pow2 by lia.
    replace (2 ^ (54 - D)) with (2 * 2 ^ (53 - D))
      by (rewrite <-Z.pow_succ_r by lia; f_equal; lia).
    replace (cond_Zopp (xorb (base_damage <? 0) false) q)
      with (3 * base_damage * 2 ^ (53 - D)).
    + rewrite Z.div_mul_cancel_r; [done|lia|]. apply Z.pow_nonzero; lia.
    + rewrite xorb_false_r. unfold q, z, cond_Zopp.
      destruct (Z.ltb_spec base_damage 0); lia.
  - apply Pos2Z.inj. rewrite iter_xO_mul, !Z2Pos.id by done. exact Hprod.
  - rewrite digits2_pos_log2, Hprod, Z.log2_mul_pow2 by lia.
    unfold q. rewrite Z.log2_mul_pow2 by lia. rewrite Z2Pos.id by done.
    unfold n. fold D. lia.
  - rewrite Z2Pos.id by done. unfold n. lia.
Qed.

(** Rounding never yields a NaN. *)
Lemma shr_1_nonneg (mrs : shr_record) : 0 ≤ shr_m mrs → 0 ≤ shr_m (shr_1 mrs).
Proof. destruct mrs as [[|[p|p|]|p] r s]; cbn; lia. Qed.

Lemma shr_nonneg (mrs : shr_record) (e n : Z) :
  0 ≤ shr_m mrs → 0 ≤ shr_m (shr mrs e n).1.
Proof.
  intros Hm. unfold shr. destruct n as [|p|p]; cbn [fst]; [done| |done].
  rewrite iter_pos_iter. apply Pos.iter_invariant; [|done].
  intros x. apply shr_1_nonneg.
Qed.

Lemma shr_record_of_loc_m (m : Z) (l : location) :
  shr_m (shr_record_of_loc m l) = m.
Proof. by destruct l as [|[]]. Qed.

Lemma round_nearest_even_nonneg (m : Z) (l : location) :
  0 ≤ m → 0 ≤ round_nearest_even m l.
Proof.
  intros Hm. destruct l as [|[]]; cbn; try lia. destruct (Z.even m); lia.
Qed.

Lemma binary_round_aux_not_nan (s : bool) (m e : Z) (l : location) :
  0 ≤ m → binary_round_aux prec emax s m e l ≠ S754_nan.
Proof.
  intros Hm. unfold binary_round_aux, shr_fexp.
  pose proof (shr_nonneg (shr_record_of_loc m l) e
                (fexp prec emax (Zdigits2 m + e) - e)) as H1.
  rewrite shr_record_of_loc_m in H1. specialize (H1 Hm).
  destruct (shr (shr_record_of_loc m l) e _) as [mrs' e']. cbn [fst] in H1.
  set (m' := round_nearest_even (shr_m mrs') (loc_of_shr_record mrs')).
  pose proof (round_nearest_even_nonneg (shr_m mrs') (loc_of_shr_record mrs') H1)
    as H2. fold m' in H2.
  pose proof (shr_nonneg (shr_record_of_loc m' loc_Exact) e'
                (fexp prec emax (Zdigits2 m' + e') - e')) as H3.
  rewrite shr_record_of_loc_m in H3. specialize (H3 H2).
  destruct (shr (shr_record_of_loc m' loc_Exact) e' _) as [mrs'' e''].
  cbn [fst] in H3. destruct (shr_m mrs'') as [|p|p]; [done| |lia].
  by destruct (e'' <=? emax - prec).
Qed.

Lemma binary_normalize_not_nan (z : Z) :
  binary_normalize prec emax z 0 false ≠ S754_nan.
Proof.
  destruct z as [|p|p]; cbn [binary_normalize]; [done|..];
    unfold binary_round; destruct (shl_align _ _ _) as [mz ez];
    by apply binary_round_aux_not_nan.
Qed.

(** [math.floor(base_damage * 1.5)] returns or raises [OverflowError]. *)
Lemma float_floor_times_1_5_outcome (base_damage : Z) :
  match float_floor_times_1_5 base_damage with
  | Ok _ => True
  | Raise e => e = OverflowError
  | OutOfFuel => False
  end.
Proof.
  unfold float_floor_times_1_5, float_of_int.
  pose proof (binary_normalize_not_nan base_damage) as Hn.
  destruct (binary_normalize prec emax base_damage 0 false) as [s|s| |s m e];
    cbn [mbind res_bind]; [done|done|done|].
  unfold fmul, float_1_5. cbn [SFmul].
  pose proof (binary_round_aux_not_nan (xorb s false)
                (Z.pos (m * 6755399441055744)) (e + -52) loc_Exact ltac:(lia))
    as Hp.
  by destruct (binary_round_aux _ _ _ _ _ _).
Qed.

(** The doubles round the product: 3002399751580333 × 1.5 is not a double,
    and beyond the range of the doubles the conversion fails. *)
Lemma float_floor_times_1_5_rounds :
  float_floor_times_1_5 3002399751580333 = Ok 4503599627370500 ∧
  floor_times_1_5 3002399751580333 = 4503599627370499 ∧
  float_floor_times_1_5 (10 ^ 400) = Raise OverflowError.
Proof. by vm_compute. Qed.

(** *** Equality and zero *)

Lemma feqb_finite (x : float) (s : bool) (m : positive) (e : Z) :
  feqb x (S754_finite s m e) = true → x = S754_finite s m e.
Proof.
  unfold feqb, SFeqb.
  destruct x as [s'|s'| |s' m' e']; cbn [SFcompare]; try done.
  - by destruct s.
  - by destruct s', s.
  - destruct s', s; try done;
      destruct (Z.compare_spec e' e) as [->| |]; try done;
      fold (Pos.compare m' m);
      destruct (Pos.compare_spec m' m) as [->| |]; done.
Qed.

Lemma feqb_refl (x : float) : is_finite x = true → feqb x x = true.
Proof.
  unfold feqb, SFeqb. destruct x as [s|s| |s m e]; cbn [SFcompare is_finite];
    try done.
  rewrite Z.compare_refl, Pos.compare_cont_refl. by destruct s.
Qed.

Lemma fsub_diag (x : float) :
  is_finite x = true → ∃ s, fsub x x = S754_zero s.
Proof.
  destruct x as [s|s| |s m e]; cbn [is_finite]; try done.
  - intros _. unfold fsub. cbn. destruct s; by eexists.
  - intros _. exists false. unfold fsub. cbn [SFsub]. cbv zeta.
    by rewrite Z.sub_diag.
Qed.

(** When the target is the old value, the update stores the old value. *)
Lemma blend_float_fixed_point (old target alpha : float) :
  is_finite old = true → is_finite alpha = true →
  feqb target old = true →
  feqb (fadd old (fmul alpha (fsub target old))) old = true.
Proof.
  intros Ho Ha Heq. destruct old as [so|so| |so mo eo]; try done.
  - assert (Ht : ∃ st, target = S754_zero st).
    { unfold feqb, SFeqb in Heq.
      destruct target as [st|st| |st mt et]; cbn in Heq; try done.
      - by eexists.
      - by destruct st.
      - by destruct st. }
    destruct Ht as [st ->].
    destruct alpha as [sa|sa| |sa ma ea]; try done;
      by destruct st, so, sa.
  - apply feqb_finite in Heq as ->.
    destruct (fsub_diag (S754_finite so mo eo) eq_refl) as [s ->].
    destruct alpha as [sa|sa| |sa ma ea]; try done.
    + cbn. rewrite Z.compare_refl, Pos.compare_cont_refl. by destruct so.
    + cbn. rewrite Z.compare_refl, Pos.compare_cont_refl. by destruct so.
Qed.

Lemma keys_distinct : PLAYS ≠ MOOD_KEY ∧ PLAYS ≠ FOCUS_KEY ∧ FOCUS_KEY ≠ MOOD_KEY.
Proof. by repeat split. Qed.

(** ** Cost resolution *)

Lemma apply_cost_bypass (c : Card) (gs : GameState) :
  bypass_spirit c = true →
  apply_cost c gs =
    (set_vitality (vitality gs - cost c) gs, ["消耗体力 " +:+ fmt (cost c)]).
Proof. intros H. unfold apply_cost. by rewrite H. Qed.

(** C5, as amended: for a non-negative cost on a state whose spirit is not
    negative, a card that does not bypass spirit leaves spirit at
    max(s−c, 0) and takes max(c−s, 0) from vitality; a card that bypasses
    spirit leaves spirit alone and takes c from vitality, with no floor.
    The effects are resolved on the state the cost step leaves. *)
Theorem cost_resolution (c : Card) (gs : GameState) :
  0 ≤ cost c → 0 ≤ spirit gs →
  cost_formula c gs ∧
  (∀ gs1 logs, apply_cost c gs = (gs1, logs) →
     apply_effects c gs = run_effects (effects c) gs1 logs).
Proof.
  intros Hc Hs. split; [split|].
  - intros Hb. unfold apply_cost. rewrite Hb.
    case_bool_decide as H1; simpl.
    + case_bool_decide as H2; simpl; lia.
    + case_bool_decide as H2; simpl; lia.
  - intros Hb. rewrite apply_cost_bypass by done. simpl. done.
  - intros gs1 logs H. unfold apply_effects. by rewrite H.
Qed.

Lemma cost_resolution_witness :
  cost_formula plain_card fresh_state ∧
  (∀ gs1 logs, apply_cost plain_card fresh_state = (gs1, logs) →
     apply_effects plain_card fresh_state =
       run_effects (effects plain_card) gs1 logs).
Proof. apply cost_resolution; simpl; lia. Defined.

(** Vitality has no floor: a bypassing card of cost 8 on 5 vitality leaves
    −3. *)
Example vitality_goes_negative :
  vitality (apply_cost (obj base_heap 7%nat) (set_vitality 5 fresh_state)).1 = -3.
Proof. reflexivity. Qed.

(** C5, as stated, fails once spirit is negative, which a spirit effect of
    magnitude −1 brings about: the cost step then leaves spirit at −1, not
    at max(−1−2, 0) = 0. *)
Lemma cost_resolution_negative_spirit :
  (∃ logs, apply_effects drain_card fresh_state =
             Ok (set_spirit (-1) fresh_state, logs)) ∧
  spirit (apply_cost plain_card (set_spirit (-1) fresh_state)).1 = -1 ∧
  ¬ cost_formula plain_card (set_spirit (-1) fresh_state).
Proof.
  split; [|split].
  - eexists. reflexivity.
  - reflexivity.
  - intros [H _]. destruct (H eq_refl) as [H1 _]. vm_compute in H1. discriminate.
Qed.

(** ** Damage *)

(** In the range where the product with 1.5 is a double, the damage branch
    computes what the exact arithmetic gives. *)
Lemma apply_effect_float_exact (e : Effect) (gs : GameState) :
  (type e = DAMAGE → dict_get (buffs gs) MOOD_KEY 0 > 0 →
   3 * Z.abs (value e + dict_get (buffs gs) FOCUS_KEY 0) < 2 ^ 53) →
  apply_effect_float e gs = apply_effect e gs.
Proof.
  intros Hb. destruct e as [t v b]. destruct t; try done.
  unfold apply_effect_float, apply_effect. cbn [type value] in *.
  case_bool_decide as Hm; [|done].
  by rewrite float_floor_times_1_5_exact by auto.
Qed.

(** C6, as amended: a damage effect of magnitude d adds d+f to the score
    when the mood buff m is 0 or less, f being the focus buff, and
    floor((d+f)×1.5) when m is positive and 3·|d+f| < 2^53, the range in
    which the product is a double; the buffs, mood among them, are left as
    they were. In that range the exact arithmetic of [apply_effect] gives
    the same state and the same log entry. *)
Theorem damage_scores_with_focus_and_mood (d : Z) (b : bool) (gs : GameState) :
  let f := dict_get (buffs gs) FOCUS_KEY 0 in
  let m := dict_get (buffs gs) MOOD_KEY 0 in
  (m > 0 → 3 * Z.abs (d + f) < 2 ^ 53) →
  ∃ gs' entry,
    apply_effect_float (mkEffect DAMAGE d b) gs = Ok (gs', [entry]) ∧
    apply_effect (mkEffect DAMAGE d b) gs = Ok (gs', [entry]) ∧
    score gs' = score gs + (if bool_decide (m > 0)
                            then Qfloor (inject_Z (d + f) * (3 # 2))
                            else d + f) ∧
    buffs gs' = buffs gs ∧ new_buffs gs' = new_buffs gs.
Proof.
  intros f m Hb.
  rewrite (apply_effect_float_exact (mkEffect DAMAGE d b) gs) by (intros _; exact Hb).
  unfold apply_effect. cbn [type value]. fold f. fold m.
  case_bool_decide; eexists _, _; (split; [reflexivity|]); done.
Qed.

Lemma damage_scores_with_focus_and_mood_witness :
  ∃ gs' entry,
    apply_effect_float (mkEffect DAMAGE 9 false) focused_mood_state
      = Ok (gs', [entry]) ∧
    apply_effect (mkEffect DAMAGE 9 false) focused_mood_state
      = Ok (gs', [entry]) ∧
    score gs' = score focused_mood_state +
      (if bool_decide (dict_get (buffs focused_mood_state) MOOD_KEY 0 > 0)
       then Qfloor (inject_Z (9 + dict_get (buffs focused_mood_state) FOCUS_KEY 0)
                    * (3 # 2))
       else 9 + dict_get (buffs focused_mood_state) FOCUS_KEY 0) ∧
    buffs gs' = buffs focused_mood_state ∧
    new_buffs gs' = new_buffs focused_mood_state.
Proof.
  apply (damage_scores_with_focus_and_mood 9 false focused_mood_state).
  intros _. vm_compute. reflexivity.
Defined.

(** C6, as stated, fails for a large base: under a positive mood a damage
    effect of 3002399751580333 scores 4503599627370500, the double nearest
    to the product, and not its floor 4503599627370499; a damage effect
    beyond the range of the doubles raises [OverflowError]. *)
Lemma large_damage_is_rounded :
  dict_get (buffs old_mood_state) MOOD_KEY 0 > 0 ∧
  dict_get (buffs old_mood_state) FOCUS_KEY 0 = 0 ∧
  (∃ gs' entry,
     apply_effect_float (mkEffect DAMAGE 3002399751580333 false) old_mood_state
       = Ok (gs', [entry]) ∧
     score gs' = score old_mood_state + 4503599627370500) ∧
  Qfloor (inject_Z (3002399751580333 + 0) * (3 # 2)) = 4503599627370499 ∧
  ¬ damage_formula 3002399751580333 false old_mood_state ∧
  apply_effect_float (mkEffect DAMAGE (10 ^ 400) false) old_mood_state
    = Raise OverflowError.
Proof.
  split; [by vm_compute|]. split; [by vm_compute|].
  split; [eexists _, _; split; vm_compute; reflexivity|].
  split; [by vm_compute|]. split; [|by vm_compute].
  intros (gs' & entry & He & Hs & _). vm_compute in He.
  injection He as <- _. vm_compute in Hs. discriminate.
Qed.

(** The example of the specification: d=9, f=2, m=3 scores 16. *)
Example damage_9_focus_2_mood_3 (gs : GameState) :
  buffs gs = <[MOOD_KEY := 3]> (<[FOCUS_KEY := 2]> ∅) →
  ∃ gs' entry,
    apply_effect_float (mkEffect DAMAGE 9 false) gs = Ok (gs', [entry]) ∧
    score gs' = score gs + 16.
Proof.
  intros Hb. unfold apply_effect_float. cbn [type value]. rewrite Hb.
  eexists _, _. split; reflexivity.
Qed.

(** ** Effects of kind DRAW *)

Lemma run_effects_without_draw (es : list Effect) :
  ∀ gs entries,
    run_effects es gs entries =
    run_effects (filter (λ e, type e ≠ DRAW) es) gs entries.
Proof.
  induction es as [|e es IH]; intros gs entries; [done|].
  rewrite filter_cons. case_decide as Ht.
  - cbn [run_effects]. destruct (apply_effect e gs) as [[gs1 l1]| |]; [|done..].
    cbn [mbind res_bind]. apply IH.
  - cbn [run_effects]. unfold apply_effect at 1.
    rewrite Ht. cbn [mbind res_bind]. rewrite app_nil_r. apply IH.
Qed.

(** C10: an effect dict of kind "抽牌" builds a [DRAW] effect; resolving a
    [DRAW] effect returns the state as it was and no log entry; so a card
    resolves exactly as it does with its [DRAW] effects removed. *)
Theorem draw_effect_is_ignored :
  (∀ v, build_effects [eff "抽牌" v] = Ok [mkEffect DRAW v false]) ∧
  (∀ v b gs, apply_effect (mkEffect DRAW v b) gs = Ok (gs, [])) ∧
  (∀ c gs, apply_effects c gs = apply_effects (without_draw c) gs).
Proof.
  split; [done|]. split; [done|].
  intros c gs. unfold apply_effects.
  change (apply_cost (without_draw c) gs) with (apply_cost c gs).
  destruct (apply_cost c gs) as [gs1 logs]. apply run_effects_without_draw.
Qed.

(** ** Piles and draws *)

Lemma piles_moved_refl s : piles_moved s s.
Proof. unfold piles_moved. by destruct s. Qed.

Lemma piles_moved_trans s1 s2 s3 :
  piles_moved s1 s2 → piles_moved s2 s3 → piles_moved s1 s3.
Proof.
  unfold piles_moved. intros H1 H2. rewrite H2. rewrite H1.
  by destruct s1.
Qed.

Lemma piles_moved_buffs s s' :
  piles_moved s s' → buffs s' = buffs s ∧ new_buffs s' = new_buffs s.
Proof. unfold piles_moved. intros ->. done. Qed.

Lemma list_pop_snoc {A} (l : list A) (a : A) : list_pop (l ++ [a]) = Ok (a, l).
Proof.
  unfold list_pop. rewrite reverse_app. simpl. by rewrite reverse_involutive.
Qed.

Lemma list_pop_nonempty {A} (l : list A) :
  l ≠ [] → ∃ a rest, l = rest ++ [a] ∧ list_pop l = Ok (a, rest).
Proof.
  intros Hl. induction l as [|x l IH] using rev_ind; [done|].
  exists x, l. split; [done|]. apply list_pop_snoc.
Qed.

Lemma swap_Permutation {A} (i j : nat) (x : list A) : swap i j x ≡ₚ x.
Proof.
  unfold swap. destruct (x !! i) eqn:Hi, (x !! j) eqn:Hj; try done.
  by apply Permutation_insert_swap.
Qed.

Lemma shuffle_from_Permutation {A} (n : nat) :
  ∀ (x : list A) (g : Rng), (shuffle_from n x g).1 ≡ₚ x.
Proof.
  induction n as [|n IH]; intros x g; simpl; [done|].
  rewrite IH. apply swap_Permutation.
Qed.

(** [random.shuffle] rearranges the list and does nothing else. *)
Lemma random_shuffle_Permutation {A} (x : list A) (g : Rng) :
  (random_shuffle x g).1 ≡ₚ x.
Proof. apply shuffle_from_Permutation. Qed.

(** Drawing with a full hand and a card to draw does nothing, however many
    cards are asked for. *)
Lemma draw_loop_at_cap (n : nat) (gs : GameState) (g : Rng) :
  max_hand_size gs ≤ Z.of_nat (length (hand gs)) → draw_pile gs ≠ [] →
  draw_loop n gs g = Ok (gs, g).
Proof.
  intros Hfull Hdraw. induction n as [|n IH]; [done|]. cbn [draw_loop].
  rewrite bool_decide_eq_false_2; [|by destruct (draw_pile gs)].
  rewrite bool_decide_eq_false_2; [done | lia].
Qed.

(** C2, as amended: when the hand holds [max_hand_size] cards and the draw
    pile is not empty, drawing one card is blocked: the draw pile, the hand,
    the rest of the state and the random source are left as they were. *)
Theorem draw_at_cap_is_blocked (gs : GameState) (g : Rng) :
  Z.of_nat (length (hand gs)) = max_hand_size gs → draw_pile gs ≠ [] →
  draw_cards 1 gs g = Ok (gs, g).
Proof. intros Hfull Hdraw. apply draw_loop_at_cap; [lia|done]. Qed.

Lemma draw_at_cap_is_blocked_witness :
  draw_cards 1 full_hand_state rng_ones = Ok (full_hand_state, rng_ones).
Proof. apply draw_at_cap_is_blocked; [reflexivity | discriminate]. Defined.

(** C2, as stated, fails: with five cards in a hand of at most five and the
    draw pile [2; 3], the draw pile is still [2; 3] after the draw. *)
Lemma draw_at_cap_keeps_pile :
  (∃ gs' g', draw_cards 1 full_hand_state rng_ones = Ok (gs', g') ∧
             draw_pile gs' = [2; 3]%nat) ∧
  ¬ draw_silently_capped full_hand_state rng_ones.
Proof.
  split; [by eexists _, _|].
  intros H. destruct H as (gs' & g' & top & rest & Hd & Hp & Hp' & _);
    [reflexivity | discriminate |].
  unfold draw_cards in Hd. rewrite draw_loop_at_cap in Hd; [|done..].
  injection Hd as <- <-. rewrite Hp' in Hp.
  apply (f_equal length) in Hp. rewrite length_app in Hp. simpl in Hp. lia.
Qed.

(** A draw never raises; it only moves cards between the three piles, and
    the hand grows by at most the number asked for. *)
Lemma draw_loop_ok (n : nat) :
  ∀ (s : GameState) (g : Rng),
    ∃ s' g', draw_loop n s g = Ok (s', g') ∧ piles_moved s s' ∧
             all_cards s' ≡ₚ all_cards s ∧
             (length (hand s') ≤ length (hand s) + n)%nat.
Proof.
  induction n as [|n IH]; intros s g.
  { exists s, g. split; [done|]. split; [apply piles_moved_refl|]. split; [done|lia]. }
  assert (Htail : ∀ s1 g1, draw_pile s1 ≠ [] → piles_moved s s1 →
            all_cards s1 ≡ₚ all_cards s → hand s1 = hand s →
            ∃ s' g',
              (if bool_decide (Z.of_nat (length (hand s1)) < max_hand_size s1)
               then '(card, rest) ← list_pop (draw_pile s1);
                    draw_loop n (set_hand (hand s1 ++ [card])
                                          (set_draw_pile rest s1)) g1
               else draw_loop n s1 g1) = Ok (s', g') ∧ piles_moved s s' ∧
              all_cards s' ≡ₚ all_cards s ∧
              (length (hand s') ≤ length (hand s) + S n)%nat).
  { intros s1 g1 Hne Hmv Hperm Hhand. case_bool_decide as Hcap.
    - destruct (list_pop_nonempty _ Hne) as (a & rest & Hdp & ->). simpl.
      destruct (IH (set_hand (hand s1 ++ [a]) (set_draw_pile rest s1)) g1)
        as (s' & g' & -> & Hmv' & Hperm' & Hlen').
      exists s', g'. split; [done|]. split; [|split].
      + eapply piles_moved_trans; [exact Hmv|].
        eapply piles_moved_trans; [|exact Hmv']. unfold piles_moved. by destruct s1.
      + rewrite Hperm', <-Hperm. unfold all_cards. simpl. rewrite Hdp.
        rewrite <-!(assoc_L (++)). f_equiv. simpl.
        apply Permutation_middle.
      + simpl in Hlen'. rewrite length_app, Hhand in Hlen'. simpl in Hlen'. lia.
    - destruct (IH s1 g1) as (s' & g' & -> & Hmv' & Hperm' & Hlen').
      exists s', g'. split; [done|]. split; [|split].
      + by eapply piles_moved_trans.
      + by rewrite Hperm'.
      + rewrite Hhand in Hlen'. lia. }
  cbn [draw_loop]. case_bool_decide as Hdraw.
  - case_bool_decide as Hdisc.
    + exists s, g. split; [done|]. split; [apply piles_moved_refl|]. split; [done|lia].
    + destruct (random_shuffle (discard_pile s) g) as [pile g1] eqn:Hsh.
      pose proof (random_shuffle_Permutation (discard_pile s) g) as Hp.
      rewrite Hsh in Hp. simpl in Hp.
      apply Htail.
      * simpl. intros ->. apply Permutation_nil_l in Hp.
        by rewrite <-Hp in Hdisc.
      * unfold piles_moved. by destruct s.
      * unfold all_cards. simpl. rewrite Hp.
        apply nil_length_inv in Hdraw. rewrite Hdraw. simpl.
        by rewrite app_nil_r.
      * done.
  - apply Htail; [|apply piles_moved_refl|done|done].
    intros Hnil. by rewrite Hnil in Hdraw.
Qed.

Lemma draw_cards_ok (count : Z) (s : GameState) (g : Rng) :
  ∃ s' g', draw_cards count s g = Ok (s', g') ∧ piles_moved s s' ∧
           all_cards s' ≡ₚ all_cards s ∧
           (length (hand s') ≤ length (hand s) + Z.to_nat count)%nat.
Proof. apply draw_loop_ok. Qed.

(** ** TURN_START *)

Lemma begin_turn_new (s : GameState) (m : Z) :
  buffs s !! MOOD_KEY = Some m → m > 0 → new_buffs s !! MOOD_KEY = Some true →
  begin_turn s = set_buffs (<[PLAYS := 1]> (buffs s))
                   (set_new_buffs (<[MOOD_KEY := false]> (new_buffs s)) s).
Proof.
  intros Hm Hpos Hb. unfold begin_turn, dict_get. rewrite Hm, Hb. simpl.
  by rewrite bool_decide_eq_true_2.
Qed.

Lemma begin_turn_old (s : GameState) (m : Z) :
  buffs s !! MOOD_KEY = Some m → m > 0 → new_buffs s !! MOOD_KEY = Some false →
  begin_turn s = set_buffs (<[PLAYS := 1]> (<[MOOD_KEY := m - 1]> (buffs s)))
                   (set_buffs (<[MOOD_KEY := m - 1]> (buffs s)) s).
Proof.
  intros Hm Hpos Hb. unfold begin_turn, dict_get. rewrite Hm, Hb. simpl.
  by rewrite bool_decide_eq_true_2.
Qed.

Lemma begin_turn_none (s : GameState) (m : Z) :
  buffs s !! MOOD_KEY = Some m → ¬ m > 0 →
  begin_turn s = set_buffs (<[PLAYS := 1]> (buffs s)) s.
Proof.
  intros Hm Hpos. unfold begin_turn, dict_get. rewrite Hm. simpl.
  by rewrite bool_decide_eq_false_2.
Qed.

Lemma begin_turn_piles (s : GameState) :
  hand (begin_turn s) = hand s ∧ all_cards (begin_turn s) = all_cards s.
Proof.
  unfold begin_turn.
  destruct (bool_decide _); [destruct (dict_get (new_buffs s) _ _)|]; done.
Qed.

(** TURN_START returns once the mood entry is there (and the "new" mark when
    mood is positive): it is the buff bookkeeping followed by a draw. *)
Lemma handle_phase_start_ok (s : GameState) (g : Rng) (m : Z) :
  buffs s !! MOOD_KEY = Some m →
  (m > 0 → is_Some (new_buffs s !! MOOD_KEY)) →
  ∃ s' entries g',
    handle_phase_start s g = Ok (s', entries, g') ∧
    piles_moved (begin_turn s) s' ∧
    all_cards s' ≡ₚ all_cards s ∧
    (length (hand s') ≤ length (hand s) + 3)%nat.
Proof.
  intros Hm Hnew.
  destruct (draw_cards_ok 3 (begin_turn s) g) as (s' & g' & Hd & Hmv & Hperm & Hlen).
  destruct (begin_turn_piles s) as (Hh & Hall). rewrite Hh, Hall in *.
  exists s'. unfold handle_phase_start, getitem. rewrite Hm.
  cbn [mbind res_bind]. case_bool_decide as Hpos.
  - destruct (Hnew Hpos) as [b Hb]. rewrite Hb. cbn [mbind res_bind].
    destruct b; cbn [mbind res_bind buffs set_new_buffs set_buffs].
    + rewrite (begin_turn_new s m) in Hd by done. rewrite Hd.
      cbn [mbind res_bind]. eauto 10.
    + rewrite (begin_turn_old s m) in Hd by done. rewrite Hd.
      cbn [mbind res_bind]. eauto 10.
  - rewrite (begin_turn_none s m) in Hd by done.
    cbn [mbind res_bind buffs set_new_buffs set_buffs]. rewrite Hd.
    cbn [mbind res_bind]. eauto 10.
Qed.

Lemma turn_start_new_mood (gs : GameState) (g : Rng) (m : Z) :
  buffs gs !! MOOD_KEY = Some m → m > 0 →
  new_buffs gs !! MOOD_KEY = Some true →
  ∃ gs' entries g',
    handle_phase_start gs g = Ok (gs', entries, g') ∧
    buffs gs' !! MOOD_KEY = Some m ∧
    new_buffs gs' !! MOOD_KEY = Some false ∧
    buffs gs' !! PLAYS = Some 1.
Proof.
  intros Hm Hpos Hnew.
  destruct (handle_phase_start_ok gs g m Hm) as (gs' & entries & g' & Hr & Hmv & _);
    [by rewrite Hnew|].
  exists gs', entries, g'. split; [done|].
  apply piles_moved_buffs in Hmv as [-> ->].
  rewrite (begin_turn_new gs m) by done. cbn [buffs new_buffs set_buffs set_new_buffs].
  destruct keys_distinct as (? & ? & ?).
  by rewrite lookup_insert_ne, !lookup_insert_eq.
Qed.

Lemma turn_start_old_mood (gs : GameState) (g : Rng) (m : Z) :
  buffs gs !! MOOD_KEY = Some m → m > 0 →
  new_buffs gs !! MOOD_KEY = Some false →
  ∃ gs' entries g',
    handle_phase_start gs g = Ok (gs', entries, g') ∧
    buffs gs' !! MOOD_KEY = Some (m - 1) ∧
    new_buffs gs' !! MOOD_KEY = Some false ∧
    buffs gs' !! PLAYS = Some 1.
Proof.
  intros Hm Hpos Hnew.
  destruct (handle_phase_start_ok gs g m Hm) as (gs' & entries & g' & Hr & Hmv & _);
    [by rewrite Hnew|].
  exists gs', entries, g'. split; [done|].
  apply piles_moved_buffs in Hmv as [-> ->].
  rewrite (begin_turn_old gs m) by done. cbn [buffs new_buffs set_buffs set_new_buffs].
  destruct keys_distinct as (? & ? & ?).
  by rewrite lookup_insert_ne, !lookup_insert_eq.
Qed.

Lemma turn_start_no_mood (gs : GameState) (g : Rng) (m : Z) :
  buffs gs !! MOOD_KEY = Some m → ¬ m > 0 →
  ∃ gs' entries g',
    handle_phase_start gs g = Ok (gs', entries, g') ∧
    buffs gs' !! MOOD_KEY = Some m ∧
    new_buffs gs' = new_buffs gs ∧
    buffs gs' !! PLAYS = Some 1.
Proof.
  intros Hm Hpos.
  destruct (handle_phase_start_ok gs g m Hm) as (gs' & entries & g' & Hr & Hmv & _);
    [done|].
  exists gs', entries, g'. split; [done|].
  apply piles_moved_buffs in Hmv as [-> ->].
  rewrite (begin_turn_none gs m) by done. cbn [buffs new_buffs set_buffs set_new_buffs].
  destruct keys_distinct as (? & ? & ?).
  by rewrite lookup_insert_ne, !lookup_insert_eq.
Qed.

(** With the mark cleared, [k] TURN_STARTs in a row take mood down by one
    each, stopping at 0. *)
Lemma turn_starts_decay (k : nat) :
  ∀ (gs : GameState) (g : Rng) (m : Z),
    buffs gs !! MOOD_KEY = Some m → 0 ≤ m →
    new_buffs gs !! MOOD_KEY = Some false →
    ∃ gs' g',
      turn_starts k gs g = Ok (gs', g') ∧
      buffs gs' !! MOOD_KEY = Some (Z.max (m - Z.of_nat k) 0) ∧
      new_buffs gs' !! MOOD_KEY = Some false.
Proof.
  induction k as [|k IH]; intros gs g m Hm Hpos Hnew.
  { exists gs, g. split; [done|]. split; [|done]. rewrite Hm. f_equal. lia. }
  cbn [turn_starts]. destruct (decide (m > 0)) as [Hgt|Hle].
  - destruct (turn_start_old_mood gs g m Hm Hgt Hnew)
      as (gs1 & entries & g1 & -> & Hm1 & Hnew1 & _).
    cbn [mbind res_bind].
    destruct (IH gs1 g1 (m - 1) Hm1 ltac:(lia) Hnew1) as (gs' & g' & -> & Hm' & Hnew').
    exists gs', g'. split; [done|]. split; [|done]. rewrite Hm'. f_equal. lia.
  - destruct (turn_start_no_mood gs g m Hm Hle)
      as (gs1 & entries & g1 & -> & Hm1 & Hnew1 & _).
    cbn [mbind res_bind]. rewrite <-Hnew1 in Hnew.
    destruct (IH gs1 g1 m Hm1 Hpos Hnew) as (gs' & g' & -> & Hm' & Hnew').
    exists gs', g'. split; [done|]. split; [|done]. rewrite Hm'. f_equal. lia.
Qed.

(** C7: (1) a mood gain that takes the buff from exactly 0 to a positive
    value sets the "new" mark; (2) a TURN_START with positive mood and the
    mark set clears the mark and leaves mood as it is; (3) a TURN_START with
    positive mood and no mark takes exactly 1 from mood; both reset the
    remaining plays to 1; (4) so after a fresh gain of m, k+1 TURN_STARTs in
    a row leave mood at max(m−k, 0): one skipped decay, then one per turn. *)
Theorem new_mood_skips_one_decay :
  (∀ v b gs, dict_get (buffs gs) MOOD_KEY 0 = 0 → v > 0 →
     ∃ gs' entry,
       apply_effect (mkEffect MOOD v b) gs = Ok (gs', [entry]) ∧
       buffs gs' !! MOOD_KEY = Some v ∧
       new_buffs gs' !! MOOD_KEY = Some true) ∧
  (∀ gs g m, buffs gs !! MOOD_KEY = Some m → m > 0 →
     new_buffs gs !! MOOD_KEY = Some true →
     ∃ gs' entries g',
       handle_phase_start gs g = Ok (gs', entries, g') ∧
       buffs gs' !! MOOD_KEY = Some m ∧
       new_buffs gs' !! MOOD_KEY = Some false ∧
       buffs gs' !! PLAYS = Some 1) ∧
  (∀ gs g m, buffs gs !! MOOD_KEY = Some m → m > 0 →
     new_buffs gs !! MOOD_KEY = Some false →
     ∃ gs' entries g',
       handle_phase_start gs g = Ok (gs', entries, g') ∧
       buffs gs' !! MOOD_KEY = Some (m - 1) ∧
       new_buffs gs' !! MOOD_KEY = Some false ∧
       buffs gs' !! PLAYS = Some 1) ∧
  (∀ gs g m k, buffs gs !! MOOD_KEY = Some m → m > 0 →
     new_buffs gs !! MOOD_KEY = Some true →
     ∃ gs' g',
       turn_starts (S k) gs g = Ok (gs', g') ∧
       buffs gs' !! MOOD_KEY = Some (Z.max (m - Z.of_nat k) 0) ∧
       new_buffs gs' !! MOOD_KEY = Some false).
Proof.
  split; [|split; [|split]].
  - intros v b gs Hzero Hv. unfold apply_effect. cbn [type value].
    rewrite Hzero. cbn [Z.add]. rewrite !bool_decide_eq_true_2 by done.
    cbn [andb]. eexists _, _. split; [reflexivity|].
    cbn [buffs new_buffs set_buffs set_new_buffs]. by rewrite !lookup_insert_eq.
  - apply turn_start_new_mood.
  - apply turn_start_old_mood.
  - intros gs g m k Hm Hpos Hnew. cbn [turn_starts].
    destruct (turn_start_new_mood gs g m Hm Hpos Hnew)
      as (gs1 & entries & g1 & -> & Hm1 & Hnew1 & _).
    cbn [mbind res_bind]. apply turn_starts_decay; [done|lia|done].
Qed.

Lemma new_mood_skips_one_decay_witness :
  (∃ gs' entry,
     apply_effect (mkEffect MOOD 3 false) fresh_state = Ok (gs', [entry]) ∧
     buffs gs' !! MOOD_KEY = Some 3 ∧ new_buffs gs' !! MOOD_KEY = Some true) ∧
  (∃ gs' entries g',
     handle_phase_start new_mood_state rng_ones = Ok (gs', entries, g') ∧
     buffs gs' !! MOOD_KEY = Some 3 ∧ new_buffs gs' !! MOOD_KEY = Some false ∧
     buffs gs' !! PLAYS = Some 1) ∧
  (∃ gs' entries g',
     handle_phase_start old_mood_state rng_ones = Ok (gs', entries, g') ∧
     buffs gs' !! MOOD_KEY = Some (3 - 1) ∧
     new_buffs gs' !! MOOD_KEY = Some false ∧ buffs gs' !! PLAYS = Some 1) ∧
  (∃ gs' g',
     turn_starts 3 new_mood_state rng_ones = Ok (gs', g') ∧
     buffs gs' !! MOOD_KEY = Some (Z.max (3 - Z.of_nat 2) 0) ∧
     new_buffs gs' !! MOOD_KEY = Some false).
Proof.
  destruct new_mood_skips_one_decay as (Ha & Hb & Hc & Hd).
  split; [|split; [|split]].
  - apply (Ha 3 false fresh_state); [reflexivity | lia].
  - apply (Hb new_mood_state rng_ones 3); [reflexivity | lia | reflexivity].
  - apply (Hc old_mood_state rng_ones 3); [reflexivity | lia | reflexivity].
  - apply (Hd new_mood_state rng_ones 3 2%nat); [reflexivity | lia | reflexivity].
Defined.

(** ** The deck of create_base_deck *)

Lemma add_cards_length (cards : list CardData) :
  ∀ deck h deck' h',
    add_cards cards deck h = Ok (deck', h') →
    length deck' = (length deck + sum_list (copies <$> cards))%nat.
Proof.
  induction cards as [|d cards IH]; intros deck h deck' h' H.
  { injection H as <- <-. simpl. lia. }
  cbn [add_cards] in H.
  destruct (Card_init _ _ _ _ _ _) as [c| |]; [|done..].
  cbn [mbind res_bind alloc] in H. apply IH in H. rewrite H.
  rewrite length_app, length_replicate, fmap_cons.
  cbn [sum_list sum_list_with]. symmetry. apply Nat.add_assoc.
Qed.

(** The deck has as many slots as the counts of the templates add up to. *)
Lemma build_deck_length (cards : list CardData) (h : Heap) deck h' :
  build_deck cards h = Ok (deck, h') →
  length deck = sum_list (copies <$> cards).
Proof. intros H. by apply add_cards_length in H. Qed.

Lemma add_cards_extends (cards : list CardData) :
  ∀ deck h deck' h',
    add_cards cards deck h = Ok (deck', h') → ∃ rest, deck' = deck ++ rest.
Proof.
  induction cards as [|d cards IH]; intros deck h deck' h' H.
  { injection H as <- <-. exists []. by rewrite app_nil_r. }
  cbn [add_cards] in H.
  destruct (Card_init _ _ _ _ _ _) as [c| |]; [|done..].
  cbn [mbind res_bind alloc] in H. apply IH in H as [rest ->].
  eexists. by rewrite <-(assoc_L (++)).
Qed.

(** An entry with a count of two or more puts one reference into several
    slots of the deck. *)
Lemma add_cards_repeats (cards : list CardData) :
  ∀ deck h deck' h',
    add_cards cards deck h = Ok (deck', h') →
    Exists (λ d, (2 ≤ copies d)%nat) cards → ¬ NoDup deck'.
Proof.
  induction cards as [|d cards IH]; intros deck h deck' h' H Hex;
    [by inversion Hex|].
  cbn [add_cards] in H.
  destruct (Card_init _ _ _ _ _ _) as [c| |]; [|done..].
  cbn [mbind res_bind alloc] in H.
  inversion Hex as [? ? Hd|? ? Hex']; subst; [|by eapply IH].
  apply add_cards_extends in H as [rest ->]. fold (copies d).
  destruct (copies d) as [|[|n]]; [lia..|]. cbn [replicate].
  rewrite <-!(assoc_L (++)). intros Hnd.
  apply list.NoDup_app in Hnd as (_ & _ & Hnd).
  apply list.NoDup_app in Hnd as (Hnd & _ & _).
  apply list.NoDup_cons in Hnd as [Hnotin _]. apply Hnotin. left.
Qed.

(** C4 at the shipped card list: the deck has 11 slots, the sum of the
    counts, but slots 0 and 1 (the two copies of "进攻") hold the same
    object, so a [shuffle_random] written through slot 0 is read back
    through slot 1. *)
Theorem base_deck_slots_alias :
  create_base_deck empty_heap = Ok (base_deck, base_heap) ∧
  length base_deck = 11%nat ∧
  sum_list (copies <$> CARDS) = 11%nat ∧
  ∃ r0 r1,
    base_deck !! 0%nat = Some r0 ∧ base_deck !! 1%nat = Some r1 ∧ r0 = r1 ∧
    ∀ x : Qc,
      shuffle_random (obj (modify r0 (set_shuffle_random x) base_heap) r1) = x.
Proof. repeat split. exists 0%nat, 0%nat. repeat split. Qed.

(** ** The rebuilt draw pile *)

Lemma insert_desc_elem key x l y :
  y ∈ insert_desc key x l → y = x ∨ y ∈ l.
Proof.
  induction l as [|z l IH]; simpl.
  - intros ->%list_elem_of_singleton. by left.
  - case_bool_decide.
    + intros [->|Hy]%elem_of_cons; [right; left|].
      destruct (IH Hy) as [->|?]; [by left|right; by right].
    + intros [->|Hy]%elem_of_cons; [by left|by right].
Qed.

Lemma insert_desc_descending h x l :
  descending_by_random h l →
  descending_by_random h (insert_desc (λ r, shuffle_random (obj h r)) x l).
Proof.
  induction l as [|z l IH]; simpl; [done|].
  intros [Hz Hl]. case_bool_decide as Hlt; simpl.
  - split; [|by apply IH]. apply list.Forall_forall. intros y Hy.
    apply insert_desc_elem in Hy as [->|Hy].
    + by apply Qclt_le_weak.
    + by eapply list.Forall_forall in Hz.
  - apply Qcnot_lt_le in Hlt. split; [|done].
    constructor; [done|]. eapply list.Forall_impl; [exact Hz|].
    intros y Hy. simpl in Hy. by eapply Qcle_trans.
Qed.

Lemma sort_desc_descending h l :
  descending_by_random h (sort_desc (λ r, shuffle_random (obj h r)) l).
Proof.
  induction l as [|x l IH]; simpl; [done|]. by apply insert_desc_descending.
Qed.

(** The rule for later shuffles that [_initialize_draw_pile] holds in its
    [else] branch does leave the pile in descending order of the fresh
    random values. *)
Lemma later_shuffle_is_sorted (self : GameState) (h : Heap) (g : Rng) :
  is_first_shuffle self = false →
  let '(s', h', _) := _initialize_draw_pile self h g in
  descending_by_random h' (draw_pile s').
Proof.
  intros Hf. unfold _initialize_draw_pile. rewrite Hf.
  destruct (assign_randoms _ _ _) as [h1 g1]. apply sort_desc_descending.
Qed.

(** C3 at a failing input: with an empty draw pile and cards 0 and 1
    discarded, one draw rebuilds the pile with [random.shuffle]. No card
    gets a fresh [shuffle_random] ([draw_cards] has no access to the store),
    and the rebuilt pile, [0] with card 1 drawn from its top, is not in
    descending order of [shuffle_random] (1/4 below, 3/4 on top). *)
Theorem reshuffle_is_not_sorted_by_random :
  shuffle_random (obj quarters_heap 0%nat) = Q2Qc (1 # 4) ∧
  shuffle_random (obj quarters_heap 1%nat) = Q2Qc (3 # 4) ∧
  ∃ gs' g',
    draw_cards 1 reshuffle_state rng_ones = Ok (gs', g') ∧
    discard_pile gs' = [] ∧ draw_pile gs' = [0%nat] ∧ hand gs' = [1%nat] ∧
    ¬ descending_by_random quarters_heap (draw_pile gs' ++ hand gs').
Proof.
  split; [reflexivity|]. split; [reflexivity|].
  eexists _, _. split; [reflexivity|]. split; [reflexivity|].
  split; [reflexivity|]. split; [reflexivity|].
  change (¬ descending_by_random quarters_heap [0; 1]%nat).
  intros [H _]. inversion H as [|? ? H1 H2]; subst.
  vm_compute in H1. by apply H1.
Qed.

(** ** The trainer against the interactive loop *)

(** C1 at a failing input: "双击" carries the exhaust flag. Played in
    [Game.play_turn] it goes to the exhaust pile; played in the trainer's
    loop it goes to the discard pile. Over two rounds from a draw pile that
    holds only this card, the interactive game plays it once (score 18) and
    the trainer draws and plays it again (score 36). *)
Theorem trainer_discards_exhaust_card :
  exhaust (obj base_heap 3%nat) = true ∧
  (∃ s c, play_turn always_first 2 base_heap exhaust_in_hand tt = Ok (s, c) ∧
          hand s = [] ∧ exhaust_pile s = [3%nat] ∧ discard_pile s = []) ∧
  (∃ a s g, train_plays 2 (Agent_init base_deck) base_heap exhaust_in_hand
              rng_ones (get_state_key exhaust_in_hand) = Ok (a, s, g) ∧
          hand s = [] ∧ exhaust_pile s = [] ∧ discard_pile s = [3%nat]) ∧
  (∃ s g c, game_cycles always_first 2 5 base_heap exhaust_on_top rng_ones tt
              = Ok (s, g, c) ∧
          score s = 18 ∧ exhaust_pile s = [3%nat] ∧ discard_pile s = []) ∧
  (∃ a s g, train_cycles 2 5 (Agent_init base_deck) base_heap exhaust_on_top
              rng_ones = Ok (a, s, g) ∧
          score s = 36 ∧ exhaust_pile s = [] ∧ discard_pile s = [3%nat]).
Proof.
  split; [reflexivity|]. split; [|split; [|split]].
  - eexists _, _. split; [vm_compute; reflexivity|]. done.
  - eexists _, _, _. split; [vm_compute; reflexivity|]. done.
  - eexists _, _, _. split; [vm_compute; reflexivity|]. done.
  - eexists _, _, _. split; [vm_compute; reflexivity|]. done.
Qed.

(** ** The value table *)

Lemma foldl_max_spec (l : list Qc) :
  ∀ x, let m := foldl (λ best y, if bool_decide (best < y)%Qc then y else best) x l in
       (x ≤ m)%Qc ∧ (m = x ∨ m ∈ l) ∧ ∀ y, y ∈ l → (y ≤ m)%Qc.
Proof.
  induction l as [|z l IH]; intros x; simpl.
  { split; [apply Qcle_refl|]. split; [by left|]. intros y Hy. by apply elem_of_nil in Hy. }
  destruct (IH (if bool_decide (x < z)%Qc then z else x)) as (Hle & Hin & Hall).
  case_bool_decide as Hlt.
  - split; [eapply Qcle_trans; [by apply Qclt_le_weak|done]|].
    split; [right; destruct Hin as [->|?]; [left|by right]|].
    intros y [->|Hy]%elem_of_cons; [done|by apply Hall].
  - apply Qcnot_lt_le in Hlt. split; [done|].
    split; [destruct Hin as [->|?]; [by left|right; by right]|].
    intros y [->|Hy]%elem_of_cons; [by eapply Qcle_trans|by apply Hall].
Qed.

Lemma max_value_spec (l : list Qc) :
  l ≠ [] → ∃ m, max_value l = Ok m ∧ m ∈ l ∧ ∀ y, y ∈ l → (y ≤ m)%Qc.
Proof.
  destruct l as [|x l]; [done|]. intros _. eexists. split; [reflexivity|].
  destruct (foldl_max_spec l x) as (Hle & Hin & Hall). split.
  - destruct Hin as [->|?]; [left|by right].
  - intros y [->|Hy]%elem_of_cons; [done|by apply Hall].
Qed.

Lemma row_values_nonempty (row : gmap string Qc) : row ≠ ∅ → row_values row ≠ [].
Proof.
  intros Hne Hnil. apply Hne. apply map_to_list_empty_iff.
  unfold row_values in Hnil. by apply fmap_nil_inv in Hnil.
Qed.

Lemma with_rows_lookup (self : Agent) (h : Heap) (prev curr : string) :
  with_rows self h prev curr !! prev = Some (row_at self h prev) ∧
  with_rows self h prev curr !! curr = Some (row_at self h curr).
Proof.
  unfold with_rows, row_at.
  destruct (q_table self !! prev) as [rp|] eqn:Hp; simpl.
  - destruct (q_table self !! curr) as [rc|] eqn:Hc; simpl; [done|].
    rewrite lookup_insert_eq, lookup_insert_ne by congruence. done.
  - destruct (decide (prev = curr)) as [->|Hne].
    + rewrite lookup_insert_eq. simpl. by rewrite lookup_insert_eq, Hp.
    + rewrite lookup_insert_ne by done.
      destruct (q_table self !! curr) as [rc|] eqn:Hc; simpl.
      * by rewrite lookup_insert_eq, lookup_insert_ne.
      * rewrite lookup_insert_eq, lookup_insert_ne by congruence.
        by rewrite lookup_insert_eq.
Qed.

(** The update in closed form, once the largest value of the next-state row
    is known. *)
Lemma update_q_table_eq (self : Agent) (h : Heap) (prev : string)
    (card : Card) (reward : Z) (curr : string) (m : Qc) :
  max_value (row_values (row_at self h curr)) = Ok m →
  let old := dict_get (row_at self h prev) (name card) 0%Qc in
  update_q_table self h prev card reward curr =
    Ok (set_q_table
          (<[prev := <[name card :=
               (old + learning_rate self *
                  (Q2Qc (inject_Z reward) + discount_factor self * m - old))%Qc]>
               (row_at self h prev)]> (with_rows self h prev curr)) self).
Proof.
  intros Hm old. unfold update_q_table.
  change (if bool_decide (is_Some ((if bool_decide (is_Some (q_table self !! prev)) then q_table self
    else <[prev := zero_row h (agent_deck self)]> (q_table self)) !! curr)) then _ else _)
    with (with_rows self h prev curr).
  destruct (with_rows_lookup self h prev curr) as [Hp Hc].
  unfold getitem. rewrite Hp, Hc. cbn [mbind res_bind]. rewrite Hm.
  cbn [mbind res_bind]. reflexivity.
Qed.

Lemma update_q_table_value (self : Agent) (h : Heap) (prev : string)
    (card : Card) (reward : Z) (curr : string) (m : Qc) :
  max_value (row_values (row_at self h curr)) = Ok m →
  let old := dict_get (row_at self h prev) (name card) 0%Qc in
  ∃ self',
    update_q_table self h prev card reward curr = Ok self' ∧
    stored self' prev (name card) =
      Some (old + learning_rate self *
              (Q2Qc (inject_Z reward) + discount_factor self * m - old))%Qc.
Proof.
  intros Hm old. rewrite (update_q_table_eq self h prev card reward curr m Hm).
  eexists. split; [reflexivity|].
  unfold stored. cbn [q_table set_q_table]. rewrite lookup_insert_eq. simpl.
  by rewrite lookup_insert_eq.
Qed.

Lemma blend_fixed_point (old target alpha : Qc) :
  (target = old → old + alpha * (target - old) = old)%Qc ∧
  (alpha ≠ 0%Qc → old + alpha * (target - old) = old → target = old)%Qc.
Proof.
  split.
  - intros ->. ring.
  - intros Ha H.
    assert (H0 : (alpha * (target - old) = 0)%Qc).
    { transitivity ((old + alpha * (target - old)) - old)%Qc; [ring|].
      rewrite H. ring. }
    apply Qcmult_integral in H0 as [H0|H0]; [done|].
    transitivity ((target - old) + old)%Qc; [ring|]. rewrite H0. ring.
Qed.

(** *** The update in binary64 *)

Lemma row_get_set (row : Row) (k : string) (v : float) :
  row_get (row_set row k v) k = Some v.
Proof.
  induction row as [|[k' v'] row IH]; cbn; [by rewrite decide_True|].
  destruct (decide (k' = k)); cbn; [by rewrite decide_True|].
  by rewrite decide_False.
Qed.

Lemma foldl_max_float_elem (l : list float) :
  ∀ x, let m := foldl (λ best y, if fltb best y then y else best) x l in
       m = x ∨ m ∈ l.
Proof.
  induction l as [|z l IH]; intros x; cbn; [by left|].
  destruct (IH (if fltb x z then z else x)) as [->|Hin].
  - destruct (fltb x z); [right; by left|by left].
  - right. by right.
Qed.

Lemma max_float_spec (l : list float) :
  l ≠ [] → ∃ m, max_float l = Ok m ∧ m ∈ l.
Proof.
  destruct l as [|x l]; [done|]. intros _. eexists. split; [reflexivity|].
  destruct (foldl_max_float_elem l x) as [->|Hin]; [by left|by right].
Qed.

Lemma float_of_int_outcome (z : Z) :
  (∃ r, float_of_int z = Ok r) ∨ float_of_int z = Raise OverflowError.
Proof.
  unfold float_of_int.
  destruct (binary_normalize prec emax z 0 false); eauto.
Qed.

Lemma float_with_rows_lookup (self : FloatAgent) (h : Heap)
    (prev curr : string) :
  float_with_rows self h prev curr !! prev = Some (float_row_at self h prev) ∧
  float_with_rows self h prev curr !! curr = Some (float_row_at self h curr).
Proof.
  unfold float_with_rows, float_row_at.
  destruct (float_q_table self !! prev) as [rp|] eqn:Hp; simpl.
  - destruct (float_q_table self !! curr) as [rc|] eqn:Hc; simpl; [done|].
    rewrite lookup_insert_eq, lookup_insert_ne by congruence. done.
  - destruct (decide (prev = curr)) as [->|Hne].
    + rewrite lookup_insert_eq. simpl. by rewrite lookup_insert_eq, Hp.
    + rewrite lookup_insert_ne by done.
      destruct (float_q_table self !! curr) as [rc|] eqn:Hc; simpl.
      * by rewrite lookup_insert_eq, lookup_insert_ne.
      * rewrite lookup_insert_eq, lookup_insert_ne by congruence.
        by rewrite lookup_insert_eq.
Qed.

(** The update up to its arithmetic: the two rows are read, then the
    largest value of the next-state row is taken, then the reward is
    converted. *)
Lemma update_q_table_float_unfold (self : FloatAgent) (h : Heap)
    (prev : string) (card : Card) (reward : Z) (curr : string) :
  update_q_table_float self h prev card reward curr =
    (max_next_q ← max_float ((float_row_at self h curr).*2);
     r ← float_of_int reward;
     let old := default float_zero
                  (row_get (float_row_at self h prev) (name card)) in
     Ok (set_float_q_table
           (<[prev := row_set (float_row_at self h prev) (name card)
                (fadd old
                   (fmul (float_learning_rate self)
                      (fsub (fadd r (fmul (float_discount_factor self)
                                          max_next_q)) old)))]>
              (float_with_rows self h prev curr)) self)).
Proof.
  unfold update_q_table_float.
  change (if bool_decide (is_Some ((if bool_decide (is_Some (float_q_table self !! prev))
    then float_q_table self
    else <[prev := zero_row_float h (float_deck self)]> (float_q_table self)) !! curr))
    then _ else _)
    with (float_with_rows self h prev curr).
  destruct (float_with_rows_lookup self h prev curr) as [Hp Hc].
  unfold getitem. rewrite Hp, Hc. reflexivity.
Qed.



(** The range of the conversion: the largest int that is converted is
    the one just below 2^1024 − 2^970, which gives the largest double. *)
Example float_of_int_range :
  float_of_int (2 ^ 1024 - 2 ^ 970 - 1)
    = Ok (S754_finite false 9007199254740991 971) ∧
  float_of_int (2 ^ 1024 - 2 ^ 970) = Raise OverflowError ∧
  float_of_int (- (2 ^ 1024 - 2 ^ 970 - 1))
    = Ok (S754_finite true 9007199254740991 971) ∧
  float_of_int (- (2 ^ 1024 - 2 ^ 970)) = Raise OverflowError ∧
  float_of_int 0 = Ok float_zero.
Proof. by vm_compute. Qed.

(** In exact arithmetic, C8 as stated fails for a learning rate of 0: the
    stored value stays at 1 although reward + γ·max = 5 + 0.9 is not 1. *)
Lemma frozen_table_is_unchanged :
  learning_rate frozen_agent = 0%Qc ∧
  ¬ unchanged_exactly_when frozen_agent base_heap "p" (obj base_heap 0%nat) 5 "c".
Proof.
  split; [reflexivity|]. intros H.
  assert (Hm : max_value (row_values (row_at frozen_agent base_heap "c")) = Ok 1%Qc)
    by reflexivity.
  destruct (update_q_table_value frozen_agent base_heap "p" (obj base_heap 0%nat)
              5 "c" 1%Qc Hm) as (self' & Hup & Hst).
  specialize (H 1%Qc self' Hm Hup). cbn zeta in H.
  destruct H as [H _].
  assert (Hold : dict_get (row_at frozen_agent base_heap "p")
                   (name (obj base_heap 0%nat)) 0%Qc = 1%Qc) by reflexivity.
  rewrite Hold in *.
  assert (Heq : (Q2Qc (inject_Z 5) + discount_factor frozen_agent * 1)%Qc = 1%Qc).
  { apply H. rewrite Hst. f_equal.
    all: change (learning_rate frozen_agent) with 0%Qc; ring. }
  apply (f_equal this) in Heq. vm_compute in Heq. discriminate.
Qed.


(** ** Termination

    The effect engine and the draw never raise on a state that holds the
    dict entries of [GameState.__init__]; every play takes one card out of
    the hand; every cycle adds one to the round counter. *)

Lemma effects_frame_refl s : effects_frame s s.
Proof. unfold effects_frame. by destruct s. Qed.

Lemma effects_frame_trans s1 s2 s3 :
  effects_frame s1 s2 → effects_frame s2 s3 → effects_frame s1 s3.
Proof.
  unfold effects_frame. intros H1 H2. rewrite H2. rewrite H1. by destruct s1.
Qed.

Lemma is_Some_insert {V} (m : gmap string V) k k' v :
  is_Some (m !! k') → is_Some (<[k := v]> m !! k').
Proof. intros H. rewrite lookup_insert_is_Some. destruct (decide (k = k')); eauto. Qed.

Lemma apply_cost_frame (c : Card) (gs : GameState) :
  effects_frame gs (apply_cost c gs).1 ∧ buffs (apply_cost c gs).1 = buffs gs ∧
  new_buffs (apply_cost c gs).1 = new_buffs gs.
Proof.
  unfold apply_cost, effects_frame.
  destruct (bypass_spirit c); [by destruct gs|].
  repeat case_bool_decide; by destruct gs.
Qed.

Lemma apply_effect_ok (e : Effect) (gs : GameState) :
  keys_present gs →
  ∃ gs' entries,
    apply_effect e gs = Ok (gs', entries) ∧ keys_present gs' ∧
    effects_frame gs gs'.
Proof.
  intros (Hm & Hp & Hn). destruct e as [t v b].
  unfold apply_effect. cbn [type value]. destruct t.
  - destruct (bool_decide _); eexists _, _; (split; [reflexivity|]);
      (split; [done|]); unfold effects_frame; by destruct gs.
  - eexists _, _. split; [reflexivity|]. split; [done|].
    unfold effects_frame; by destruct gs.
  - eexists _, _. split; [reflexivity|]. split.
    + repeat split; cbn [buffs new_buffs set_buffs]; auto using is_Some_insert.
    + unfold effects_frame; by destruct gs.
  - eexists _, _. split; [reflexivity|]. split; [done|]. apply effects_frame_refl.
  - destruct Hp as [p Hp]. unfold getitem. rewrite Hp. cbn [mbind res_bind].
    eexists _, _. split; [reflexivity|]. split.
    + repeat split; cbn [buffs new_buffs set_buffs]; eauto using is_Some_insert.
    + unfold effects_frame; by destruct gs.
  - destruct (_ && _); eexists _, _; (split; [reflexivity|]); split.
    + repeat split; cbn [buffs new_buffs set_buffs set_new_buffs]; auto using is_Some_insert.
    + unfold effects_frame; by destruct gs.
    + repeat split; cbn [buffs new_buffs set_buffs set_new_buffs]; auto using is_Some_insert.
    + unfold effects_frame; by destruct gs.
  - eexists _, _. split; [reflexivity|]. split; [done|]. apply effects_frame_refl.
Qed.

Lemma run_effects_ok (es : list Effect) :
  ∀ gs entries, keys_present gs →
    ∃ gs' entries',
      run_effects es gs entries = Ok (gs', entries') ∧ keys_present gs' ∧
      effects_frame gs gs'.
Proof.
  induction es as [|e es IH]; intros gs entries Hk.
  { eexists _, _. split; [reflexivity|]. split; [done|]. apply effects_frame_refl. }
  cbn [run_effects].
  destruct (apply_effect_ok e gs Hk) as (gs1 & l1 & -> & Hk1 & Hf1).
  cbn [mbind res_bind].
  destruct (IH gs1 (entries ++ l1) Hk1) as (gs' & l' & -> & Hk' & Hf').
  eexists _, _. split; [reflexivity|]. split; [done|]. by eapply effects_frame_trans.
Qed.

Lemma apply_effects_ok (c : Card) (gs : GameState) :
  keys_present gs →
  ∃ gs' entries,
    apply_effects c gs = Ok (gs', entries) ∧ keys_present gs' ∧
    effects_frame gs gs'.
Proof.
  intros Hk. unfold apply_effects.
  destruct (apply_cost_frame c gs) as (Hf & Hb & Hn).
  destruct (apply_cost c gs) as [gs1 logs]. cbn [fst] in *.
  destruct (run_effects_ok (effects c) gs1 logs) as (gs' & l' & -> & Hk' & Hf').
  { unfold keys_present. by rewrite Hb, Hn. }
  eexists _, _. split; [reflexivity|]. split; [done|]. by eapply effects_frame_trans.
Qed.

Lemma same_round_refl s : same_round s s.
Proof. by repeat split. Qed.

Lemma same_round_trans s1 s2 s3 :
  same_round s1 s2 → same_round s2 s3 → same_round s1 s3.
Proof.
  intros (?&?&?&?&?) (?&?&?&?&?). repeat split; congruence.
Qed.

Lemma effects_frame_same_round s s' : effects_frame s s' → same_round s s'.
Proof. unfold effects_frame. intros ->. by repeat split. Qed.

Lemma effects_frame_piles s s' :
  effects_frame s s' →
  hand s' = hand s ∧ draw_pile s' = draw_pile s ∧
  discard_pile s' = discard_pile s ∧ exhaust_pile s' = exhaust_pile s.
Proof. unfold effects_frame. intros ->. by repeat split. Qed.

Lemma piles_moved_same_round s s' : piles_moved s s' → same_round s s'.
Proof. unfold piles_moved. intros ->. by repeat split. Qed.

Lemma list_index_ok {A} (l : list A) (choice : Z) :
  1 ≤ choice ≤ Z.of_nat (length l) →
  ∃ x, list_index l (choice - 1) = Ok x ∧ x ∈ l.
Proof.
  intros Hc. unfold list_index. cbv zeta.
  rewrite (bool_decide_eq_false_2 (choice - 1 < 0)) by lia.
  rewrite bool_decide_eq_true_2 by lia.
  destruct (lookup_lt_is_Some_2 l (Z.to_nat (choice - 1))) as [x Hx]; [lia|].
  rewrite Hx. exists x. split; [done|]. by eapply list_elem_of_lookup_2.
Qed.

Lemma list_remove_ok (x : ref) (l : list ref) :
  x ∈ l → ∃ l', list_remove x l = Ok l' ∧ length l = S (length l') ∧ l ≡ₚ x :: l'.
Proof.
  induction l as [|y l IH]; [by intros ?%elem_of_nil|].
  intros Hx. cbn [list_remove]. case_decide as Hy.
  - subst. exists l. by repeat split.
  - apply elem_of_cons in Hx as [->|Hx]; [done|].
    destruct (IH Hx) as (l' & -> & Hlen & Hperm). cbn [mbind res_bind mret res_ret].
    exists (y :: l'). split; [done|]. split; [simpl; lia|].
    rewrite Hperm. apply Permutation_swap.
Qed.

Lemma dispose_frame (h : Heap) (c : ref) (s : GameState) :
  buffs (dispose h c s) = buffs s ∧ new_buffs (dispose h c s) = new_buffs s ∧
  hand (dispose h c s) = hand s ∧ same_round s (dispose h c s).
Proof. unfold dispose. destruct (exhaust _); by repeat split. Qed.

Lemma play_card_ok (h : Heap) (gs : GameState) (choice : Z) :
  keys_present gs → 1 ≤ choice ≤ Z.of_nat (length (hand gs)) →
  ∃ gs', play_card h gs choice = Ok gs' ∧ keys_present gs' ∧
         same_round gs gs' ∧ length (hand gs) = S (length (hand gs')).
Proof.
  intros Hk Hc. unfold play_card.
  destruct (list_index_ok (hand gs) choice Hc) as (c & -> & Hin).
  cbn [mbind res_bind].
  destruct (apply_effects_ok (obj h c) gs Hk) as (gs1 & entries & -> & Hk1 & Hf).
  cbn [mbind res_bind hand set_log].
  destruct (effects_frame_piles _ _ Hf) as (Hh & _).
  rewrite <-Hh in Hin.
  destruct (list_remove_ok c (hand gs1) Hin) as (hand' & -> & Hlen & _).
  cbn [mbind res_bind].
  destruct (dispose_frame h c (set_hand hand' (set_log (log gs1 ++ entries) gs1)))
    as (Hb & Hn & Hhd & Hsr).
  destruct Hk1 as (Hm1 & Hp1 & Hn1).
  unfold getitem. rewrite Hb. cbn [buffs set_hand set_log].
  destruct Hp1 as [p Hp1]. rewrite Hp1. cbn [mbind res_bind].
  eexists. split; [reflexivity|]. split; [|split].
  - repeat split; cbn [buffs new_buffs set_buffs]; rewrite ?Hb, ?Hn;
      cbn [buffs new_buffs set_hand set_log]; auto using is_Some_insert.
  - eapply same_round_trans; [by apply effects_frame_same_round|].
    eapply same_round_trans; [|eapply same_round_trans; [exact Hsr|]];
      by repeat split.
  - cbn [hand set_buffs]. rewrite Hhd. cbn [hand set_hand]. by rewrite <-Hh.
Qed.


Lemma begin_turn_facts (s : GameState) :
  keys_present s → keys_present (begin_turn s) ∧ same_round s (begin_turn s).
Proof.
  intros (Hm & Hp & Hn). unfold begin_turn.
  destruct (bool_decide _); [destruct (dict_get (new_buffs s) _ _)|];
    (split; [|by repeat split]);
    repeat split; cbn [buffs new_buffs set_buffs set_new_buffs];
    auto using is_Some_insert.
Qed.

Lemma keys_present_piles_moved s s' :
  piles_moved s s' → keys_present s → keys_present s'.
Proof.
  intros [Hb Hn]%piles_moved_buffs. unfold keys_present. by rewrite Hb, Hn.
Qed.

Lemma handle_phase_start_total (s : GameState) (g : Rng) :
  keys_present s →
  ∃ s' entries g',
    handle_phase_start s g = Ok (s', entries, g') ∧ keys_present s' ∧
    same_round s s' ∧ all_cards s' ≡ₚ all_cards s ∧
    (length (hand s') ≤ length (hand s) + 3)%nat.
Proof.
  intros Hk. pose proof Hk as ([m Hm] & _ & Hn).
  destruct (handle_phase_start_ok s g m Hm (λ _, Hn))
    as (s' & entries & g' & Hr & Hmv & Hperm & Hlen).
  destruct (begin_turn_facts s Hk) as [Hk1 Hsr1].
  exists s', entries, g'. split; [done|]. split; [by eapply keys_present_piles_moved|].
  split; [|done]. eapply same_round_trans; [exact Hsr1|by apply piles_moved_same_round].
Qed.

Lemma handle_turn_start_total (s : GameState) (g : Rng) :
  keys_present s →
  ∃ s' g',
    handle_turn_start s g = Ok (s', g') ∧ keys_present s' ∧
    same_round s s' ∧ all_cards s' ≡ₚ all_cards s ∧
    (length (hand s') ≤ length (hand s) + 3)%nat.
Proof.
  intros Hk. unfold handle_turn_start.
  destruct (handle_phase_start_total s g Hk)
    as (s' & entries & g' & -> & Hk' & Hsr & Hperm & Hlen).
  cbn [mbind res_bind]. eexists _, _. split; [reflexivity|]. done.
Qed.

Lemma reset_for_new_round_facts (s : GameState) :
  keys_present s →
  keys_present (reset_for_new_round s) ∧ same_round s (reset_for_new_round s) ∧
  hand (reset_for_new_round s) = [] ∧
  all_cards (reset_for_new_round s) ≡ₚ all_cards s.
Proof.
  intros (Hm & Hp & Hn). unfold reset_for_new_round. split; [|split; [|split]].
  - repeat split; cbn; auto using is_Some_insert.
  - by repeat split.
  - done.
  - unfold all_cards. cbn. rewrite (comm (++) (hand s)).
    by rewrite <-!(assoc_L (++)).
Qed.

Lemma running_rounds_left (gs : GameState) :
  running gs = true → (0 < rounds_left gs)%nat.
Proof.
  unfold running, rounds_left. intros H.
  apply andb_true_iff in H as [H _]. apply andb_true_iff in H as [H _].
  apply bool_decide_eq_true in H. lia.
Qed.

Section InteractiveFacts.
Context {Console : Type}.
Variable get_valid_input : Z → Z → Console → res Z * Console.
Hypothesis Hvalid : validated get_valid_input.

Lemma play_turn_ok (h : Heap) (fuel : nat) :
  ∀ (gs : GameState) (c : Console),
    keys_present gs → (length (hand gs) < fuel)%nat →
    match play_turn get_valid_input fuel h gs c with
    | Ok (gs', _) => keys_present gs' ∧ same_round gs gs'
    | Raise e => e = SystemExit
    | OutOfFuel => False
    end.
Proof.
  induction fuel as [|fuel IH]; intros gs c Hk Hlen; [lia|].
  cbn [play_turn]. pose proof Hk as (Hm & [p Hp] & Hn).
  unfold getitem. rewrite Hp. cbn [mbind res_bind].
  destruct (bool_decide (p > 0) && bool_decide (hand gs ≠ [])) eqn:Hgo;
    [|cbv beta iota; split; [done|apply same_round_refl]].
  pose proof (Hvalid 1 (Z.of_nat (length (hand gs))) c) as Hv.
  destruct (get_valid_input 1 (Z.of_nat (length (hand gs))) c) as [answer c1].
  cbn [fst] in Hv. destruct answer as [choice|e|]; [|done..].
  cbn [mbind res_bind]. destruct (bool_decide (choice = 0)) eqn:Hzero;
    [cbv beta iota; split; [done|apply same_round_refl]|].
  apply bool_decide_eq_false in Hzero. destruct Hv as [?|Hv]; [done|].
  destruct (play_card_ok h gs choice Hk Hv) as (gs1 & -> & Hk1 & Hsr1 & Hl1).
  cbn [mbind res_bind].
  specialize (IH gs1 c1 Hk1 ltac:(lia)).
  destruct (play_turn get_valid_input fuel h gs1 c1) as [[gs' c']|e|]; [|done..].
  destruct IH as [Hk' Hsr']. split; [done|]. by eapply same_round_trans.
Qed.

Lemma game_cycle_ok (plays_fuel : nat) (h : Heap) (gs : GameState) (g : Rng)
    (c : Console) :
  keys_present gs → (length (hand gs) + 3 < plays_fuel)%nat →
  match game_cycle get_valid_input plays_fuel h gs g c with
  | Ok (gs', _, _) =>
      keys_present gs' ∧ hand gs' = [] ∧ num_rounds gs' = num_rounds gs ∧
      current_round gs' = current_round gs + 1
  | Raise e => e = SystemExit
  | OutOfFuel => False
  end.
Proof.
  intros Hk Hfuel. unfold game_cycle.
  destruct (handle_turn_start_total (set_current_phase TURN_START gs) g)
    as (s2 & g1 & -> & Hk2 & Hsr2 & _ & Hlen2); [done|].
  cbn [mbind res_bind].
  pose proof (play_turn_ok h plays_fuel (set_current_phase PLAYER_ACTION s2) c)
    as Hplay.
  destruct (play_turn get_valid_input plays_fuel h
              (set_current_phase PLAYER_ACTION s2) c) as [[s4 c1]|e|];
    cbn [mbind res_bind].
  - destruct Hplay as [Hk4 Hsr4]; [done|cbn in *; lia|].
    unfold handle_turn_end.
    destruct (reset_for_new_round_facts (set_current_phase TURN_END s4))
      as (Hk6 & Hsr6 & Hh6 & _); [done|].
    split; [done|]. split; [done|].
    destruct Hsr2 as (_ & Hn2 & Hc2 & _), Hsr4 as (_ & Hn4 & Hc4 & _),
      Hsr6 as (_ & Hn6 & Hc6 & _).
    cbn in *. split; congruence.
  - apply Hplay; [done|cbn in *; lia].
  - apply Hplay; [done|cbn in *; lia].
Qed.

Lemma start_terminates (plays_fuel : nat) (h : Heap) (fuel : nat) :
  ∀ (gs : GameState) (g : Rng) (c : Console),
    keys_present gs → (rounds_left gs < fuel)%nat →
    (length (hand gs) + 3 < plays_fuel)%nat →
    ∃ n, (n ≤ rounds_left gs)%nat ∧
      start get_valid_input fuel plays_fuel h gs g c =
        game_cycles get_valid_input n plays_fuel h gs g c ∧
      (∀ k, (k < n)%nat →
         match game_cycles get_valid_input k plays_fuel h gs g c with
         | Ok (s, _, _) => running s = true
         | _ => False
         end) ∧
      match game_cycles get_valid_input n plays_fuel h gs g c with
      | Ok (s', _, _) =>
          running s' = false ∧ current_round s' = current_round gs + Z.of_nat n
      | Raise e => e = SystemExit
      | OutOfFuel => False
      end.
Proof.
  induction fuel as [|fuel IH]; intros gs g c Hk Hfuel Hplays; [lia|].
  cbn [start]. destruct (running gs) eqn:Hrun.
  - pose proof (running_rounds_left gs Hrun) as Hleft.
    pose proof (game_cycle_ok plays_fuel h gs g c Hk Hplays) as Hcyc.
    destruct (game_cycle get_valid_input plays_fuel h gs g c)
      as [[[gs1 g1] c1]|e|] eqn:Hc; [|subst e|done].
    + destruct Hcyc as (Hk1 & Hh1 & Hn1 & Hc1). cbn [mbind res_bind].
      destruct (IH gs1 g1 c1 Hk1) as (n & Hn & Hstart & Hpre & Hpost).
      { unfold rounds_left in *. rewrite Hn1, Hc1. lia. }
      { rewrite Hh1. simpl. lia. }
      exists (S n). split; [unfold rounds_left in *; rewrite Hn1, Hc1 in Hn; lia|].
      cbn [game_cycles]. rewrite Hc. cbn [mbind res_bind].
      split; [done|]. split.
      * intros [|k] Hlt; [by cbn; rewrite Hrun|].
        cbn [game_cycles]. rewrite Hc. cbn [mbind res_bind]. apply Hpre. lia.
      * destruct (game_cycles get_valid_input n plays_fuel h gs1 g1 c1)
          as [[[s' ?] ?]|e|]; [|done..].
        destruct Hpost as [Hr Hcr]. split; [done|]. rewrite Hcr, Hc1. lia.
    + exists 1%nat. split; [lia|]. cbn [game_cycles]. rewrite Hc.
      cbn [mbind res_bind]. split; [done|]. split; [|done].
      intros [|k] Hlt; [by cbn; rewrite Hrun|lia].
  - exists 0%nat. split; [lia|]. cbn [game_cycles]. split; [done|].
    split; [lia|]. split; [done|lia].
Qed.
End InteractiveFacts.

(** *** The trainer's loops *)

Lemma randbelow_lt (n : nat) (g : Rng) : (0 < n)%nat → ((randbelow n g).1 < n)%nat.
Proof.
  intros Hn. unfold randbelow. cbn [fst].
  pose proof (Z.mod_pos_bound (raw g (cursor g)) (Z.of_nat n)). lia.
Qed.

Lemma random_choice_ok {A} (seq : list A) (g : Rng) :
  seq ≠ [] → ∃ a g', random_choice seq g = Ok (a, g') ∧ a ∈ seq.
Proof.
  intros Hne. unfold random_choice. destruct seq as [|x seq]; [done|].
  pose proof (randbelow_lt (length (x :: seq)) g ltac:(simpl; lia)) as Hlt.
  destruct (randbelow (length (x :: seq)) g) as [i g']. cbn [fst] in Hlt.
  destruct (lookup_lt_is_Some_2 (x :: seq) i Hlt) as [a Ha]. rewrite Ha.
  exists a, g'. split; [done|]. by eapply list_elem_of_lookup_2.
Qed.

Lemma foldl_best_elem (key : ref → Qc) (l : list ref) :
  ∀ x, foldl (λ best y, if bool_decide (key best < key y)%Qc then y else best) x l
         ∈ x :: l.
Proof.
  induction l as [|z l IH]; intros x; simpl; [left|].
  specialize (IH (if bool_decide (key x < key z)%Qc then z else x)).
  case_bool_decide.
  - by right.
  - apply elem_of_cons in IH as [->|?]; [left|right; by right].
Qed.

Lemma max_by_ok (key : ref → Qc) (items : list ref) :
  items ≠ [] → ∃ x, max_by key items = Ok x ∧ x ∈ items.
Proof.
  destruct items as [|x l]; [done|]. intros _. eexists. split; [reflexivity|].
  apply foldl_best_elem.
Qed.

Lemma zero_row_nonempty (h : Heap) (cards : list ref) :
  cards ≠ [] → zero_row h cards ≠ ∅.
Proof.
  destruct cards as [|c cards]; [done|]. intros _. unfold zero_row.
  rewrite fmap_cons. cbn [list_to_map]. apply insert_non_empty.
Qed.

Lemma rows_nonempty_insert q k row :
  rows_nonempty q → row ≠ ∅ → rows_nonempty (<[k := row]> q).
Proof.
  intros Hq Hrow k' row' Hl. apply lookup_insert_Some in Hl as [[_ <-]|[_ Hl]]; [done|].
  by eapply Hq.
Qed.

Lemma choose_card_ok (self : Agent) (h : Heap) (gs : GameState) (g : Rng) :
  hand gs ≠ [] → rows_nonempty (q_table self) →
  ∃ c self' g',
    choose_card self h gs g = Ok (Some c, self', g') ∧ c ∈ hand gs ∧
    rows_nonempty (q_table self') ∧ agent_deck self' = agent_deck self.
Proof.
  intros Hhand Hq. unfold choose_card.
  rewrite bool_decide_eq_false_2 by done.
  destruct (random_random g) as [u g1]. case_bool_decide as Hexp.
  - destruct (random_choice_ok (hand gs) g1 Hhand) as (c & g2 & -> & Hin).
    cbn [mbind res_bind]. by exists c, self, g2.
  - set (self1 := if bool_decide (is_Some (q_table self !! get_state_key gs))
                  then self else _).
    assert (H1 : rows_nonempty (q_table self1) ∧ agent_deck self1 = agent_deck self ∧
                 is_Some (q_table self1 !! get_state_key gs)).
    { subst self1. case_bool_decide as Hrow; [done|].
      cbn [q_table set_q_table agent_deck]. split; [|split; [done|]].
      - apply rows_nonempty_insert; [done|by apply zero_row_nonempty].
      - rewrite lookup_insert_eq. by eexists. }
    destruct H1 as (Hq1 & Hd1 & [row Hrow]).
    unfold getitem. rewrite Hrow. cbn [mbind res_bind].
    destruct (max_by_ok (λ card, dict_get row (name (obj h card)) 0%Qc)
                        (hand gs) Hhand) as (c & -> & Hin).
    cbn [mbind res_bind]. by exists c, self1, g1.
Qed.

Lemma with_rows_nonempty (self : Agent) (h : Heap) (prev curr : string) :
  rows_nonempty (q_table self) → agent_deck self ≠ [] →
  rows_nonempty (with_rows self h prev curr).
Proof.
  intros Hq Hd. unfold with_rows.
  repeat case_bool_decide;
    repeat apply rows_nonempty_insert; auto using zero_row_nonempty.
Qed.

Lemma update_q_table_ok (self : Agent) (h : Heap) (prev : string)
    (card : Card) (reward : Z) (curr : string) :
  rows_nonempty (q_table self) → agent_deck self ≠ [] →
  ∃ self', update_q_table self h prev card reward curr = Ok self' ∧
           rows_nonempty (q_table self') ∧ agent_deck self' = agent_deck self.
Proof.
  intros Hq Hd.
  pose proof (with_rows_nonempty self h prev curr Hq Hd) as Hw.
  destruct (with_rows_lookup self h prev curr) as [Hp Hc].
  destruct (max_value_spec (row_values (row_at self h curr))) as (m & Hm & _).
  { apply row_values_nonempty. by eapply Hw. }
  rewrite (update_q_table_eq self h prev card reward curr m Hm).
  eexists. split; [reflexivity|]. cbn [q_table set_q_table agent_deck].
  split; [|done]. apply rows_nonempty_insert; [done|]. apply insert_non_empty.
Qed.

Lemma train_play_ok (self : Agent) (h : Heap) (gs : GameState) (prev : string)
    (c : ref) :
  trainer_inv self gs → c ∈ hand gs →
  ∃ self' gs' key,
    train_play self h gs prev c = Ok (self', gs', key) ∧
    trainer_inv self' gs' ∧ same_round gs gs' ∧
    length (hand gs) = S (length (hand gs')).
Proof.
  intros (Hk & Hq & Hd & Hp) Hin. unfold train_play.
  destruct (apply_effects_ok (obj h c) gs Hk) as (gs1 & entries & -> & Hk1 & Hf).
  cbn [mbind res_bind].
  destruct (effects_frame_piles _ _ Hf) as (Hh & Hdr & Hdi & _).
  pose proof (effects_frame_same_round _ _ Hf) as Hsr.
  assert (Hdeck : agent_deck self ≠ []).
  { rewrite Hd. intros Hnil. specialize (Hp Hnil). unfold all_cards in Hp.
    apply app_eq_nil in Hp as [Hp _]. rewrite Hp in Hin. by apply elem_of_nil in Hin. }
  destruct (update_q_table_ok self h prev (obj h c) (score gs1) (get_state_key gs1)
              Hq Hdeck) as (self1 & -> & Hq1 & Hd1).
  cbn [mbind res_bind]. rewrite <-Hh in Hin.
  destruct (list_remove_ok c (hand gs1) Hin) as (hand' & -> & Hlen & _).
  cbn [mbind res_bind]. destruct Hk1 as (Hm1 & [p Hp1] & Hn1).
  unfold getitem. cbn [buffs set_discard_pile set_hand]. rewrite Hp1.
  cbn [mbind res_bind]. eexists _, _, _. split; [reflexivity|].
  split; [|split].
  - split; [|split; [done|split]].
    + repeat split; cbn; auto using is_Some_insert.
    + cbn. destruct Hsr as (Hdk & _). congruence.
    + intros Hnil. cbn in Hnil. destruct Hsr as (Hdk & _). congruence.
  - eapply same_round_trans; [exact Hsr|]. by repeat split.
  - cbn. by rewrite <-Hh.
Qed.

Lemma train_plays_ok (h : Heap) (fuel : nat) :
  ∀ (self : Agent) (gs : GameState) (g : Rng) (prev : string),
    trainer_inv self gs → (length (hand gs) < fuel)%nat →
    match train_plays fuel self h gs g prev with
    | Ok (self', gs', _) => trainer_inv self' gs' ∧ same_round gs gs'
    | _ => False
    end.
Proof.
  induction fuel as [|fuel IH]; intros self gs g prev Hinv Hlen; [lia|].
  cbn [train_plays]. pose proof Hinv as ((Hm & [p Hp] & Hn) & Hq & Hd & Hpd).
  unfold getitem. rewrite Hp. cbn [mbind res_bind].
  destruct (bool_decide (p > 0) && bool_decide (hand gs ≠ [])) eqn:Hgo;
    [|cbv beta iota; split; [done|apply same_round_refl]].
  apply andb_true_iff in Hgo as [_ Hhand%bool_decide_eq_true].
  destruct (choose_card_ok self h gs g Hhand Hq) as (c & self1 & g1 & -> & Hin & Hq1 & Hd1).
  cbn [mbind res_bind].
  destruct (train_play_ok self1 h gs prev c) as (self2 & gs2 & key & -> & Hinv2 & Hsr2 & Hl2);
    [by repeat split; try congruence|done|].
  cbn [mbind res_bind].
  specialize (IH self2 gs2 g1 key Hinv2 ltac:(lia)).
  destruct (train_plays fuel self2 h gs2 g1 key) as [[[self' gs'] g']|e|]; [|done..].
  destruct IH as [Hinv' Hsr']. split; [done|]. by eapply same_round_trans.
Qed.

Lemma piles_from_deck_perm (s s' : GameState) :
  deck s' = deck s → all_cards s' ≡ₚ all_cards s →
  piles_from_deck s → piles_from_deck s'.
Proof.
  intros Hd Hperm Hp Hnil. rewrite Hd in Hnil. rewrite (Hp Hnil) in Hperm.
  by apply Permutation_nil_r in Hperm.
Qed.

Lemma train_cycle_ok (plays_fuel : nat) (self : Agent) (h : Heap)
    (gs : GameState) (g : Rng) :
  trainer_inv self gs → (length (hand gs) + 3 < plays_fuel)%nat →
  match train_cycle plays_fuel self h gs g with
  | Ok (self', gs', _) =>
      trainer_inv self' gs' ∧ hand gs' = [] ∧ num_rounds gs' = num_rounds gs ∧
      current_round gs' = current_round gs + 1
  | _ => False
  end.
Proof.
  intros (Hk & Hq & Hd & Hp) Hfuel. unfold train_cycle.
  destruct (handle_phase_start_total (set_current_phase TURN_START gs) g)
    as (s2 & entries & g1 & -> & Hk2 & Hsr2 & Hperm2 & Hlen2); [done|].
  cbn [mbind res_bind].
  pose proof (train_plays_ok h plays_fuel self (set_current_phase PLAYER_ACTION s2)
                g1 (get_state_key (set_current_phase PLAYER_ACTION s2))) as Hplay.
  destruct (train_plays plays_fuel self h (set_current_phase PLAYER_ACTION s2) g1 _)
    as [[[self1 s4] g2]|e|]; cbn [mbind res_bind].
  - destruct Hplay as [(Hk4 & Hq4 & Hd4 & Hp4) Hsr4].
    { split; [done|]. split; [done|]. destruct Hsr2 as (Hdk2 & _). split.
      - cbn in *. congruence.
      - apply (piles_from_deck_perm gs); [by cbn in *|by cbn in *|done]. }
    { cbn in *. lia. }
    destruct (reset_for_new_round_facts (set_current_phase TURN_END s4))
      as (Hk6 & Hsr6 & Hh6 & Hperm6); [done|].
    destruct Hsr2 as (Hdk2 & Hn2 & Hc2 & _), Hsr4 as (Hdk4 & Hn4 & Hc4 & _),
      Hsr6 as (Hdk6 & Hn6 & Hc6 & _).
    split; [|split; [done|cbn in *; split; congruence]].
    split; [done|]. split; [done|]. split; [cbn in *; congruence|].
    apply (piles_from_deck_perm s4); [by cbn in *|by cbn in *|done].
  - apply Hplay; [|cbn in *; lia].
    split; [done|]. split; [done|]. destruct Hsr2 as (Hdk2 & _). split.
    + cbn in *. congruence.
    + apply (piles_from_deck_perm gs); [by cbn in *|by cbn in *|done].
  - apply Hplay; [|cbn in *; lia].
    split; [done|]. split; [done|]. destruct Hsr2 as (Hdk2 & _). split.
    + cbn in *. congruence.
    + apply (piles_from_deck_perm gs); [by cbn in *|by cbn in *|done].
Qed.

Lemma train_rounds_terminates (plays_fuel : nat) (h : Heap) (fuel : nat) :
  ∀ (self : Agent) (gs : GameState) (g : Rng),
    trainer_inv self gs → (rounds_left gs < fuel)%nat →
    (length (hand gs) + 3 < plays_fuel)%nat →
    ∃ n, (n ≤ rounds_left gs)%nat ∧
      train_rounds fuel plays_fuel self h gs g =
        train_cycles n plays_fuel self h gs g ∧
      (∀ k, (k < n)%nat →
         match train_cycles k plays_fuel self h gs g with
         | Ok (_, s, _) => running s = true
         | _ => False
         end) ∧
      match train_cycles n plays_fuel self h gs g with
      | Ok (self', s', _) =>
          running s' = false ∧
          current_round s' = current_round gs + Z.of_nat n ∧
          trainer_inv self' s'
      | _ => False
      end.
Proof.
  induction fuel as [|fuel IH]; intros self gs g Hinv Hfuel Hplays; [lia|].
  cbn [train_rounds]. destruct (running gs) eqn:Hrun.
  - pose proof (running_rounds_left gs Hrun) as Hleft.
    pose proof (train_cycle_ok plays_fuel self h gs g Hinv Hplays) as Hcyc.
    destruct (train_cycle plays_fuel self h gs g)
      as [[[self1 gs1] g1]|e|] eqn:Hc; [|done..].
    destruct Hcyc as (Hinv1 & Hh1 & Hn1 & Hc1). cbn [mbind res_bind].
    destruct (IH self1 gs1 g1 Hinv1) as (n & Hn & Hstart & Hpre & Hpost).
    { unfold rounds_left in *. rewrite Hn1, Hc1. lia. }
    { rewrite Hh1. simpl. lia. }
    exists (S n). split; [unfold rounds_left in *; rewrite Hn1, Hc1 in Hn; lia|].
    cbn [train_cycles]. rewrite Hc. cbn [mbind res_bind].
    split; [done|]. split.
    + intros [|k] Hlt; [by cbn; rewrite Hrun|].
      cbn [train_cycles]. rewrite Hc. cbn [mbind res_bind]. apply Hpre. lia.
    + destruct (train_cycles n plays_fuel self1 h gs1 g1)
        as [[[? s'] ?]|e|]; [|done..].
      destruct Hpost as (Hr & Hcr & Hinv'). split; [done|].
      split; [rewrite Hcr, Hc1; lia|done].
  - exists 0%nat. split; [lia|]. cbn [train_cycles]. split; [done|].
    split; [lia|]. split; [done|]. split; [lia|done].
Qed.

Lemma GameState_init_facts (d : list ref) (nr ts mh sv : Z) (h : Heap) (g : Rng) :
  let gs := (GameState_init d nr ts mh sv h g).1.1 in
  keys_present gs ∧ hand gs = [] ∧ deck gs = d ∧ num_rounds gs = nr ∧
  current_round gs = 1 ∧ piles_from_deck gs.
Proof.
  unfold GameState_init, _initialize_draw_pile. cbn [is_first_shuffle deck].
  destruct (assign_randoms d h g) as [h1 g1]. cbn [fst].
  repeat split; try (by eexists).
  intros Hnil. cbn in Hnil. subst d. done.
Qed.

(** *** The episode *)

Lemma running_false_iff (s : GameState) :
  running s = false ↔
  num_rounds s < current_round s ∨ target_score s ≤ score s ∨ vitality s ≤ 0.
Proof.
  unfold running. rewrite !andb_false_iff, !bool_decide_eq_false. lia.
Qed.

Lemma always_first_validated : validated always_first.
Proof.
  intros min_val max_val c. unfold always_first. cbn [fst].
  case_bool_decide; [right; lia|by left].
Qed.


Lemma empty_table_rows : rows_nonempty (∅ : gmap string (gmap string Qc)).
Proof. intros k row H. by rewrite lookup_empty in H. Defined.

Lemma exhaust_in_hand_inv : trainer_inv (Agent_init base_deck) exhaust_in_hand.
Proof.
  split; [by repeat split; eexists|]. split; [apply empty_table_rows|].
  split; [reflexivity|]. intros H. discriminate H.
Defined.



(** ** Where the two loops agree *)

Lemma effects_frame_log s s' : effects_frame s s' → log s' = log s.
Proof. unfold effects_frame. intros ->. done. Qed.

(** For a card without the exhaust flag the trainer's play and the
    interactive play agree on everything but the log, which the trainer
    does not keep. *)
Lemma train_play_matches_play_card (self : Agent) (h : Heap) (gs : GameState)
    (prev : string) (choice : Z) (c : ref) :
  keys_present gs →
  list_index (hand gs) (choice - 1) = Ok c →
  exhaust (obj h c) = false →
  ∀ s self' s' key,
    play_card h gs choice = Ok s →
    train_play self h gs prev c = Ok (self', s', key) →
    s' = set_log (log gs) s.
Proof.
  intros Hk Hc Hex s self' s' key Hgame Htrain.
  unfold play_card in Hgame. rewrite Hc in Hgame. cbn [mbind res_bind] in Hgame.
  unfold train_play in Htrain.
  destruct (apply_effects_ok (obj h c) gs Hk) as (gs1 & entries & Heff & _ & Hf).
  rewrite Heff in Hgame, Htrain. cbn [mbind res_bind hand set_log] in Hgame, Htrain.
  destruct (update_q_table _ _ _ _ _ _) as [a| |]; [|done..].
  cbn [mbind res_bind] in Htrain.
  destruct (list_remove c (hand gs1)) as [hand'| |]; [|done..].
  cbn [mbind res_bind] in Hgame, Htrain.
  unfold dispose in Hgame. rewrite Hex in Hgame.
  cbn [buffs set_discard_pile set_hand set_log] in Hgame, Htrain.
  destruct (getitem (buffs gs1) PLAYS) as [p| |]; [|done..].
  cbn [mbind res_bind] in Hgame, Htrain.
  injection Hgame as <-. injection Htrain as _ <- _.
  apply effects_frame_log in Hf. rewrite <-Hf. by destruct gs1.
Qed.

(** ** The whole training run *)

(** An episode keeps every row of the table non-empty, so the next episode
    can start from the agent it leaves. *)
Lemma train_episode_ok (fuel plays_fuel : nat) (self : Agent) (h : Heap)
    (g : Rng) (nr ts : Z) :
  rows_nonempty (q_table self) →
  (Z.to_nat nr < fuel)%nat → (3 < plays_fuel)%nat →
  ∃ self' gs h' g',
    train_episode fuel plays_fuel self h g nr ts = Ok (self', gs, h', g') ∧
    rows_nonempty (q_table self') ∧ running gs = false.
Proof.
  intros Hq Hfuel Hplays. unfold train_episode.
  pose proof (GameState_init_facts (agent_deck self) nr ts 5 30 h g) as Hinit.
  destruct (GameState_init (agent_deck self) nr ts 5 30 h g) as [[gs h1] g1].
  cbn [fst] in Hinit. destruct Hinit as (Hk & Hh & Hd & Hn & Hc & Hp).
  assert (Hleft : rounds_left gs = Z.to_nat nr).
  { unfold rounds_left. rewrite Hn, Hc. f_equal. lia. }
  destruct (train_rounds_terminates plays_fuel h1 fuel self gs g1)
    as (n & Hle & -> & _ & Hpost);
    [by split; [|split; [|split]]|lia|rewrite Hh; simpl; lia|].
  destruct (train_cycles n plays_fuel self h1 gs g1) as [[[self' s] g2]|e|];
    [|done..].
  destruct Hpost as (Hr & _ & _ & Hq' & _). cbn [mbind res_bind].
  by eexists _, _, _, _.
Qed.

Lemma train_episodes_ok (n fuel plays_fuel : nat) (nr ts : Z) :
  (Z.to_nat nr < fuel)%nat → (3 < plays_fuel)%nat →
  ∀ (self : Agent) (h : Heap) (g : Rng) (successful total : Z),
    rows_nonempty (q_table self) →
    ∃ r, train_episodes n fuel plays_fuel self h g nr ts successful total = Ok r.
Proof.
  intros Hfuel Hplays. induction n as [|n IH]; intros self h g successful total Hq.
  { by eexists. }
  cbn [train_episodes].
  destruct (train_episode_ok fuel plays_fuel self h g nr ts Hq Hfuel Hplays)
    as (self' & gs & h' & g' & -> & Hq' & _).
  cbn [mbind res_bind]. by apply IH.
Qed.

(** [train] on a new agent returns its summary for any positive number of
    episodes; with [num_episodes = 0] the average divides by zero. *)
Lemma train_returns (fuel plays_fuel : nat) (d : list ref) (h : Heap) (g : Rng)
    (num_episodes nr ts : Z) :
  (Z.to_nat nr < fuel)%nat → (3 < plays_fuel)%nat →
  (num_episodes ≠ 0 →
   ∃ r, train fuel plays_fuel (Agent_init d) h g num_episodes nr ts = Ok r) ∧
  (num_episodes = 0 →
   train fuel plays_fuel (Agent_init d) h g num_episodes nr ts =
     Raise ZeroDivisionError).
Proof.
  intros Hfuel Hplays. unfold train.
  destruct (train_episodes_ok (Z.to_nat num_episodes) fuel plays_fuel nr ts
              Hfuel Hplays (Agent_init d) h g 0 0) as [[[[[a h1] g1] su] to] ->].
  { exact empty_table_rows. }
  cbn [mbind res_bind]. split; intros Hn.
  - rewrite bool_decide_eq_false_2 by done. by eexists.
  - by rewrite bool_decide_eq_true_2.
Qed.

(** * Further properties of the code *)

(** ** The cost and the effects of a card *)

(** X1: a card with a cost of at least 0 is paid in full out of spirit and
    vitality together: their sum drops by exactly the cost, neither rises,
    spirit that was not negative does not become negative, vitality is left
    alone when a card that does not bypass spirit can be paid from spirit,
    and nothing else of the state changes. *)
Theorem cost_is_paid_in_full (c : Card) (gs : GameState) :
  0 ≤ cost c →
  let gs' := (apply_cost c gs).1 in
  spirit gs' + vitality gs' = spirit gs + vitality gs - cost c ∧
  spirit gs' ≤ spirit gs ∧ vitality gs' ≤ vitality gs ∧
  (0 ≤ spirit gs → 0 ≤ spirit gs') ∧
  (bypass_spirit c = false → cost c ≤ spirit gs → vitality gs' = vitality gs) ∧
  effects_frame gs gs' ∧ buffs gs' = buffs gs ∧ score gs' = score gs.
Proof.
  intros Hc. cbn zeta. unfold apply_cost, effects_frame.
  destruct (bypass_spirit c).
  { cbn. repeat split; try lia; try done; try by destruct gs. }
  repeat case_bool_decide; cbn; repeat split; try lia; try done; try by destruct gs.
Qed.

Lemma cost_is_paid_in_full_witness :
  0 ≤ cost (obj base_heap 3%nat) ∧
  let gs := set_spirit 3 fresh_state in
  let gs' := (apply_cost (obj base_heap 3%nat) gs).1 in
  spirit gs' + vitality gs' = spirit gs + vitality gs - cost (obj base_heap 3%nat) ∧
  spirit gs' ≤ spirit gs ∧ vitality gs' ≤ vitality gs ∧
  (0 ≤ spirit gs → 0 ≤ spirit gs') ∧
  (bypass_spirit (obj base_heap 3%nat) = false →
   cost (obj base_heap 3%nat) ≤ spirit gs → vitality gs' = vitality gs) ∧
  effects_frame gs gs' ∧ buffs gs' = buffs gs ∧ score gs' = score gs.
Proof.
  split; [by vm_compute|].
  apply (cost_is_paid_in_full (obj base_heap 3%nat) (set_spirit 3 fresh_state)).
  by vm_compute.
Defined.

Lemma apply_effect_frame (e : Effect) (gs : GameState) :
  match apply_effect e gs with
  | Ok (gs', _) => effects_frame gs gs' ∧ vitality gs' = vitality gs ∧
                   (∀ k, is_Some (buffs gs !! k) → is_Some (buffs gs' !! k))
  | Raise err => err = KeyError PLAYS ∧ buffs gs !! PLAYS = None ∧
                 type e = PLAY_COUNT
  | OutOfFuel => False
  end.
Proof.
  destruct e as [t v b]. unfold apply_effect. cbn [type value]. destruct t.
  - destruct (bool_decide _); cbn; (split; [unfold effects_frame; by destruct gs|done]).
  - cbn. split; [unfold effects_frame; by destruct gs|done].
  - cbn. split; [unfold effects_frame; by destruct gs|]. split; [done|].
    intros k Hk. by apply is_Some_insert.
  - cbn. split; [apply effects_frame_refl|done].
  - unfold getitem. destruct (buffs gs !! PLAYS) as [p|] eqn:Hp; cbn; [|done].
    split; [unfold effects_frame; by destruct gs|]. split; [done|].
    intros k Hk. by apply is_Some_insert.
  - destruct (_ && _); cbn; (split; [unfold effects_frame; by destruct gs|]);
      (split; [done|]); intros k Hk; by apply is_Some_insert.
  - cbn. split; [apply effects_frame_refl|done].
Qed.

Lemma effects_frame_config s s' :
  effects_frame s s' →
  hand s' = hand s ∧ draw_pile s' = draw_pile s ∧
  discard_pile s' = discard_pile s ∧ exhaust_pile s' = exhaust_pile s ∧
  log s' = log s ∧ current_round s' = current_round s ∧ deck s' = deck s ∧
  current_phase s' = current_phase s.
Proof. unfold effects_frame. intros ->. by repeat split. Qed.

Lemma run_effects_frame (es : list Effect) :
  ∀ gs entries,
    match run_effects es gs entries with
    | Ok (gs', _) => effects_frame gs gs' ∧ vitality gs' = vitality gs ∧
                     (∀ k, is_Some (buffs gs !! k) → is_Some (buffs gs' !! k))
    | Raise err => err = KeyError PLAYS ∧ buffs gs !! PLAYS = None ∧
                   Exists (λ e, type e = PLAY_COUNT) es
    | OutOfFuel => False
    end.
Proof.
  induction es as [|e es IH]; intros gs entries; cbn [run_effects].
  { split; [apply effects_frame_refl|]. by split. }
  pose proof (apply_effect_frame e gs) as He.
  destruct (apply_effect e gs) as [[gs1 l1]|err|]; cbn [mbind res_bind]; [| |done].
  - destruct He as (Hf1 & Hv1 & Hkeys). specialize (IH gs1 (entries ++ l1)).
    destruct (run_effects es gs1 (entries ++ l1)) as [[gs' l']|err|]; [| |done].
    + destruct IH as (Hf & Hv & Hk). split; [by eapply effects_frame_trans|].
      split; [congruence|]. intros k Hk'. by apply Hk, Hkeys.
    + destruct IH as (-> & Hnone & Hex). split; [done|]. split.
      * destruct (buffs gs !! PLAYS) eqn:Hp; [|done].
        destruct (Hkeys PLAYS) as [x Hx]; [by eexists|congruence].
      * by right.
  - destruct He as (-> & Hnone & Ht). split; [done|]. split; [done|]. by left.
Qed.

Lemma apply_cost_score (c : Card) (gs : GameState) :
  score (apply_cost c gs).1 = score gs.
Proof.
  unfold apply_cost. destruct (bypass_spirit c); [done|].
  by repeat case_bool_decide.
Qed.

(** Whatever the state, [apply_effects] returns or raises [KeyError] for the
    plays entry; it touches the counters only. *)
Lemma apply_effects_frame (c : Card) (gs : GameState) :
  match apply_effects c gs with
  | Ok (gs', _) =>
      effects_frame gs gs' ∧ vitality gs' = vitality (apply_cost c gs).1 ∧
      (∀ k, is_Some (buffs gs !! k) → is_Some (buffs gs' !! k))
  | Raise err =>
      err = KeyError PLAYS ∧ buffs gs !! PLAYS = None ∧
      Exists (λ e, type e = PLAY_COUNT) (effects c)
  | OutOfFuel => False
  end.
Proof.
  unfold apply_effects.
  destruct (apply_cost_frame c gs) as (Hf & Hb & _).
  destruct (apply_cost c gs) as [gs1 logs]. cbn [fst] in *.
  pose proof (run_effects_frame (effects c) gs1 logs) as Hr.
  destruct (run_effects (effects c) gs1 logs) as [[gs' l]|err|]; [| |done].
  - destruct Hr as (Hf' & Hv & Hk). split; [by eapply effects_frame_trans|].
    split; [done|]. intros k. rewrite <-Hb. apply Hk.
  - by rewrite <-Hb.
Qed.

Lemma apply_effect_adds (e : Effect) (gs gs' : GameState) (l : list string) :
  apply_effect e gs = Ok (gs', l) →
  spirit gs' = spirit gs + effect_total SPIRIT [e] ∧
  dict_get (buffs gs') FOCUS_KEY 0 =
    dict_get (buffs gs) FOCUS_KEY 0 + effect_total FOCUS [e] ∧
  dict_get (buffs gs') MOOD_KEY 0 =
    dict_get (buffs gs) MOOD_KEY 0 + effect_total MOOD [e] ∧
  dict_get (buffs gs') PLAYS 0 =
    dict_get (buffs gs) PLAYS 0 + effect_total PLAY_COUNT [e].
Proof.
  destruct keys_distinct as (H1 & H2 & H3).
  destruct e as [t v b]. unfold apply_effect, effect_total, dict_get.
  cbn [type value foldr].
  destruct t; repeat case_decide; try done;
    try (unfold getitem; destruct (buffs gs !! PLAYS) as [p|] eqn:Hp;
         cbn [mbind res_bind]; [|done]);
    try destruct (_ && _);
    intros [= <- <-]; cbn [buffs spirit set_buffs set_new_buffs set_score set_spirit];
    rewrite ?lookup_insert_eq, ?lookup_insert_ne by done; rewrite ?Hp;
    cbn; repeat split; lia.
Qed.

Lemma effect_total_cons t e es :
  effect_total t (e :: es) = effect_total t [e] + effect_total t es.
Proof. unfold effect_total. cbn. lia. Qed.

Lemma run_effects_adds (es : list Effect) :
  ∀ gs entries gs' l,
    run_effects es gs entries = Ok (gs', l) →
    spirit gs' = spirit gs + effect_total SPIRIT es ∧
    dict_get (buffs gs') FOCUS_KEY 0 =
      dict_get (buffs gs) FOCUS_KEY 0 + effect_total FOCUS es ∧
    dict_get (buffs gs') MOOD_KEY 0 =
      dict_get (buffs gs) MOOD_KEY 0 + effect_total MOOD es ∧
    dict_get (buffs gs') PLAYS 0 =
      dict_get (buffs gs) PLAYS 0 + effect_total PLAY_COUNT es.
Proof.
  induction es as [|e es IH]; intros gs entries gs' l H.
  { injection H as <- _. unfold effect_total. cbn. repeat split; lia. }
  cbn [run_effects] in H.
  destruct (apply_effect e gs) as [[gs1 l1]|err|] eqn:He; [|done..].
  cbn [mbind res_bind] in H. apply IH in H as (Hs & Hf & Hm & Hp).
  apply apply_effect_adds in He as (Hs1 & Hf1 & Hm1 & Hp1).
  rewrite !(effect_total_cons _ e es). repeat split; lia.
Qed.

(** The effects in binary64: frame and failures. *)
Lemma apply_effect_float_frame (e : Effect) (gs : GameState) :
  match apply_effect_float e gs with
  | Ok (gs', _) => effects_frame gs gs' ∧ vitality gs' = vitality gs ∧
                   (∀ k, is_Some (buffs gs !! k) → is_Some (buffs gs' !! k))
  | Raise err =>
      (err = KeyError PLAYS ∧ buffs gs !! PLAYS = None ∧ type e = PLAY_COUNT) ∨
      (err = OverflowError ∧ type e = DAMAGE)
  | OutOfFuel => False
  end.
Proof.
  pose proof (apply_effect_frame e gs) as Hf.
  destruct e as [t v b].
  destruct t;
    [|unfold apply_effect_float; cbn [type];
      destruct (apply_effect _ gs) as [[gs' l]|err|]; [done|by left|done]..].
  clear Hf. unfold apply_effect_float. cbn [type value].
  case_bool_decide.
  - pose proof (float_floor_times_1_5_outcome
                  (v + dict_get (buffs gs) FOCUS_KEY 0)) as Ho.
    destruct (float_floor_times_1_5 _) as [d|err|]; cbn [mbind res_bind];
      [|by right|done].
    split; [unfold effects_frame; by destruct gs|done].
  - split; [unfold effects_frame; by destruct gs|done].
Qed.

Lemma run_effects_float_frame (es : list Effect) :
  ∀ gs entries,
    match run_effects_float es gs entries with
    | Ok (gs', _) => effects_frame gs gs' ∧ vitality gs' = vitality gs ∧
                     (∀ k, is_Some (buffs gs !! k) → is_Some (buffs gs' !! k))
    | Raise err =>
        (err = KeyError PLAYS ∧ buffs gs !! PLAYS = None ∧
         Exists (λ e, type e = PLAY_COUNT) es) ∨
        (err = OverflowError ∧ Exists (λ e, type e = DAMAGE) es)
    | OutOfFuel => False
    end.
Proof.
  induction es as [|e es IH]; intros gs entries; cbn [run_effects_float].
  { split; [apply effects_frame_refl|]. by split. }
  pose proof (apply_effect_float_frame e gs) as He.
  destruct (apply_effect_float e gs) as [[gs1 l1]|err|]; cbn [mbind res_bind];
    [| |done].
  - destruct He as (Hf1 & Hv1 & Hkeys). specialize (IH gs1 (entries ++ l1)).
    destruct (run_effects_float es gs1 (entries ++ l1)) as [[gs' l']|err|];
      [| |done].
    + destruct IH as (Hf & Hv & Hk). split; [by eapply effects_frame_trans|].
      split; [congruence|]. intros k Hk'. by apply Hk, Hkeys.
    + destruct IH as [(-> & Hnone & Hex)|(-> & Hex)].
      * left. split; [done|]. split; [|by right].
        destruct (buffs gs !! PLAYS) eqn:Hp; [|done].
        destruct (Hkeys PLAYS) as [x Hx]; [by eexists|congruence].
      * right. split; [done|by right].
  - destruct He as [(-> & Hnone & Ht)|(-> & Ht)].
    + left. split; [done|]. split; [done|by left].
    + right. split; [done|by left].
Qed.

Lemma apply_effects_float_frame (c : Card) (gs : GameState) :
  match apply_effects_float c gs with
  | Ok (gs', _) =>
      effects_frame gs gs' ∧ vitality gs' = vitality (apply_cost c gs).1 ∧
      (∀ k, is_Some (buffs gs !! k) → is_Some (buffs gs' !! k))
  | Raise err =>
      (err = KeyError PLAYS ∧ buffs gs !! PLAYS = None ∧
       Exists (λ e, type e = PLAY_COUNT) (effects c)) ∨
      (err = OverflowError ∧ Exists (λ e, type e = DAMAGE) (effects c))
  | OutOfFuel => False
  end.
Proof.
  unfold apply_effects_float.
  destruct (apply_cost_frame c gs) as (Hf & Hb & _).
  destruct (apply_cost c gs) as [gs1 logs]. cbn [fst] in *.
  pose proof (run_effects_float_frame (effects c) gs1 logs) as Hr.
  destruct (run_effects_float (effects c) gs1 logs) as [[gs' l]|err|];
    [| |done].
  - destruct Hr as (Hf' & Hv & Hk). split; [by eapply effects_frame_trans|].
    split; [done|]. intros k. rewrite <-Hb. apply Hk.
  - by rewrite <-Hb.
Qed.

(** In the range where every product with 1.5 is a double, the effects in
    binary64 are the effects in exact arithmetic. *)
Lemma run_effects_float_exact (es : list Effect) :
  ∀ gs entries,
    damage_exact (dict_get (buffs gs) FOCUS_KEY 0)
                 (dict_get (buffs gs) MOOD_KEY 0) es →
    run_effects_float es gs entries = run_effects es gs entries.
Proof.
  induction es as [|e es IH]; intros gs entries Hex; [done|].
  cbn [run_effects_float run_effects].
  assert (He : apply_effect_float e gs = apply_effect e gs).
  { apply apply_effect_float_exact. intros Ht. cbn [damage_exact] in Hex.
    rewrite Ht in Hex. by destruct Hex. }
  rewrite He. destruct (apply_effect e gs) as [[gs1 l1]|err|] eqn:Ha; [|done..].
  cbn [mbind res_bind]. apply IH.
  apply apply_effect_adds in Ha as (_ & Hf & Hm & _).
  rewrite Hf, Hm. cbn [damage_exact] in Hex. unfold effect_total. cbn [foldr].
  destruct (type e); repeat case_decide; try done;
    rewrite ?Z.add_0_r; try done; by destruct Hex.
Qed.

Lemma apply_effects_float_exact (c : Card) (gs : GameState) :
  damage_exact (dict_get (buffs gs) FOCUS_KEY 0)
               (dict_get (buffs gs) MOOD_KEY 0) (effects c) →
  apply_effects_float c gs = apply_effects c gs.
Proof.
  intros Hex. unfold apply_effects_float, apply_effects.
  destruct (apply_cost_frame c gs) as (_ & Hb & _).
  destruct (apply_cost c gs) as [gs1 logs]. cbn [fst] in *.
  apply run_effects_float_exact. by rewrite Hb.
Qed.

(** X2: playing a card changes only score, spirit, vitality and the two
    buff dicts: the piles, the log, the round and the configuration are as
    before, vitality changes by the cost alone, and no buff entry is
    removed. There are two ways to fail: [KeyError] for the plays entry,
    raised when the card has an effect on the number of plays and the entry
    is missing, and [OverflowError], raised by a damage effect whose
    product with 1.5 is beyond the doubles. With the plays entry, or
    without an effect on it, and with every damage base in the range where
    its product with 1.5 is a double, the play returns. *)
Theorem playing_touches_only_the_counters (c : Card) (gs : GameState) :
  match apply_effects_float c gs with
  | Ok (gs', _) =>
      effects_frame gs gs' ∧ vitality gs' = vitality (apply_cost c gs).1 ∧
      (∀ k, is_Some (buffs gs !! k) → is_Some (buffs gs' !! k))
  | Raise err =>
      (err = KeyError PLAYS ∧ buffs gs !! PLAYS = None ∧
       Exists (λ e, type e = PLAY_COUNT) (effects c)) ∨
      (err = OverflowError ∧ Exists (λ e, type e = DAMAGE) (effects c))
  | OutOfFuel => False
  end ∧
  (is_Some (buffs gs !! PLAYS) ∨ Forall (λ e, type e ≠ PLAY_COUNT) (effects c) →
   damage_exact (dict_get (buffs gs) FOCUS_KEY 0)
                (dict_get (buffs gs) MOOD_KEY 0) (effects c) →
   ∃ gs' entries, apply_effects_float c gs = Ok (gs', entries)).
Proof.
  split; [apply apply_effects_float_frame|].
  intros Hcan Hex. rewrite (apply_effects_float_exact c gs Hex).
  pose proof (apply_effects_frame c gs) as H.
  destruct (apply_effects c gs) as [[gs' l]|err|]; [by eexists _, _| |done].
  destruct H as (_ & Hnone & Hx). destruct Hcan as [[p Hp]|Hall]; [congruence|].
  apply Exists_exists in Hx as (e & Hin & He).
  rewrite list.Forall_forall in Hall. destruct (Hall e); [|done].
  by apply list_elem_of_In.
Qed.

(** X3: the effects of a played card add up: after the play, spirit is the
    spirit left by the cost plus the sum of the card's spirit effects, and
    focus, mood and the number of plays (each read with default 0) have
    grown by the sums of the card's effects of their kind. *)
Theorem effects_add_up (c : Card) (gs gs' : GameState) (entries : list string) :
  apply_effects c gs = Ok (gs', entries) →
  spirit gs' = spirit (apply_cost c gs).1 + effect_total SPIRIT (effects c) ∧
  dict_get (buffs gs') FOCUS_KEY 0 =
    dict_get (buffs gs) FOCUS_KEY 0 + effect_total FOCUS (effects c) ∧
  dict_get (buffs gs') MOOD_KEY 0 =
    dict_get (buffs gs) MOOD_KEY 0 + effect_total MOOD (effects c) ∧
  dict_get (buffs gs') PLAYS 0 =
    dict_get (buffs gs) PLAYS 0 + effect_total PLAY_COUNT (effects c).
Proof.
  unfold apply_effects.
  destruct (apply_cost_frame c gs) as (_ & Hb & _).
  destruct (apply_cost c gs) as [gs1 logs]. cbn [fst] in *.
  intros H. apply run_effects_adds in H. by rewrite <-Hb.
Qed.

Lemma effects_add_up_witness :
  ∃ gs' entries,
    apply_effects (obj base_heap 2%nat) fresh_state = Ok (gs', entries) ∧
    spirit gs' = spirit (apply_cost (obj base_heap 2%nat) fresh_state).1 +
                 effect_total SPIRIT (effects (obj base_heap 2%nat)) ∧
    dict_get (buffs gs') FOCUS_KEY 0 =
      dict_get (buffs fresh_state) FOCUS_KEY 0 +
      effect_total FOCUS (effects (obj base_heap 2%nat)) ∧
    dict_get (buffs gs') MOOD_KEY 0 =
      dict_get (buffs fresh_state) MOOD_KEY 0 +
      effect_total MOOD (effects (obj base_heap 2%nat)) ∧
    dict_get (buffs gs') PLAYS 0 =
      dict_get (buffs fresh_state) PLAYS 0 +
      effect_total PLAY_COUNT (effects (obj base_heap 2%nat)).
Proof.
  eexists _, _. split; [vm_compute; reflexivity|].
  eapply effects_add_up. vm_compute. reflexivity.
Defined.

Lemma run_effects_score (es : list Effect) :
  ∀ gs entries gs' l,
    run_effects es gs entries = Ok (gs', l) →
    score gs' = score gs +
      card_damage (dict_get (buffs gs) FOCUS_KEY 0)
                  (dict_get (buffs gs) MOOD_KEY 0) es.
Proof.
  destruct keys_distinct as (H1 & H2 & H3).
  induction es as [|e es IH]; intros gs entries gs' l H.
  { injection H as <- _. cbn. lia. }
  cbn [run_effects] in H.
  destruct (apply_effect e gs) as [[gs1 l1]|err|] eqn:He; [|done..].
  cbn [mbind res_bind] in H. apply IH in H. rewrite H. clear H IH.
  destruct e as [t v b]. unfold apply_effect in He. cbn [type value] in He.
  cbn [card_damage type value].
  destruct t.
  - destruct (bool_decide (dict_get (buffs gs) MOOD_KEY 0 > 0)) eqn:Hm;
      injection He as <- _; cbn [score buffs set_score]; lia.
  - injection He as <- _. cbn. lia.
  - injection He as <- _. cbn [score buffs set_buffs]. unfold dict_get.
    rewrite lookup_insert_eq, lookup_insert_ne by done. cbn. lia.
  - injection He as <- _. lia.
  - unfold getitem in He. destruct (buffs gs !! PLAYS) as [p|] eqn:Hp; [|done].
    injection He as <- _. cbn [score buffs set_buffs]. unfold dict_get.
    rewrite !lookup_insert_ne by done. lia.
  - destruct (_ && _); injection He as <- _;
      cbn [score buffs set_buffs set_new_buffs]; unfold dict_get;
      rewrite lookup_insert_eq, lookup_insert_ne by done; cbn; lia.
  - injection He as <- _. lia.
Qed.

(** X4: the score a card adds is a function of its effects and of the focus
    and the mood at the time of the play: each damage effect scores its
    magnitude plus the focus, times 1.5 rounded down while mood is positive,
    with the focus and the mood as the card's earlier effects have left
    them. This holds while every damage base that meets a positive mood is
    in the range where its product with 1.5 is a double. *)
Theorem score_of_a_card (c : Card) (gs gs' : GameState) (entries : list string) :
  damage_exact (dict_get (buffs gs) FOCUS_KEY 0)
               (dict_get (buffs gs) MOOD_KEY 0) (effects c) →
  apply_effects_float c gs = Ok (gs', entries) →
  score gs' = score gs +
    card_damage (dict_get (buffs gs) FOCUS_KEY 0)
                (dict_get (buffs gs) MOOD_KEY 0) (effects c).
Proof.
  intros Hex. rewrite (apply_effects_float_exact c gs Hex).
  unfold apply_effects.
  destruct (apply_cost_frame c gs) as (_ & Hb & _).
  pose proof (apply_cost_score c gs) as Hs.
  destruct (apply_cost c gs) as [gs1 logs]. cbn [fst] in *.
  intros H. apply run_effects_score in H. by rewrite <-Hb, <-Hs.
Qed.

Lemma score_of_a_card_witness :
  ∃ gs' entries,
    apply_effects_float (obj base_heap 5%nat) fresh_state = Ok (gs', entries) ∧
    score gs' = score fresh_state +
      card_damage (dict_get (buffs fresh_state) FOCUS_KEY 0)
                  (dict_get (buffs fresh_state) MOOD_KEY 0)
                  (effects (obj base_heap 5%nat)) ∧
    card_damage (dict_get (buffs fresh_state) FOCUS_KEY 0)
                (dict_get (buffs fresh_state) MOOD_KEY 0)
                (effects (obj base_heap 5%nat)) = 9 + (9 + 2).
Proof.
  eexists _, _. split; [vm_compute; reflexivity|]. split; [|by vm_compute].
  eapply score_of_a_card; [|vm_compute; reflexivity].
  vm_compute. repeat split; by intros _.
Defined.

Lemma apply_effect_flag (t : EffectType) (v : Z) (b b' : bool) (gs : GameState) :
  apply_effect (mkEffect t v b) gs = apply_effect (mkEffect t v b') gs.
Proof. by destruct t. Qed.

Lemma run_effects_flags (es : list Effect) :
  ∀ es' gs entries,
    (λ e, (type e, value e)) <$> es' = (λ e, (type e, value e)) <$> es →
    run_effects es' gs entries = run_effects es gs entries.
Proof.
  induction es as [|[t v b] es IH]; intros [|[t' v' b'] es'] gs entries Heq;
    try done.
  rewrite !fmap_cons in Heq. injection Heq as -> -> Heq.
  cbn [run_effects]. rewrite (apply_effect_flag t v b' b).
  destruct (apply_effect _ gs) as [[gs1 l1]|err|]; cbn [mbind res_bind]; try done.
  by apply IH.
Qed.

(** X5: the [bypass_spirit] flag of an effect is never read: two cards that
    differ only in the flags of their effects give the same state and the
    same log entries, or the same exception, on every state. Only the flag
    of the card itself counts. *)
Theorem effect_flags_are_inert (c c' : Card) (gs : GameState) :
  same_but_effect_flags c c' → apply_effects c' gs = apply_effects c gs.
Proof.
  intros (Hn & Hc & Hb & Hx & He). unfold apply_effects.
  assert (Hcost : apply_cost c' gs = apply_cost c gs).
  { unfold apply_cost. by rewrite Hc, Hb. }
  rewrite Hcost. destruct (apply_cost c gs) as [gs1 logs].
  by apply run_effects_flags.
Qed.

Lemma effect_flags_are_inert_witness :
  same_but_effect_flags unflagged_card flagged_card ∧
  apply_effects flagged_card fresh_state = apply_effects unflagged_card fresh_state.
Proof.
  split; [by vm_compute|].
  apply (effect_flags_are_inert unflagged_card flagged_card fresh_state).
  by vm_compute.
Defined.

(** ** Building cards and the deck *)

Lemma EffectType_of_value_value (t : EffectType) :
  EffectType_of_value (EffectType_value t) = Ok t.
Proof. by destruct t. Qed.

Lemma EffectType_of_value_Ok (s : string) (t : EffectType) :
  EffectType_of_value s = Ok t → EffectType_value t = s.
Proof.
  unfold EffectType_of_value.
  destruct (list_find _ _) as [[i t']|] eqn:Hf; [|done].
  intros [= ->]. by apply list_find_Some in Hf as (_ & ? & _).
Qed.

Lemma EffectType_of_value_unknown (s : string) :
  ¬ known_kind s → EffectType_of_value s = Raise ValueError.
Proof.
  intros Hun. destruct (EffectType_of_value s) as [t|e|] eqn:H.
  - apply EffectType_of_value_Ok in H. destruct Hun. by exists t.
  - unfold EffectType_of_value in H. by destruct (list_find _ _) as [[? ?]|].
  - unfold EffectType_of_value in H. by destruct (list_find _ _) as [[? ?]|].
Qed.

Lemma build_effects_known (ds : list EffectDict) :
  Forall (λ e, known_kind (dict_type e)) ds →
  ∃ es, build_effects ds = Ok es ∧
        value <$> es = dict_value <$> ds ∧
        (λ e, EffectType_value (type e)) <$> es = dict_type <$> ds ∧
        effect_bypass_spirit <$> es =
          (λ d, default false (dict_bypass_spirit d)) <$> ds.
Proof.
  induction 1 as [|d ds [t Ht] _ (es & IH & Hv & Hk & Hb)]; [by exists []|].
  cbn [build_effects]. rewrite <-Ht, EffectType_of_value_value.
  cbn [mbind res_bind]. rewrite IH. cbn [mbind res_bind mret res_ret].
  eexists. split; [reflexivity|]. rewrite !fmap_cons. cbn. by rewrite Hv, Hk, Hb, Ht.
Qed.

Lemma build_effects_unknown (ds : list EffectDict) :
  Exists (λ e, ¬ known_kind (dict_type e)) ds →
  build_effects ds = Raise ValueError.
Proof.
  induction 1 as [d ds Hd|d ds _ IH]; cbn [build_effects].
  - by rewrite EffectType_of_value_unknown.
  - destruct (EffectType_of_value (dict_type d)) as [t|e|] eqn:Ht; cbn [mbind res_bind].
    + by rewrite IH.
    + unfold EffectType_of_value in Ht. destruct (list_find _ _) as [[? ?]|]; congruence.
    + unfold EffectType_of_value in Ht. by destruct (list_find _ _) as [[? ?]|].
Qed.

(** X6: effect kinds and their strings are in one-to-one correspondence,
    and a card is constructed exactly when every effect dict names a kind:
    then the card carries the name, cost, flags and priority given, the
    effects in order with their magnitudes, kinds and flags (absent flag:
    false), and [shuffle_random] 0; with a string that names no kind the
    constructor raises [ValueError]. *)
Theorem card_construction_fails_fast :
  (∀ t, EffectType_of_value (EffectType_value t) = Ok t) ∧
  (∀ s t, EffectType_of_value s = Ok t → EffectType_value t = s) ∧
  (∀ nm ds c b p x,
     Forall (λ e, known_kind (dict_type e)) ds →
     ∃ card, Card_init nm ds c b p x = Ok card ∧
       name card = nm ∧ cost card = c ∧ bypass_spirit card = b ∧
       shuffle_priority card = p ∧ exhaust card = x ∧
       shuffle_random card = 0%Qc ∧
       value <$> effects card = dict_value <$> ds ∧
       (λ e, EffectType_value (type e)) <$> effects card = dict_type <$> ds ∧
       effect_bypass_spirit <$> effects card =
         (λ d, default false (dict_bypass_spirit d)) <$> ds) ∧
  (∀ nm ds c b p x,
     Exists (λ e, ¬ known_kind (dict_type e)) ds →
     Card_init nm ds c b p x = Raise ValueError).
Proof.
  split; [apply EffectType_of_value_value|]. split; [apply EffectType_of_value_Ok|].
  split.
  - intros nm ds c b p x Hk. unfold Card_init.
    destruct (build_effects_known ds Hk) as (es & -> & Hv & Ht & Hb).
    cbn. eexists. split; [reflexivity|]. by repeat split.
  - intros nm ds c b p x Hun. unfold Card_init.
    by rewrite build_effects_unknown.
Qed.

Lemma card_construction_aux (d : CardData) :
  valid_data d →
  ∃ c, Card_init (data_name d) (data_effects d) (data_cost d)
         (bool_decide ("无视元气" ∈ default [] (data_traits d)))
         (default 0%Qc (data_shuffle_priority d))
         (bool_decide ("消耗" ∈ default [] (data_traits d))) = Ok c ∧
       name c = data_name d ∧ cost c = data_cost d.
Proof.
  intros Hd. unfold Card_init.
  destruct (build_effects_known _ Hd) as (es & -> & _). cbn. by eexists.
Qed.

Lemma add_cards_layout (cards : list CardData) :
  ∀ deck h, Forall valid_data cards →
    ∃ h', add_cards cards deck h =
            Ok (deck ++ deck_layout (next_ref h) cards, h') ∧
          next_ref h' = (next_ref h + length cards)%nat ∧
          (∀ r, (r < next_ref h)%nat → obj h' r = obj h r) ∧
          (∀ i d, cards !! i = Some d →
             name (obj h' (next_ref h + i)%nat) = data_name d ∧
             cost (obj h' (next_ref h + i)%nat) = data_cost d).
Proof.
  induction cards as [|d cards IH]; intros deck h Hv.
  { exists h. cbn. rewrite app_nil_r. split; [done|]. split; [lia|].
    split; [done|]. intros i d Hd. by rewrite lookup_nil in Hd. }
  apply list.Forall_cons in Hv as [Hd Hv]. cbn [add_cards].
  destruct (card_construction_aux d Hd) as (c & -> & Hn & Hc).
  cbn [mbind res_bind alloc].
  destruct (IH (deck ++ replicate (Z.to_nat (default 1 (data_count d))) (next_ref h))
               (mkHeap (S (next_ref h))
                  (λ r, if decide (r = next_ref h) then c else obj h r)) Hv)
    as (h' & -> & Hnext & Hold & Hnew).
  exists h'. cbn [next_ref obj deck_layout length] in *. split.
  { by rewrite <-(assoc_L (++)). }
  split; [lia|]. split.
  - intros r Hr. rewrite Hold by lia. case_decide; [lia|done].
  - intros [|i] d' Hd'.
    + injection Hd' as <-. rewrite Nat.add_0_r, Hold by lia.
      by rewrite decide_True.
    + cbn in Hd'. replace (next_ref h + S i)%nat with (S (next_ref h) + i)%nat by lia.
      by apply Hnew.
Qed.

Lemma Card_init_outcome nm ds c b p x :
  match Card_init nm ds c b p x with
  | Ok _ => Forall (λ e, known_kind (dict_type e)) ds
  | Raise e => e = ValueError
  | OutOfFuel => False
  end.
Proof.
  unfold Card_init.
  assert (H : match build_effects ds with
              | Ok _ => Forall (λ e, known_kind (dict_type e)) ds
              | Raise e => e = ValueError
              | OutOfFuel => False
              end).
  { induction ds as [|d ds IH]; cbn [build_effects]; [done|].
    destruct (EffectType_of_value (dict_type d)) as [t|e|] eqn:Ht; cbn [mbind res_bind].
    - destruct (build_effects ds) as [es|e|]; cbn [mbind res_bind mret res_ret]; [|done..].
      constructor; [|done]. exists t. by apply EffectType_of_value_Ok.
    - unfold EffectType_of_value in Ht. destruct (list_find _ _) as [[? ?]|]; congruence.
    - unfold EffectType_of_value in Ht. by destruct (list_find _ _) as [[? ?]|]. }
  by destruct (build_effects ds).
Qed.

Lemma add_cards_invalid (cards : list CardData) :
  ∀ deck h, Exists (λ d, ¬ valid_data d) cards →
    add_cards cards deck h = Raise ValueError.
Proof.
  induction cards as [|d cards IH]; intros deck h Hex; [by inversion Hex|].
  cbn [add_cards].
  pose proof (Card_init_outcome (data_name d) (data_effects d) (data_cost d)
    (bool_decide ("无视元气" ∈ default [] (data_traits d)))
    (default 0%Qc (data_shuffle_priority d))
    (bool_decide ("消耗" ∈ default [] (data_traits d)))) as Hc.
  destruct (Card_init _ _ _ _ _ _) as [c|e|]; cbn [mbind res_bind]; [|by subst|done].
  inversion Hex as [? ? Hd|? ? Hex']; subst; [done|].
  cbn [alloc]. by apply IH.
Qed.

Lemma CARDS_valid : Forall valid_data CARDS.
Proof.
  repeat constructor;
    first [by exists DAMAGE | by exists SPIRIT | by exists FOCUS | by exists MOOD].
Qed.

(** X7: the deck built from a list of entries whose effects all name a kind
    has the slots of entry [i] filled with one and the same new object, the
    [i]-th allocated, [count] times and in the order of the entries; the
    store grows by one object per entry, objects that were there are
    untouched, and the new objects carry the names and costs of their
    entries. With an entry that has an effect of unknown kind the
    construction raises [ValueError]. *)
Theorem build_deck_layout (cards : list CardData) (h : Heap) :
  (Forall valid_data cards →
   ∃ h', build_deck cards h = Ok (deck_layout (next_ref h) cards, h') ∧
         next_ref h' = (next_ref h + length cards)%nat ∧
         (∀ r, (r < next_ref h)%nat → obj h' r = obj h r) ∧
         (∀ i d, cards !! i = Some d →
            name (obj h' (next_ref h + i)%nat) = data_name d ∧
            cost (obj h' (next_ref h + i)%nat) = data_cost d)) ∧
  (Exists (λ d, ¬ valid_data d) cards →
   build_deck cards h = Raise ValueError).
Proof.
  split.
  - intros Hv. by destruct (add_cards_layout cards [] h Hv) as (h' & ? & ?); eauto.
  - apply add_cards_invalid.
Qed.

Lemma build_deck_layout_witness :
  ∃ h', create_base_deck empty_heap =
          Ok ([0; 0; 1; 1; 2; 2; 3; 4; 5; 6; 7]%nat, h') ∧
        next_ref h' = 8%nat.
Proof.
  destruct (proj1 (build_deck_layout CARDS empty_heap) CARDS_valid)
    as (h' & Hb & Hn & _).
  exists h'. split; [exact Hb|exact Hn].
Defined.

(** X8: [create_card_from_template] allocates one object, whose reference it
    returns, and leaves the others alone; the object has the name, the cost
    and the priority of the template, and its two flags say whether the
    traits hold the strings of [CardTrait.EXHAUST] and
    [CardTrait.BYPASS_SPIRIT] (no traits: neither). It is the object the
    loop of [create_base_deck] constructs for an entry with the same
    fields, and it fails as that loop does, with [ValueError]. *)
Theorem template_and_data_agree (t : CardTemplate) (h : Heap) :
  match create_card_from_template t h with
  | Ok (r, h') =>
      r = next_ref h ∧ next_ref h' = S (next_ref h) ∧
      (∀ r', r' ≠ r → obj h' r' = obj h r') ∧
      name (obj h' r) = template_name t ∧ cost (obj h' r) = template_cost t ∧
      shuffle_priority (obj h' r) = template_shuffle_priority t ∧
      (exhaust (obj h' r) = true ↔ "消耗" ∈ default [] (template_traits t)) ∧
      (bypass_spirit (obj h' r) = true ↔
         "无视元气" ∈ default [] (template_traits t)) ∧
      build_deck [data_of_template t] h =
        Ok (replicate (Z.to_nat (template_count t)) r, h')
  | Raise e =>
      e = ValueError ∧ build_deck [data_of_template t] h = Raise ValueError
  | OutOfFuel => False
  end.
Proof.
  unfold create_card_from_template, build_deck, data_of_template.
  cbn [add_cards data_name data_effects data_cost data_count data_traits
       data_shuffle_priority default].
  change (CardTrait_value BYPASS_SPIRIT) with "无视元气".
  change (CardTrait_value EXHAUST) with "消耗".
  pose proof (Card_init_outcome (template_name t) (template_effects t)
    (template_cost t)
    (bool_decide ("无视元气" ∈ default [] (template_traits t)))
    (template_shuffle_priority t)
    (bool_decide ("消耗" ∈ default [] (template_traits t)))) as Hc.
  destruct (Card_init _ _ _ _ _ _) as [c| |] eqn:Hinit; cbn [mbind res_bind];
    [|by subst|done].
  unfold Card_init in Hinit.
  destruct (build_effects (template_effects t)) as [es| |]; [|done..].
  injection Hinit as <-. cbn [alloc next_ref obj].
  rewrite decide_True by done.
  cbn [name cost shuffle_priority exhaust bypass_spirit].
  split; [done|]. split; [done|]. split.
  { intros r' Hr'. by rewrite decide_False. }
  repeat (split; [done|]).
  split; [apply bool_decide_eq_true|]. split; [apply bool_decide_eq_true|done].
Qed.

(** ** The first shuffle *)

Lemma insert_desc_Permutation key x l : insert_desc key x l ≡ₚ x :: l.
Proof.
  induction l as [|y l IH]; simpl; [done|].
  case_bool_decide; [|done]. rewrite IH. apply Permutation_swap.
Qed.

Lemma sort_desc_Permutation key l : sort_desc key l ≡ₚ l.
Proof.
  induction l as [|x l IH]; simpl; [done|].
  by rewrite insert_desc_Permutation, IH.
Qed.

Lemma insert_desc_sorted key x l :
  descending_by key l → descending_by key (insert_desc key x l).
Proof.
  induction l as [|z l IH]; simpl; [done|].
  intros [Hz Hl]. case_bool_decide as Hlt; simpl.
  - split; [|by apply IH]. apply list.Forall_forall. intros y Hy.
    apply insert_desc_elem in Hy as [->|Hy].
    + by apply Qclt_le_weak.
    + by eapply list.Forall_forall in Hz.
  - apply Qcnot_lt_le in Hlt. split; [|done].
    constructor; [done|]. eapply list.Forall_impl; [exact Hz|].
    intros y Hy. simpl in Hy. by eapply Qcle_trans.
Qed.

Lemma sort_desc_sorted key l : descending_by key (sort_desc key l).
Proof.
  induction l as [|x l IH]; simpl; [done|]. by apply insert_desc_sorted.
Qed.

Lemma descending_by_ext key key' l :
  (∀ r, r ∈ l → key r = key' r) → descending_by key l → descending_by key' l.
Proof.
  induction l as [|x l IH]; simpl; [done|]. intros Heq [Hx Hl]. split.
  - apply list.Forall_forall. intros y Hy.
    rewrite <-(Heq x), <-(Heq y) by (by constructor || by right).
    by eapply list.Forall_forall in Hx.
  - apply IH; [|done]. intros r Hr. apply Heq. by right.
Qed.

Lemma descending_by_random_alt h l :
  descending_by_random h l ↔ descending_by (λ r, shuffle_random (obj h r)) l.
Proof. induction l as [|x l IH]; simpl; [done|]. by rewrite IH. Qed.

Lemma descending_by_after key l1 x l2 y :
  descending_by key (l1 ++ x :: l2) → y ∈ l2 → (key y ≤ key x)%Qc.
Proof.
  induction l1 as [|z l1 IH]; simpl.
  - intros [Hx _] Hy. by eapply list.Forall_forall in Hx.
  - intros [_ Hl]. by apply IH.
Qed.

(** [random.random()] yields a number from 0 up to, not including, 1. *)
Lemma random_random_range (g : Rng) :
  (0 ≤ (random_random g).1)%Qc ∧ ((random_random g).1 < 1)%Qc.
Proof.
  unfold random_random. cbn [fst].
  pose proof (Z.mod_pos_bound (raw g (cursor g)) (2 ^ 53) ltac:(lia)) as Hb.
  set (z := raw g (cursor g) `mod` 2 ^ 53) in *.
  unfold Qcle, Qclt. cbn [this Q2Qc].
  rewrite !Qred_correct. unfold Qle, Qlt. cbn. split; lia.
Qed.

Lemma same_but_random_priority c c' :
  same_but_random c c' → shuffle_priority c' = shuffle_priority c.
Proof. unfold same_but_random. by intros [= ? ? ? ? ? ?]. Qed.

Lemma assign_randoms_facts (pile : list ref) :
  ∀ (h : Heap) (g : Rng),
    let h1 := (assign_randoms pile h g).1 in
    let g1 := (assign_randoms pile h g).2 in
    next_ref h1 = next_ref h ∧
    cursor g1 = (cursor g + length pile)%nat ∧ raw g1 = raw g ∧
    (∀ r, same_but_random (obj h r) (obj h1 r)) ∧
    (∀ r, r ∉ pile → obj h1 r = obj h r) ∧
    (∀ r, r ∈ pile →
       (0 ≤ shuffle_random (obj h1 r))%Qc ∧ (shuffle_random (obj h1 r) < 1)%Qc).
Proof.
  induction pile as [|c pile IH]; intros h g; cbn zeta.
  { cbn. split; [done|]. split; [lia|]. split; [done|]. split; [done|].
    split; [done|]. intros r Hr. by apply elem_of_nil in Hr. }
  cbn [assign_randoms]. pose proof (random_random_range g) as Hrange.
  destruct (random_random g) as [u g'] eqn:Hu. cbn [fst] in Hrange.
  assert (Hg' : cursor g' = S (cursor g) ∧ raw g' = raw g).
  { unfold random_random in Hu. by injection Hu as _ <-. }
  destruct (IH (modify c (set_shuffle_random u) h) g')
    as (Hn & Hc & Hrw & Hsame & Hout & Hin).
  destruct Hg' as [Hcur Hraw].
  split; [by rewrite Hn|]. split; [rewrite Hc, Hcur; simpl; lia|].
  split; [congruence|]. split; [|split].
  - intros r. specialize (Hsame r). unfold same_but_random in *.
    rewrite Hsame. cbn. case_decide; [by subst|done].
  - intros r Hnot. apply not_elem_of_cons in Hnot as [Hne Hnot].
    rewrite Hout by done. cbn. by rewrite decide_False.
  - intros r Hr. destruct (decide (r ∈ pile)) as [Hp|Hp]; [by apply Hin|].
    apply elem_of_cons in Hr as [->|?]; [|done].
    rewrite Hout by done. cbn. by rewrite decide_True.
Qed.

Lemma reset_priorities_facts (pile : list ref) :
  ∀ (h : Heap),
    let h' := reset_priorities pile h in
    next_ref h' = next_ref h ∧
    (∀ r, shuffle_random (obj h' r) = shuffle_random (obj h r)) ∧
    (∀ r, r ∉ pile → obj h' r = obj h r) ∧
    (∀ r, r ∈ pile → shuffle_priority (obj h' r) = 0%Qc) ∧
    (∀ r, shuffle_priority (obj h r) = 0%Qc → shuffle_priority (obj h' r) = 0%Qc).
Proof.
  unfold reset_priorities.
  induction pile as [|c pile IH]; intros h; cbn zeta.
  { cbn. repeat split; try done. intros r Hr. by apply elem_of_nil in Hr. }
  cbn [foldl].
  destruct (IH (modify c (set_shuffle_priority 0%Qc) h)) as (Hn & Hrand & Hout & Hin & Hz).
  split; [by rewrite Hn|]. split; [|split; [|split]].
  - intros r. rewrite Hrand. cbn. case_decide; [by subst|done].
  - intros r Hnot. apply not_elem_of_cons in Hnot as [Hne Hnot].
    rewrite Hout by done. cbn. by rewrite decide_False.
  - intros r Hr. destruct (decide (r ∈ pile)) as [Hp|Hp]; [by apply Hin|].
    apply elem_of_cons in Hr as [->|?]; [|done].
    apply Hz. cbn. by rewrite decide_True.
  - intros r H0. apply Hz. cbn. case_decide; [done|done].
Qed.

(** What the first shuffle does to the piles and to the cards. *)
Lemma GameState_init_shuffle (d : list ref) (nr ts mh sv : Z) (h : Heap) (g : Rng) :
  let gs := (GameState_init d nr ts mh sv h g).1.1 in
  let h' := (GameState_init d nr ts mh sv h g).1.2 in
  let g' := (GameState_init d nr ts mh sv h g).2 in
  draw_pile gs ≡ₚ d ∧ hand gs = [] ∧ discard_pile gs = [] ∧
  exhaust_pile gs = [] ∧ is_first_shuffle gs = false ∧
  descending_by
    (λ r, shuffle_random (obj h' r) + shuffle_priority (obj h r))%Qc
    (draw_pile gs) ∧
  (∀ r, r ∈ d → shuffle_priority (obj h' r) = 0%Qc ∧
                 (0 ≤ shuffle_random (obj h' r))%Qc ∧
                 (shuffle_random (obj h' r) < 1)%Qc) ∧
  (∀ r, r ∉ d → obj h' r = obj h r) ∧
  cursor g' = (cursor g + length d)%nat.
Proof.
  unfold GameState_init, _initialize_draw_pile. cbn [is_first_shuffle deck].
  pose proof (assign_randoms_facts d h g) as Ha. cbn zeta in Ha.
  destruct (assign_randoms d h g) as [h1 g1]. cbn [fst snd] in *.
  destruct Ha as (Hn & Hc & Hrw & Hsame & Hout & Hin).
  set (key := (λ x : ref, shuffle_random (obj h1 x) + shuffle_priority (obj h1 x))%Qc).
  pose proof (reset_priorities_facts (sort_desc key d) h1) as Hp. cbn zeta in Hp.
  destruct Hp as (Hn' & Hrand & Hout' & Hin' & _).
  pose proof (sort_desc_Permutation key d) as Hperm.
  split; [done|]. repeat (split; [done|]). split; [|split; [|split]].
  - eapply descending_by_ext; [|apply sort_desc_sorted].
    intros r _. unfold key. cbn. rewrite Hrand.
    by rewrite (same_but_random_priority _ _ (Hsame r)).
  - intros r Hr. split; [apply Hin'; by rewrite Hperm|].
    rewrite Hrand. by apply Hin.
  - intros r Hr. rewrite Hout' by (by rewrite Hperm). by apply Hout.
  - done.
Qed.

Lemma GameState_init_counters (d : list ref) (nr ts mh sv : Z) (h : Heap) (g : Rng) :
  let gs := (GameState_init d nr ts mh sv h g).1.1 in
  deck gs = d ∧ num_rounds gs = nr ∧ target_score gs = ts ∧
  max_hand_size gs = mh ∧ current_round gs = 1 ∧ score gs = 0 ∧ spirit gs = 0 ∧
  vitality gs = sv ∧ current_phase gs = TURN_START ∧
  buffs gs = initial_buffs ∧ new_buffs gs = initial_new_buffs ∧ log gs = [] ∧
  defense gs = None.
Proof.
  unfold GameState_init, _initialize_draw_pile. cbn [is_first_shuffle deck].
  by destruct (assign_randoms d h g).
Qed.

(** The cards of the base deck have priority 0 or -1. *)
Lemma base_priorities : shipped_priorities base_heap base_deck.
Proof.
  unfold shipped_priorities. apply list.Forall_forall.
  let d := eval vm_compute in base_deck in change base_deck with d.
  repeat (apply List.Forall_cons;
          [(left; apply Qc_is_canon; by vm_compute) ||
           (right; apply Qc_is_canon; by vm_compute)|]).
  apply List.Forall_nil.
Qed.

(** The sort key of the first shuffle in binary64. With priority -1 or 0
    the sum with a random number is a double and nothing is rounded: the
    smallest and the largest random number above 0 give -(1 − 2^-53) and
    -2^-53 with priority -1, and themselves with priority 0. With priority
    1 the sum is rounded: the largest random number gives 2, the key of a
    card with random number 0 and priority 2. *)
Example sort_key_in_binary64 :
  float_of_int (-1) = Ok float_minus_1 ∧ float_of_int 1 = Ok float_1 ∧
  float_of_int 2 = Ok float_2 ∧
  fadd (random_double 1) float_minus_1
    = S754_finite true 9007199254740991 (-53) ∧
  fadd (random_double (2 ^ 53 - 1)) float_minus_1
    = S754_finite true 4503599627370496 (-105) ∧
  fadd (random_double 1) float_zero = random_double 1 ∧
  fadd (random_double (2 ^ 53 - 1)) float_zero = random_double (2 ^ 53 - 1) ∧
  fadd (random_double (2 ^ 53 - 1)) float_1 = fadd (random_double 0) float_2.
Proof. by vm_compute. Qed.

(** X9: a new [GameState] over a deck whose cards have priority 0 or -1
    starts at round 1 with score 0, spirit 0, the vitality given, one play,
    focus and mood 0 and an empty log; hand, discard pile and exhaust pile
    are empty and the draw pile is the deck rearranged, in descending order
    of the fresh random number of each card plus the priority the card had
    before. Each object of the deck has drawn a number in [0, 1), one draw
    per deck slot, and has its priority set to 0 afterwards; objects
    outside the deck are untouched. *)
Theorem first_shuffle (d : list ref) (nr ts mh sv : Z) (h : Heap) (g : Rng) :
  shipped_priorities h d →
  let gs := (GameState_init d nr ts mh sv h g).1.1 in
  let h' := (GameState_init d nr ts mh sv h g).1.2 in
  let g' := (GameState_init d nr ts mh sv h g).2 in
  (deck gs = d ∧ num_rounds gs = nr ∧ target_score gs = ts ∧
   max_hand_size gs = mh ∧ current_round gs = 1 ∧ score gs = 0 ∧ spirit gs = 0 ∧
   vitality gs = sv ∧ current_phase gs = TURN_START ∧
   buffs gs = initial_buffs ∧ new_buffs gs = initial_new_buffs ∧ log gs = [] ∧
   defense gs = None) ∧
  draw_pile gs ≡ₚ d ∧ hand gs = [] ∧ discard_pile gs = [] ∧
  exhaust_pile gs = [] ∧ is_first_shuffle gs = false ∧
  descending_by
    (λ r, shuffle_random (obj h' r) + shuffle_priority (obj h r))%Qc
    (draw_pile gs) ∧
  (∀ r, r ∈ d → shuffle_priority (obj h' r) = 0%Qc ∧
                 (0 ≤ shuffle_random (obj h' r))%Qc ∧
                 (shuffle_random (obj h' r) < 1)%Qc) ∧
  (∀ r, r ∉ d → obj h' r = obj h r) ∧
  cursor g' = (cursor g + length d)%nat.
Proof.
  intros _.
  split; [apply GameState_init_counters|apply GameState_init_shuffle].
Qed.

Lemma first_shuffle_witness :
  draw_pile (GameState_init base_deck 9 90 5 30 base_heap rng_ones).1.1
    ≡ₚ base_deck ∧
  descending_by
    (λ r, shuffle_random
            (obj (GameState_init base_deck 9 90 5 30 base_heap rng_ones).1.2 r)
          + shuffle_priority (obj base_heap r))%Qc
    (draw_pile (GameState_init base_deck 9 90 5 30 base_heap rng_ones).1.1).
Proof.
  destruct (first_shuffle base_deck 9 90 5 30 base_heap rng_ones base_priorities)
    as (_ & Hperm & _ & _ & _ & _ & Hsorted & _).
  split; [exact Hperm|exact Hsorted].
Defined.

(** X10: in the first draw pile of a deck whose cards have priority 0 or
    -1, a card whose priority is lower by 1 than that of another card lies
    above it: no card [y] with priority(x) + 1 ≤ priority(y) comes after
    [x] in the pile, whose end is drawn first. A priority of -1 against 0
    thus puts a card on top whatever the random numbers. *)
Theorem lower_priority_is_drawn_first (d : list ref) (nr ts mh sv : Z)
    (h : Heap) (g : Rng) (l1 l2 : list ref) (x y : ref) :
  shipped_priorities h d →
  (shuffle_priority (obj h x) + 1 ≤ shuffle_priority (obj h y))%Qc →
  draw_pile (GameState_init d nr ts mh sv h g).1.1 = l1 ++ x :: l2 →
  y ∉ l2.
Proof.
  intros _ Hprio Hpile Hy.
  destruct (GameState_init_shuffle d nr ts mh sv h g)
    as (Hperm & _ & _ & _ & _ & Hsorted & Hin & _).
  cbn zeta in *. rewrite Hpile in Hsorted, Hperm.
  pose proof (descending_by_after _ _ _ _ _ Hsorted Hy) as Hle. cbn beta in Hle.
  assert (Hxd : x ∈ d).
  { rewrite <-Hperm. apply elem_of_app. right. by left. }
  assert (Hyd : y ∈ d).
  { rewrite <-Hperm. apply elem_of_app. right. by right. }
  destruct (Hin x Hxd) as (_ & _ & Hx1). destruct (Hin y Hyd) as (_ & Hy0 & _).
  set (h' := (GameState_init d nr ts mh sv h g).1.2) in *.
  apply (Qclt_not_le (shuffle_random (obj h' x) + shuffle_priority (obj h x))
                     (shuffle_random (obj h' y) + shuffle_priority (obj h y)));
    [|done].
  eapply Qclt_le_trans with (1 + shuffle_priority (obj h x))%Qc.
  - apply (proj2 (Qclt_minus_iff _ _)).
    replace (1 + shuffle_priority (obj h x) +
             - (shuffle_random (obj h' x) + shuffle_priority (obj h x)))%Qc
      with (1 + - shuffle_random (obj h' x))%Qc by ring.
    by apply (proj1 (Qclt_minus_iff _ _)).
  - eapply Qcle_trans; [|apply Qcplus_le_compat; [exact Hy0|apply Qcle_refl]].
    rewrite Qcplus_0_l, Qcplus_comm. exact Hprio.
Qed.

(** X11: the priority counts once. A second [GameState] over the same deck
    objects, as every episode of [train] after the first creates one, finds
    the priorities at 0: its draw pile is the deck in descending order of
    the random numbers alone. *)
Theorem priority_counts_once (d : list ref) (nr ts mh sv nr' ts' mh' sv' : Z)
    (h : Heap) (g : Rng) :
  let first := GameState_init d nr ts mh sv h g in
  let second := GameState_init d nr' ts' mh' sv' first.1.2 first.2 in
  draw_pile second.1.1 ≡ₚ d ∧
  descending_by_random second.1.2 (draw_pile second.1.1) ∧
  (∀ r, r ∈ d → shuffle_priority (obj second.1.2 r) = 0%Qc).
Proof.
  cbn zeta.
  destruct (GameState_init_shuffle d nr ts mh sv h g)
    as (_ & _ & _ & _ & _ & _ & Hin1 & _).
  cbn zeta in Hin1.
  set (h1 := (GameState_init d nr ts mh sv h g).1.2) in *.
  set (g1 := (GameState_init d nr ts mh sv h g).2) in *.
  destruct (GameState_init_shuffle d nr' ts' mh' sv' h1 g1)
    as (Hperm & _ & _ & _ & _ & Hsorted & Hin2 & _).
  cbn zeta in *. split; [done|]. split.
  - apply descending_by_random_alt.
    eapply descending_by_ext; [|exact Hsorted].
    intros r Hr. cbn beta. rewrite Hperm in Hr.
    destruct (Hin1 r Hr) as (-> & _). apply Qcplus_0_r.
  - intros r Hr. by destruct (Hin2 r Hr).
Qed.

Lemma lower_priority_is_drawn_first_witness :
  (shuffle_priority (obj base_heap 4%nat) + 1 ≤
     shuffle_priority (obj base_heap 0%nat))%Qc ∧
  draw_pile (GameState_init base_deck 9 90 5 30 base_heap rng_ones).1.1 =
    [0; 0; 1; 1; 2; 2; 3; 5; 6; 7]%nat ++ 4%nat :: [] ∧
  0%nat ∉ ([] : list ref).
Proof.
  split; [by vm_compute|]. split; [by vm_compute|].
  apply (lower_priority_is_drawn_first base_deck 9 90 5 30 base_heap rng_ones
           [0; 0; 1; 1; 2; 2; 3; 5; 6; 7]%nat [] 4%nat 0%nat);
    [exact base_priorities|by vm_compute..].
Defined.

(** ** Drawing *)

Lemma draw_loop_count (n : nat) :
  ∀ (s : GameState) (g : Rng),
    ∃ s' g' drawn,
      draw_loop n s g = Ok (s', g') ∧ piles_moved s s' ∧
      hand s' = hand s ++ drawn ∧
      length drawn = (n `min` (room s `min` stock s))%nat ∧
      drawn ++ draw_pile s' ++ discard_pile s' ≡ₚ draw_pile s ++ discard_pile s.
Proof.
  induction n as [|n IH]; intros s g.
  { exists s, g, []. split; [done|]. split; [apply piles_moved_refl|].
    split; [by rewrite app_nil_r|]. by split. }
  assert (Htail : ∀ s1 g1, draw_pile s1 ≠ [] → piles_moved s s1 →
            hand s1 = hand s → max_hand_size s1 = max_hand_size s →
            draw_pile s1 ++ discard_pile s1 ≡ₚ draw_pile s ++ discard_pile s →
            ∃ s' g' drawn,
              (if bool_decide (Z.of_nat (length (hand s1)) < max_hand_size s1)
               then '(card, rest) ← list_pop (draw_pile s1);
                    draw_loop n (set_hand (hand s1 ++ [card])
                                          (set_draw_pile rest s1)) g1
               else draw_loop n s1 g1) = Ok (s', g') ∧ piles_moved s s' ∧
              hand s' = hand s ++ drawn ∧
              length drawn = (S n `min` (room s `min` stock s))%nat ∧
              drawn ++ draw_pile s' ++ discard_pile s' ≡ₚ
                draw_pile s ++ discard_pile s).
  { intros s1 g1 Hne Hmv Hhand Hcap Hperm.
    assert (Hstock : stock s1 = stock s).
    { unfold stock. rewrite <-!length_app. by rewrite Hperm. }
    assert (Hpos : (0 < stock s)%nat).
    { rewrite <-Hstock. unfold stock. destruct (draw_pile s1); [done|simpl; lia]. }
    case_bool_decide as Hlt.
    - destruct (list_pop_nonempty _ Hne) as (a & rest & Hdp & ->).
      cbn [mbind res_bind].
      destruct (IH (set_hand (hand s1 ++ [a]) (set_draw_pile rest s1)) g1)
        as (s' & g' & drawn & -> & Hmv' & Hh' & Hlen' & Hperm').
      exists s', g', (a :: drawn). split; [done|]. split; [|split; [|split]].
      + eapply piles_moved_trans; [exact Hmv|].
        eapply piles_moved_trans; [|exact Hmv']. unfold piles_moved. by destruct s1.
      + rewrite Hh'. cbn [hand set_hand]. rewrite Hhand.
        by rewrite <-(assoc_L (++)).
      + cbn [length]. rewrite Hlen'. unfold room, stock in *.
        cbn [hand draw_pile discard_pile set_hand set_draw_pile max_hand_size].
        rewrite Hdp in Hstock. rewrite !length_app in *. cbn [length] in *.
        rewrite Hcap, Hhand in *. lia.
      + cbn [app]. rewrite Hperm'.
        cbn [draw_pile discard_pile set_hand set_draw_pile].
        rewrite <-Hperm, Hdp. rewrite <-!(assoc_L (++)). cbn [app].
        by rewrite <-Permutation_middle.
    - destruct (IH s1 g1) as (s' & g' & drawn & -> & Hmv' & Hh' & Hlen' & Hperm').
      exists s', g', drawn. split; [done|]. split; [|split; [|split]].
      + by eapply piles_moved_trans.
      + by rewrite Hh', Hhand.
      + rewrite Hlen', Hstock. unfold room in *. rewrite Hcap, Hhand in *.
        clear -Hlt. lia.
      + by rewrite Hperm'. }
  cbn [draw_loop]. case_bool_decide as Hdraw.
  - case_bool_decide as Hdisc.
    + exists s, g, []. split; [done|]. split; [apply piles_moved_refl|].
      split; [by rewrite app_nil_r|]. split; [|done].
      unfold stock. rewrite Hdraw, Hdisc. cbn [length]. lia.
    + destruct (random_shuffle (discard_pile s) g) as [pile g1] eqn:Hsh.
      pose proof (random_shuffle_Permutation (discard_pile s) g) as Hp.
      rewrite Hsh in Hp. cbn [fst] in Hp.
      apply Htail; cbn [hand draw_pile discard_pile set_draw_pile
                        set_discard_pile max_hand_size]; try done.
      * intros ->. apply Permutation_nil_l in Hp. by rewrite <-Hp in Hdisc.
      * apply nil_length_inv in Hdraw. rewrite Hdraw, Hp. cbn [app].
        by rewrite app_nil_r.
  - apply Htail; try done; [|apply piles_moved_refl].
    intros Hnil. by rewrite Hnil in Hdraw.
Qed.

Lemma draw_loop_top (n : nat) :
  ∀ (s : GameState) (g : Rng),
    (n ≤ length (draw_pile s))%nat →
    ∃ s' drawn,
      draw_loop n s g = Ok (s', g) ∧
      hand s' = hand s ++ drawn ∧
      draw_pile s = draw_pile s' ++ reverse drawn ∧
      discard_pile s' = discard_pile s.
Proof.
  induction n as [|n IH]; intros s g Hn.
  { exists s, []. by rewrite !app_nil_r. }
  cbn [draw_loop].
  rewrite bool_decide_eq_false_2 by lia.
  assert (Hne : draw_pile s ≠ [])
    by (intros Hnil; rewrite Hnil in Hn; simpl in Hn; lia).
  case_bool_decide as Hlt.
  - destruct (list_pop_nonempty _ Hne) as (a & rest & Hdp & ->).
    cbn [mbind res_bind].
    destruct (IH (set_hand (hand s ++ [a]) (set_draw_pile rest s)) g)
      as (s' & drawn & -> & Hh' & Hd' & Hx').
    { cbn. rewrite Hdp, length_app in Hn. simpl in Hn. lia. }
    exists s', (a :: drawn). split; [done|]. cbn in Hh', Hd', Hx'.
    split; [by rewrite Hh', <-(assoc_L (++))|]. split; [|done].
    by rewrite Hdp, Hd', reverse_cons, (assoc_L (++)).
  - destruct (IH s g ltac:(lia)) as (s' & drawn & -> & Hh' & Hd' & Hx').
    by exists s', drawn.
Qed.

(** X12: [draw_cards] never raises and adds to the end of the hand exactly
    min(count, room in the hand, cards in the draw and discard piles)
    cards, none for a negative count; the cards drawn and the two piles
    after the draw are the two piles before it, rearranged, and only the
    hand and these two piles change. *)
Theorem draw_cards_count (count : Z) (gs : GameState) (g : Rng) :
  ∃ gs' g' drawn,
    draw_cards count gs g = Ok (gs', g') ∧ piles_moved gs gs' ∧
    hand gs' = hand gs ++ drawn ∧
    length drawn = (Z.to_nat count `min` (room gs `min` stock gs))%nat ∧
    drawn ++ draw_pile gs' ++ discard_pile gs' ≡ₚ
      draw_pile gs ++ discard_pile gs.
Proof. apply draw_loop_count. Qed.

(** X13: while the draw pile holds at least as many cards as are asked
    for, the cards drawn, as many as are asked for and the hand has room
    for, are taken from its end, the last card first, the rest of the pile
    keeps its order, the discard pile is not touched and no random number
    is used. *)
Theorem draw_takes_from_the_top (count : Z) (gs : GameState) (g : Rng) :
  count ≤ Z.of_nat (length (draw_pile gs)) →
  ∃ gs' drawn,
    draw_cards count gs g = Ok (gs', g) ∧
    hand gs' = hand gs ++ drawn ∧
    length drawn = (Z.to_nat count `min` room gs)%nat ∧
    draw_pile gs = draw_pile gs' ++ reverse drawn ∧
    discard_pile gs' = discard_pile gs.
Proof.
  intros Hc.
  destruct (draw_loop_top (Z.to_nat count) gs g ltac:(lia))
    as (gs' & drawn & Hd & Hh & Hp & Hx).
  destruct (draw_loop_count (Z.to_nat count) gs g)
    as (gs2 & g2 & drawn2 & Hd2 & _ & Hh2 & Hlen & _).
  rewrite Hd in Hd2. injection Hd2 as <- <-.
  rewrite Hh in Hh2. apply app_inv_head in Hh2 as <-.
  exists gs', drawn. split; [exact Hd|]. split; [done|]. split; [|done].
  rewrite Hlen. unfold stock. lia.
Qed.

Lemma draw_takes_from_the_top_witness :
  3 ≤ Z.of_nat (length (draw_pile four_to_draw)) ∧
  ∃ gs' drawn,
    draw_cards 3 four_to_draw rng_ones = Ok (gs', rng_ones) ∧
    hand gs' = hand four_to_draw ++ drawn ∧
    length drawn = (Z.to_nat 3 `min` room four_to_draw)%nat ∧
    draw_pile four_to_draw = draw_pile gs' ++ reverse drawn ∧
    discard_pile gs' = discard_pile four_to_draw.
Proof.
  split; [by vm_compute|].
  apply (draw_takes_from_the_top 3 four_to_draw rng_ones). by vm_compute.
Defined.

(** ** TURN_START *)

Lemma handle_phase_start_draw (s : GameState) (g : Rng) (m : Z) :
  buffs s !! MOOD_KEY = Some m →
  (m > 0 → is_Some (new_buffs s !! MOOD_KEY)) →
  ∀ s' g', draw_cards 3 (begin_turn s) g = Ok (s', g') →
    ∃ entries,
      handle_phase_start s g = Ok (s', entries ++ ["抽取3张卡牌"], g').
Proof.
  intros Hm Hnew s' g' Hd.
  unfold handle_phase_start, getitem. rewrite Hm.
  cbn [mbind res_bind]. case_bool_decide as Hpos.
  - destruct (Hnew Hpos) as [b Hb]. rewrite Hb. cbn [mbind res_bind].
    destruct b; cbn [mbind res_bind buffs set_new_buffs set_buffs].
    + rewrite (begin_turn_new s m) in Hd by done. rewrite Hd.
      cbn [mbind res_bind]. by eexists.
    + rewrite (begin_turn_old s m) in Hd by done. rewrite Hd.
      cbn [mbind res_bind]. by eexists.
  - rewrite (begin_turn_none s m) in Hd by done.
    cbn [mbind res_bind buffs set_new_buffs set_buffs]. rewrite Hd.
    cbn [mbind res_bind]. by eexists.
Qed.

Lemma begin_turn_counters (s : GameState) :
  hand (begin_turn s) = hand s ∧ draw_pile (begin_turn s) = draw_pile s ∧
  discard_pile (begin_turn s) = discard_pile s ∧
  exhaust_pile (begin_turn s) = exhaust_pile s ∧
  max_hand_size (begin_turn s) = max_hand_size s ∧
  score (begin_turn s) = score s ∧ spirit (begin_turn s) = spirit s ∧
  vitality (begin_turn s) = vitality s ∧ log (begin_turn s) = log s ∧
  buffs (begin_turn s) !! PLAYS = Some 1 ∧
  buffs (begin_turn s) !! FOCUS_KEY = buffs s !! FOCUS_KEY.
Proof.
  destruct keys_distinct as (H1 & H2 & H3). unfold begin_turn.
  destruct (bool_decide _); [destruct (dict_get (new_buffs s) _ _)|];
    cbn [hand draw_pile discard_pile exhaust_pile max_hand_size score spirit
         vitality log buffs set_buffs set_new_buffs];
    rewrite ?lookup_insert_eq, ?lookup_insert_ne by done; by repeat split.
Qed.

(** X14: on a state that has the entries of [__init__] in its dicts,
    TURN_START returns; it deals min(3, room in the hand, cards in the draw
    and discard piles) cards to the end of the hand, sets the number of
    plays to 1 whatever was left of it, and leaves focus, score, spirit,
    vitality, the exhaust pile and the log of the state alone. Its last log
    entry says that 3 cards were drawn, however many were. *)
Theorem turn_start_deals_up_to_three (s : GameState) (g : Rng) :
  keys_present s →
  ∃ s' entries g' drawn,
    handle_phase_start s g = Ok (s', entries ++ ["抽取3张卡牌"], g') ∧
    hand s' = hand s ++ drawn ∧
    length drawn = (3 `min` (room s `min` stock s))%nat ∧
    drawn ++ draw_pile s' ++ discard_pile s' ≡ₚ draw_pile s ++ discard_pile s ∧
    exhaust_pile s' = exhaust_pile s ∧
    buffs s' !! PLAYS = Some 1 ∧
    buffs s' !! FOCUS_KEY = buffs s !! FOCUS_KEY ∧
    score s' = score s ∧ spirit s' = spirit s ∧ vitality s' = vitality s ∧
    log s' = log s.
Proof.
  intros ([m Hm] & _ & Hn).
  destruct (draw_loop_count 3 (begin_turn s) g)
    as (s' & g' & drawn & Hd & Hmv & Hh & Hlen & Hperm).
  destruct (handle_phase_start_draw s g m Hm (λ _, Hn) s' g' Hd) as [entries He].
  destruct (begin_turn_counters s)
    as (Bh & Bd & Bx & Be & Bm & Bs & Bsp & Bv & Bl & Bp & Bf).
  exists s', entries, g', drawn. split; [done|].
  assert (Hroom : room (begin_turn s) = room s) by (unfold room; by rewrite Bh, Bm).
  assert (Hstock : stock (begin_turn s) = stock s) by (unfold stock; by rewrite Bd, Bx).
  rewrite Hroom, Hstock, Bh, Bd, Bx in *.
  unfold piles_moved in Hmv. rewrite Hmv.
  cbn [hand exhaust_pile buffs score spirit vitality log set_hand set_draw_pile
       set_discard_pile].
  rewrite Hmv in Hh, Hperm.
  cbn [hand draw_pile discard_pile set_hand set_draw_pile set_discard_pile]
    in Hh, Hperm.
  by repeat split.
Qed.

Lemma fresh_keys (hand draw discard : list ref) :
  keys_present (state_with hand draw discard).
Proof. repeat split; by eexists. Qed.

Lemma turn_start_deals_up_to_three_witness :
  ∃ s' entries g' drawn,
    handle_phase_start four_to_draw rng_ones =
      Ok (s', entries ++ ["抽取3张卡牌"], g') ∧
    hand s' = hand four_to_draw ++ drawn ∧
    length drawn = (3 `min` (room four_to_draw `min` stock four_to_draw))%nat ∧
    drawn ++ draw_pile s' ++ discard_pile s' ≡ₚ
      draw_pile four_to_draw ++ discard_pile four_to_draw ∧
    exhaust_pile s' = exhaust_pile four_to_draw ∧
    buffs s' !! PLAYS = Some 1 ∧
    buffs s' !! FOCUS_KEY = buffs four_to_draw !! FOCUS_KEY ∧
    score s' = score four_to_draw ∧ spirit s' = spirit four_to_draw ∧
    vitality s' = vitality four_to_draw ∧ log s' = log four_to_draw.
Proof.
  apply (turn_start_deals_up_to_three four_to_draw rng_ones).
  exact (fresh_keys [] [0; 1; 2; 3]%nat []).
Defined.

(** ** No card is lost *)

Lemma cards_kept_refl s : cards_kept s s.
Proof. by split. Qed.

Lemma cards_kept_trans s1 s2 s3 :
  cards_kept s1 s2 → cards_kept s2 s3 → cards_kept s1 s3.
Proof. intros [H1 D1] [H2 D2]. split; [by rewrite H2|congruence]. Qed.

Lemma circulation_kept_refl s : circulation_kept s s.
Proof. by split. Qed.

Lemma circulation_kept_trans s1 s2 s3 :
  circulation_kept s1 s2 → circulation_kept s2 s3 → circulation_kept s1 s3.
Proof.
  intros (H1 & X1 & D1) (H2 & X2 & D2).
  split; [by rewrite H2|]. split; congruence.
Qed.

Lemma circulation_kept_cards s s' : circulation_kept s s' → cards_kept s s'.
Proof.
  intros (H & X & D). split; [|done].
  assert (Hsplit : ∀ t, everything t = all_cards t ++ exhaust_pile t).
  { intros t. unfold everything, all_cards. by rewrite <-!(assoc_L (++)). }
  by rewrite !Hsplit, H, X.
Qed.

Lemma piles_moved_circulation s s' :
  piles_moved s s' → all_cards s' ≡ₚ all_cards s → circulation_kept s s'.
Proof. unfold piles_moved. intros -> H. by split. Qed.

Lemma list_remove_Ok (x : ref) (l l' : list ref) :
  list_remove x l = Ok l' → l ≡ₚ x :: l'.
Proof.
  revert l'. induction l as [|y l IH]; intros l'; cbn [list_remove]; [done|].
  case_decide as Hy; [by intros [= <-]; subst|].
  destruct (list_remove x l) as [l''| |]; cbn; [|done..].
  intros [= <-]. rewrite (IH l'' eq_refl). apply Permutation_swap.
Qed.

Lemma handle_phase_start_kept (s : GameState) (g : Rng) :
  match handle_phase_start s g with
  | Ok (s', _, _) => circulation_kept s s'
  | _ => True
  end.
Proof.
  unfold handle_phase_start.
  destruct (getitem (buffs s) MOOD_KEY) as [mood|e|]; cbn [mbind res_bind]; [|done..].
  assert (Hdraw : ∀ s1 entries,
            circulation_kept s s1 →
            match
              '(s3, g') ← draw_cards 3 (set_buffs (<[PLAYS := 1]> (buffs s1)) s1) g;
              Ok (s3, entries ++ ["抽取3张卡牌"], g')
            with
            | Ok (s', _, _) => circulation_kept s s'
            | _ => True
            end).
  { intros s1 entries Hk.
    destruct (draw_cards_ok 3 (set_buffs (<[PLAYS := 1]> (buffs s1)) s1) g)
      as (s' & g' & -> & Hmv & Hperm & _).
    cbn [mbind res_bind]. eapply circulation_kept_trans; [exact Hk|].
    eapply circulation_kept_trans; [|by apply piles_moved_circulation].
    by split. }
  destruct (bool_decide (mood > 0)).
  - destruct (getitem (new_buffs s) MOOD_KEY) as [[|]|e|]; cbn [mbind res_bind];
      [| |done..]; apply Hdraw; by split.
  - cbn [mbind res_bind]. apply Hdraw. by split.
Qed.

Lemma apply_effects_kept (c : Card) (s : GameState) :
  match apply_effects c s with
  | Ok (s', _) => circulation_kept s s' ∧ hand s' = hand s ∧
                  discard_pile s' = discard_pile s
  | _ => True
  end.
Proof.
  pose proof (apply_effects_frame c s) as H.
  destruct (apply_effects c s) as [[s' l]| |]; [|done..].
  destruct H as (Hf & _). apply effects_frame_config in Hf
    as (Hh & Hd & Hx & He & _ & _ & Hdeck & _).
  split; [|done]. unfold circulation_kept, all_cards. by rewrite Hh, Hd, Hx.
Qed.

Lemma play_card_kept (h : Heap) (s : GameState) (choice : Z) :
  match play_card h s choice with
  | Ok s' => cards_kept s s'
  | _ => True
  end.
Proof.
  unfold play_card.
  destruct (list_index (hand s) (choice - 1)) as [c| |]; cbn [mbind res_bind];
    [|done..].
  pose proof (apply_effects_kept (obj h c) s) as He.
  destruct (apply_effects (obj h c) s) as [[s1 entries]| |]; cbn [mbind res_bind];
    [|done..].
  destruct He as (Hk & Hh & _). cbn [hand set_log].
  destruct (list_remove c (hand s1)) as [hand'| |] eqn:Hr; cbn [mbind res_bind];
    [|done..].
  apply list_remove_Ok in Hr.
  destruct (dispose_frame h c (set_hand hand' (set_log (log s1 ++ entries) s1)))
    as (Hb & _).
  destruct (getitem _ PLAYS) as [p| |]; cbn [mbind res_bind]; [|done..].
  eapply cards_kept_trans; [by apply circulation_kept_cards|].
  unfold cards_kept, everything, dispose. destruct (exhaust (obj h c));
    cbn [hand draw_pile discard_pile exhaust_pile deck set_buffs set_hand set_log
         set_exhaust_pile set_discard_pile]; (split; [|done]); rewrite Hr.
  - rewrite !(assoc_L (++)). by rewrite <-Permutation_cons_append.
  - rewrite <-(assoc_L (++) (discard_pile s1)). cbn [app].
    by rewrite <-!Permutation_middle.
Qed.

Lemma reset_for_new_round_kept (s : GameState) :
  circulation_kept s (reset_for_new_round s) ∧ hand (reset_for_new_round s) = [].
Proof.
  split; [|done]. unfold circulation_kept, all_cards, reset_for_new_round.
  cbn. split; [|done]. rewrite (assoc_L (++)). apply Permutation_app_comm.
Qed.

Section GameCards.
Context {Console : Type}.
Variable get_valid_input : Z → Z → Console → res Z * Console.

Lemma play_turn_kept (h : Heap) (fuel : nat) :
  ∀ (s : GameState) (c : Console),
    match play_turn get_valid_input fuel h s c with
    | Ok (s', _) => cards_kept s s'
    | _ => True
    end.
Proof.
  induction fuel as [|fuel IH]; intros s c; [done|]. cbn [play_turn].
  destruct (getitem (buffs s) PLAYS) as [p| |]; cbn [mbind res_bind]; [|done..].
  destruct (_ && _); [|apply cards_kept_refl].
  destruct (get_valid_input 1 (Z.of_nat (length (hand s))) c) as [[choice| |] c1];
    cbn [mbind res_bind]; [|done..].
  destruct (bool_decide (choice = 0)); [apply cards_kept_refl|].
  pose proof (play_card_kept h s choice) as Hp.
  destruct (play_card h s choice) as [s1| |]; cbn [mbind res_bind]; [|done..].
  specialize (IH s1 c1).
  destruct (play_turn get_valid_input fuel h s1 c1) as [[s' c']| |]; [|done..].
  by eapply cards_kept_trans.
Qed.

Lemma game_cycle_kept (plays_fuel : nat) (h : Heap) (s : GameState) (g : Rng)
    (c : Console) :
  match game_cycle get_valid_input plays_fuel h s g c with
  | Ok (s', _, _) => cards_kept s s' ∧ hand s' = []
  | _ => True
  end.
Proof.
  unfold game_cycle, handle_turn_start.
  pose proof (handle_phase_start_kept (set_current_phase TURN_START s) g) as H1.
  destruct (handle_phase_start (set_current_phase TURN_START s) g)
    as [[[s2 entries] g1]| |]; cbn [mbind res_bind]; [|done..].
  pose proof (play_turn_kept h plays_fuel
                (set_current_phase PLAYER_ACTION (set_log (log s2 ++ entries) s2)) c)
    as H2.
  destruct (play_turn _ _ _ _ _) as [[s4 c1]| |]; cbn [mbind res_bind]; [|done..].
  destruct (reset_for_new_round_kept (set_current_phase TURN_END s4)) as [H3 Hh].
  split; [|done].
  eapply cards_kept_trans; [apply circulation_kept_cards, H1|].
  eapply cards_kept_trans; [exact H2|].
  by apply circulation_kept_cards in H3.
Qed.

Lemma game_cycles_kept (plays_fuel : nat) (h : Heap) (n : nat) :
  ∀ (s : GameState) (g : Rng) (c : Console),
    match game_cycles get_valid_input n plays_fuel h s g c with
    | Ok (s', _, _) => cards_kept s s' ∧ (hand s = [] → hand s' = [])
    | _ => True
    end.
Proof.
  induction n as [|n IH]; intros s g c; cbn [game_cycles].
  { split; [apply cards_kept_refl|done]. }
  pose proof (game_cycle_kept plays_fuel h s g c) as H1.
  destruct (game_cycle _ _ _ _ _ _) as [[[s1 g1] c1]| |]; cbn [mbind res_bind];
    [|done..].
  specialize (IH s1 g1 c1).
  destruct (game_cycles _ _ _ _ _ _ _) as [[[s' g'] c']| |]; [|done..].
  destruct H1 as [H1 Hh1], IH as [H2 Hh2].
  split; [by eapply cards_kept_trans|auto].
Qed.

Lemma start_kept (plays_fuel : nat) (h : Heap) (fuel : nat) :
  ∀ (s : GameState) (g : Rng) (c : Console),
    match start get_valid_input fuel plays_fuel h s g c with
    | Ok (s', _, _) => cards_kept s s' ∧ (hand s = [] → hand s' = [])
    | _ => True
    end.
Proof.
  induction fuel as [|fuel IH]; intros s g c; cbn [start]; [done|].
  destruct (running s); [|split; [apply cards_kept_refl|done]].
  pose proof (game_cycle_kept plays_fuel h s g c) as H1.
  destruct (game_cycle _ _ _ _ _ _) as [[[s1 g1] c1]| |]; cbn [mbind res_bind];
    [|done..].
  specialize (IH s1 g1 c1).
  destruct (start _ _ _ _ _ _ _) as [[[s' g'] c']| |]; [|done..].
  destruct H1 as [H1 Hh1], IH as [H2 Hh2].
  split; [by eapply cards_kept_trans|auto].
Qed.
End GameCards.

Lemma train_play_kept (self : Agent) (h : Heap) (s : GameState) (prev : string)
    (c : ref) :
  match train_play self h s prev c with
  | Ok (_, s', _) => circulation_kept s s'
  | _ => True
  end.
Proof.
  unfold train_play.
  pose proof (apply_effects_kept (obj h c) s) as He.
  destruct (apply_effects (obj h c) s) as [[s1 entries]| |]; cbn [mbind res_bind];
    [|done..].
  destruct He as (Hk & Hh & Hd).
  destruct (update_q_table _ _ _ _ _ _) as [self1| |]; cbn [mbind res_bind];
    [|done..].
  destruct (list_remove c (hand s1)) as [hand'| |] eqn:Hr; cbn [mbind res_bind];
    [|done..].
  apply list_remove_Ok in Hr.
  destruct (getitem _ PLAYS) as [p| |]; cbn [mbind res_bind]; [|done..].
  eapply circulation_kept_trans; [exact Hk|].
  unfold circulation_kept, all_cards.
  cbn [hand draw_pile discard_pile exhaust_pile deck set_buffs set_hand
       set_discard_pile].
  split; [|done]. rewrite Hr. rewrite !(assoc_L (++)).
  by rewrite <-Permutation_cons_append.
Qed.

Lemma train_plays_kept (h : Heap) (fuel : nat) :
  ∀ (self : Agent) (s : GameState) (g : Rng) (prev : string),
    match train_plays fuel self h s g prev with
    | Ok (_, s', _) => circulation_kept s s'
    | _ => True
    end.
Proof.
  induction fuel as [|fuel IH]; intros self s g prev; [done|]. cbn [train_plays].
  destruct (getitem (buffs s) PLAYS) as [p| |]; cbn [mbind res_bind]; [|done..].
  destruct (_ && _); [|apply circulation_kept_refl].
  destruct (choose_card self h s g) as [[[[c|] self1] g1]| |]; cbn [mbind res_bind];
    [| apply circulation_kept_refl |done..].
  pose proof (train_play_kept self1 h s prev c) as Hp.
  destruct (train_play self1 h s prev c) as [[[self2 s1] key]| |];
    cbn [mbind res_bind]; [|done..].
  specialize (IH self2 s1 g1 key).
  destruct (train_plays fuel self2 h s1 g1 key) as [[[self' s'] g']| |]; [|done..].
  by eapply circulation_kept_trans.
Qed.

Lemma train_cycle_kept (plays_fuel : nat) (self : Agent) (h : Heap)
    (s : GameState) (g : Rng) :
  match train_cycle plays_fuel self h s g with
  | Ok (_, s', _) => circulation_kept s s' ∧ hand s' = []
  | _ => True
  end.
Proof.
  unfold train_cycle.
  pose proof (handle_phase_start_kept (set_current_phase TURN_START s) g) as H1.
  destruct (handle_phase_start (set_current_phase TURN_START s) g)
    as [[[s2 entries] g1]| |]; cbn [mbind res_bind]; [|done..].
  pose proof (train_plays_kept h plays_fuel self
                (set_current_phase PLAYER_ACTION s2) g1
                (get_state_key (set_current_phase PLAYER_ACTION s2))) as H2.
  destruct (train_plays _ _ _ _ _ _) as [[[self1 s4] g2]| |]; cbn [mbind res_bind];
    [|done..].
  destruct (reset_for_new_round_kept (set_current_phase TURN_END s4)) as [H3 Hh].
  split; [|done].
  eapply circulation_kept_trans; [exact H1|].
  eapply circulation_kept_trans; [exact H2|]. exact H3.
Qed.

Lemma train_cycles_kept (plays_fuel : nat) (h : Heap) (n : nat) :
  ∀ (self : Agent) (s : GameState) (g : Rng),
    match train_cycles n plays_fuel self h s g with
    | Ok (_, s', _) => circulation_kept s s' ∧ (hand s = [] → hand s' = [])
    | _ => True
    end.
Proof.
  induction n as [|n IH]; intros self s g; cbn [train_cycles].
  { split; [apply circulation_kept_refl|done]. }
  pose proof (train_cycle_kept plays_fuel self h s g) as H1.
  destruct (train_cycle _ _ _ _ _) as [[[self1 s1] g1]| |]; cbn [mbind res_bind];
    [|done..].
  specialize (IH self1 s1 g1).
  destruct (train_cycles _ _ _ _ _ _) as [[[self' s'] g']| |]; [|done..].
  destruct H1 as [H1 Hh1], IH as [H2 Hh2].
  split; [by eapply circulation_kept_trans|auto].
Qed.

Lemma train_rounds_kept (plays_fuel : nat) (h : Heap) (fuel : nat) :
  ∀ (self : Agent) (s : GameState) (g : Rng),
    match train_rounds fuel plays_fuel self h s g with
    | Ok (_, s', _) => circulation_kept s s' ∧ (hand s = [] → hand s' = [])
    | _ => True
    end.
Proof.
  induction fuel as [|fuel IH]; intros self s g; cbn [train_rounds]; [done|].
  destruct (running s); [|split; [apply circulation_kept_refl|done]].
  pose proof (train_cycle_kept plays_fuel self h s g) as H1.
  destruct (train_cycle _ _ _ _ _) as [[[self1 s1] g1]| |]; cbn [mbind res_bind];
    [|done..].
  specialize (IH self1 s1 g1).
  destruct (train_rounds _ _ _ _ _ _) as [[[self' s'] g']| |]; [|done..].
  destruct H1 as [H1 Hh1], IH as [H2 Hh2].
  split; [by eapply circulation_kept_trans|auto].
Qed.

Lemma GameState_init_piles (d : list ref) (nr ts mh sv : Z) (h : Heap) (g : Rng) :
  let gs := (GameState_init d nr ts mh sv h g).1.1 in
  draw_pile gs ≡ₚ d ∧ hand gs = [] ∧ discard_pile gs = [] ∧
  exhaust_pile gs = [] ∧ deck gs = d.
Proof.
  destruct (GameState_init_shuffle d nr ts mh sv h g) as (H1 & H2 & H3 & H4 & _).
  destruct (GameState_init_counters d nr ts mh sv h g) as (H5 & _).
  cbn zeta in *. by repeat (split; [done|]).
Qed.

Lemma cards_kept_deck_in_piles (d : list ref) (s0 s : GameState) :
  draw_pile s0 ≡ₚ d → hand s0 = [] → discard_pile s0 = [] →
  exhaust_pile s0 = [] → deck s0 = d →
  cards_kept s0 s → hand s = [] → deck_in_piles d s.
Proof.
  intros Hd Hh Hx He Hdeck [Hperm Hdk] Hhand. split; [done|]. split; [|congruence].
  unfold everything in Hperm. rewrite Hhand, Hh, Hx, He in Hperm.
  cbn [app] in Hperm. by rewrite Hperm, app_nil_r.
Qed.

(** X15: no card is lost or doubled by the game. After any number of
    passes through the main loop of [Game.start], and when the loop has
    ended, the hand is empty and the draw pile, the discard pile and the
    exhaust pile together hold the slots of the deck, rearranged; this
    holds for every console, also one that answers outside the range
    asked for. *)
Theorem no_card_is_lost {Console : Type}
    (get_valid_input : Z → Z → Console → res Z * Console)
    (plays_fuel : nat) (d : list ref) (nr ts mh sv : Z)
    (h : Heap) (g : Rng) (c : Console) :
  (∀ n s g' c',
     play_game_cycles get_valid_input n plays_fuel d nr ts mh sv h g c
       = Ok (s, g', c') →
     deck_in_piles d s) ∧
  (∀ fuel s g' c',
     play_game get_valid_input fuel plays_fuel d nr ts mh sv h g c
       = Ok (s, g', c') →
     deck_in_piles d s).
Proof.
  unfold play_game, play_game_cycles.
  destruct (GameState_init_piles d nr ts mh sv h g) as (Hd & Hh & Hx & He & Hdeck).
  cbn zeta in *.
  destruct (GameState_init d nr ts mh sv h g) as [[s0 h1] g1]. cbn [fst] in *.
  split.
  - intros n s g' c' Hs.
    pose proof (game_cycles_kept get_valid_input plays_fuel h1 n s0 g1 c) as H.
    rewrite Hs in H. destruct H as [Hk Hhand].
    by apply (cards_kept_deck_in_piles d s0 s); auto.
  - intros fuel s g' c' Hs.
    pose proof (start_kept get_valid_input plays_fuel h1 fuel s0 g1 c) as H.
    rewrite Hs in H. destruct H as [Hk Hhand].
    by apply (cards_kept_deck_in_piles d s0 s); auto.
Qed.

Lemma no_card_is_lost_witness :
  ∃ s g' c',
    play_game always_first 10 4 base_deck 9 90 5 30 base_heap rng_ones tt
      = Ok (s, g', c') ∧
    exhaust_pile s = [4; 5]%nat ∧ deck_in_piles base_deck s.
Proof.
  eexists _, _, _. split; [vm_compute; reflexivity|]. split; [by vm_compute|].
  eapply (proj2 (no_card_is_lost always_first 4 base_deck 9 90 5 30 base_heap
                   rng_ones tt) 10%nat).
  vm_compute. reflexivity.
Defined.

(** X16: the trainer never exhausts a card. After any number of passes
    through the outer loop of [train], and at the end of an episode, the
    exhaust pile and the hand are empty and the draw pile and the discard
    pile together hold every slot of the agent's deck: a card with the
    exhaust flag that was played is back in circulation. *)
Theorem trainer_never_exhausts (plays_fuel : nat) (self : Agent) (h : Heap)
    (g : Rng) (nr ts : Z) :
  (∀ n self' s h' g',
     train_episode_cycles n plays_fuel self h g nr ts = Ok (self', s, h', g') →
     exhaust_pile s = [] ∧ deck_in_piles (agent_deck self) s) ∧
  (∀ fuel self' s h' g',
     train_episode fuel plays_fuel self h g nr ts = Ok (self', s, h', g') →
     exhaust_pile s = [] ∧ deck_in_piles (agent_deck self) s).
Proof.
  unfold train_episode, train_episode_cycles.
  destruct (GameState_init_piles (agent_deck self) nr ts 5 30 h g)
    as (Hd & Hh & Hx & He & Hdeck).
  cbn zeta in *.
  destruct (GameState_init (agent_deck self) nr ts 5 30 h g) as [[s0 h1] g1].
  cbn [fst] in *. split.
  - intros n self' s h' g'.
    pose proof (train_cycles_kept plays_fuel h1 n self s0 g1) as H.
    destruct (train_cycles n plays_fuel self h1 s0 g1) as [[[self1 s1] g2]| |];
      cbn [mbind res_bind]; [|done..].
    intros [= <- <- <- <-]. destruct H as [Hk Hhand].
    split; [destruct Hk as (_ & -> & _); done|].
    by apply (cards_kept_deck_in_piles _ s0 s1); auto using circulation_kept_cards.
  - intros fuel self' s h' g'.
    pose proof (train_rounds_kept plays_fuel h1 fuel self s0 g1) as H.
    destruct (train_rounds fuel plays_fuel self h1 s0 g1) as [[[self1 s1] g2]| |];
      cbn [mbind res_bind]; [|done..].
    intros [= <- <- <- <-]. destruct H as [Hk Hhand].
    split; [destruct Hk as (_ & -> & _); done|].
    by apply (cards_kept_deck_in_piles _ s0 s1); auto using circulation_kept_cards.
Qed.

Lemma trainer_never_exhausts_witness :
  ∃ self' s h' g',
    train_episode 10 4 (Agent_init base_deck) base_heap rng_ones 9 90
      = Ok (self', s, h', g') ∧
    exhaust_pile s = [] ∧ deck_in_piles (agent_deck (Agent_init base_deck)) s.
Proof.
  destruct (train_episode_ok 10 4 (Agent_init base_deck) base_heap rng_ones 9 90
              empty_table_rows ltac:(vm_compute; lia) ltac:(lia))
    as (self' & s & h' & g' & H & _).
  exists self', s, h', g'. split; [exact H|].
  exact (proj2 (trainer_never_exhausts 4 (Agent_init base_deck) base_heap
                  rng_ones 9 90) 10%nat self' s h' g' H).
Defined.

(** ** Playing a card *)

Lemma list_index_lookup {A} (l : list A) (choice : Z) :
  1 ≤ choice ≤ Z.of_nat (length l) →
  ∃ x, l !! Z.to_nat (choice - 1) = Some x ∧ list_index l (choice - 1) = Ok x.
Proof.
  intros Hc. unfold list_index.
  cbv zeta. rewrite (bool_decide_eq_false_2 (choice - 1 < 0)) by lia.
  rewrite bool_decide_eq_true_2 by lia.
  destruct (lookup_lt_is_Some_2 l (Z.to_nat (choice - 1))) as [x Hx]; [lia|].
  exists x. by rewrite Hx.
Qed.

Lemma list_remove_first (x : ref) (l : list ref) :
  ∀ i, l !! i = Some x → x ∉ take i l → list_remove x l = Ok (delete i l).
Proof.
  induction l as [|y l IH]; intros [|i] Hi Hnot; try done.
  - injection Hi as ->. cbn. by rewrite decide_True.
  - cbn in Hi, Hnot. apply not_elem_of_cons in Hnot as [Hne Hnot].
    cbn [list_remove]. rewrite decide_False by done.
    by rewrite (IH i Hi Hnot).
Qed.

(** What a play does, in exact arithmetic. *)
Lemma play_card_outcome (h : Heap) (gs : GameState) (choice : Z) :
  keys_present gs → 1 ≤ choice ≤ Z.of_nat (length (hand gs)) →
  ∃ c gs1 entries gs',
    hand gs !! Z.to_nat (choice - 1) = Some c ∧
    apply_effects (obj h c) gs = Ok (gs1, entries) ∧
    play_card h gs choice = Ok gs' ∧
    hand gs ≡ₚ c :: hand gs' ∧
    (c ∉ take (Z.to_nat (choice - 1)) (hand gs) →
     hand gs' = delete (Z.to_nat (choice - 1)) (hand gs)) ∧
    draw_pile gs' = draw_pile gs ∧
    (if exhaust (obj h c)
     then exhaust_pile gs' = exhaust_pile gs ++ [c] ∧
          discard_pile gs' = discard_pile gs
     else discard_pile gs' = discard_pile gs ++ [c] ∧
          exhaust_pile gs' = exhaust_pile gs) ∧
    log gs' = log gs ++ entries ∧
    score gs' = score gs1 ∧ spirit gs' = spirit gs1 ∧
    vitality gs' = vitality gs1 ∧ new_buffs gs' = new_buffs gs1 ∧
    buffs gs' = <[PLAYS := dict_get (buffs gs1) PLAYS 0 - 1]> (buffs gs1).
Proof.
  intros Hk Hc. unfold play_card.
  destruct (list_index_lookup (hand gs) choice Hc) as (c & Hlook & ->).
  cbn [mbind res_bind].
  destruct (apply_effects_ok (obj h c) gs Hk) as (gs1 & entries & He & Hk1 & Hf).
  rewrite He. cbn [mbind res_bind hand set_log].
  apply effects_frame_config in Hf as (Hh & Hd & Hx & Hex & Hlog & _).
  assert (Hin : c ∈ hand gs1).
  { rewrite Hh. by eapply list_elem_of_lookup_2. }
  destruct (list_remove_ok c (hand gs1) Hin) as (hand' & Hr & _ & Hperm).
  rewrite Hr. cbn [mbind res_bind].
  destruct (dispose_frame h c (set_hand hand' (set_log (log gs1 ++ entries) gs1)))
    as (Hb & Hn & Hhd & _).
  destruct Hk1 as (_ & [p Hp] & _).
  unfold getitem. rewrite Hb. cbn [buffs set_hand set_log]. rewrite Hp.
  cbn [mbind res_bind].
  exists c, gs1, entries. eexists. split; [done|]. split; [done|].
  split; [reflexivity|].
  cbn [hand draw_pile discard_pile exhaust_pile log score spirit vitality buffs
       new_buffs set_buffs].
  rewrite ?Hhd, ?Hb, ?Hn. cbn [hand buffs new_buffs set_hand set_log].
  split; [by rewrite <-Hh|]. split.
  { intros Hnot. rewrite <-Hh in Hnot, Hlook |- *.
    rewrite (list_remove_first c (hand gs1) _ Hlook Hnot) in Hr.
    by injection Hr as <-. }
  unfold dispose, dict_get. rewrite Hp.
  destruct (exhaust (obj h c));
    cbn [hand draw_pile discard_pile exhaust_pile log score spirit vitality
         set_hand set_log set_exhaust_pile set_discard_pile default];
    rewrite ?Hd, ?Hx, ?Hex, ?Hlog; done.
Qed.

Lemma play_card_float_exact (h : Heap) (gs : GameState) (choice : Z) (c : ref) :
  1 ≤ choice → hand gs !! Z.to_nat (choice - 1) = Some c →
  damage_exact (dict_get (buffs gs) FOCUS_KEY 0)
               (dict_get (buffs gs) MOOD_KEY 0) (effects (obj h c)) →
  play_card_float h gs choice = play_card h gs choice.
Proof.
  intros Hc Hlook Hex. unfold play_card_float, play_card.
  assert (Hrange : 1 ≤ choice ≤ Z.of_nat (length (hand gs))).
  { apply lookup_lt_Some in Hlook. lia. }
  destruct (list_index_lookup (hand gs) choice Hrange) as (x & Hx & ->).
  rewrite Hlook in Hx. injection Hx as <-. cbn [mbind res_bind].
  by rewrite (apply_effects_float_exact (obj h c) gs Hex).
Qed.

(** X17: playing the card with number [choice] in a hand of that many
    cards or more, on a state with the entries of [__init__] in its dicts,
    returns, provided every damage base of the card that meets a positive
    mood is in the range where its product with 1.5 is a double. The card
    is the one at position [choice - 1]; its cost and effects are applied
    and their entries appended to the log; the hand loses one occurrence of
    the card, the first one, which is the chosen position unless the same
    object lies earlier in the hand; the card is appended to the exhaust
    pile if it has the exhaust flag and to the discard pile otherwise, the
    other pile and the draw pile staying as they are; and the number of
    plays left after the effects drops by 1. *)
Theorem played_card_leaves_the_hand (h : Heap) (gs : GameState) (choice : Z) :
  keys_present gs → 1 ≤ choice ≤ Z.of_nat (length (hand gs)) →
  (∀ c, hand gs !! Z.to_nat (choice - 1) = Some c →
        damage_exact (dict_get (buffs gs) FOCUS_KEY 0)
                     (dict_get (buffs gs) MOOD_KEY 0) (effects (obj h c))) →
  ∃ c gs1 entries gs',
    hand gs !! Z.to_nat (choice - 1) = Some c ∧
    apply_effects_float (obj h c) gs = Ok (gs1, entries) ∧
    play_card_float h gs choice = Ok gs' ∧
    hand gs ≡ₚ c :: hand gs' ∧
    (c ∉ take (Z.to_nat (choice - 1)) (hand gs) →
     hand gs' = delete (Z.to_nat (choice - 1)) (hand gs)) ∧
    draw_pile gs' = draw_pile gs ∧
    (if exhaust (obj h c)
     then exhaust_pile gs' = exhaust_pile gs ++ [c] ∧
          discard_pile gs' = discard_pile gs
     else discard_pile gs' = discard_pile gs ++ [c] ∧
          exhaust_pile gs' = exhaust_pile gs) ∧
    log gs' = log gs ++ entries ∧
    score gs' = score gs1 ∧ spirit gs' = spirit gs1 ∧
    vitality gs' = vitality gs1 ∧ new_buffs gs' = new_buffs gs1 ∧
    buffs gs' = <[PLAYS := dict_get (buffs gs1) PLAYS 0 - 1]> (buffs gs1).
Proof.
  intros Hk Hc Hex.
  destruct (play_card_outcome h gs choice Hk Hc)
    as (c & gs1 & entries & gs' & Hlook & He & Hp & Hrest).
  exists c, gs1, entries, gs'. split; [done|].
  rewrite (apply_effects_float_exact (obj h c) gs (Hex c Hlook)).
  rewrite (play_card_float_exact h gs choice c) by (lia || auto).
  done.
Qed.

Lemma played_card_leaves_the_hand_witness :
  ∃ c gs1 entries gs',
    hand exhaust_in_hand !! Z.to_nat (1 - 1) = Some c ∧
    apply_effects_float (obj base_heap c) exhaust_in_hand = Ok (gs1, entries) ∧
    play_card_float base_heap exhaust_in_hand 1 = Ok gs' ∧
    hand exhaust_in_hand ≡ₚ c :: hand gs' ∧
    (c ∉ take (Z.to_nat (1 - 1)) (hand exhaust_in_hand) →
     hand gs' = delete (Z.to_nat (1 - 1)) (hand exhaust_in_hand)) ∧
    draw_pile gs' = draw_pile exhaust_in_hand ∧
    (if exhaust (obj base_heap c)
     then exhaust_pile gs' = exhaust_pile exhaust_in_hand ++ [c] ∧
          discard_pile gs' = discard_pile exhaust_in_hand
     else discard_pile gs' = discard_pile exhaust_in_hand ++ [c] ∧
          exhaust_pile gs' = exhaust_pile exhaust_in_hand) ∧
    log gs' = log exhaust_in_hand ++ entries ∧
    score gs' = score gs1 ∧ spirit gs' = spirit gs1 ∧
    vitality gs' = vitality gs1 ∧ new_buffs gs' = new_buffs gs1 ∧
    buffs gs' = <[PLAYS := dict_get (buffs gs1) PLAYS 0 - 1]> (buffs gs1).
Proof.
  apply (played_card_leaves_the_hand base_heap exhaust_in_hand 1).
  - exact (fresh_keys [3]%nat [] []).
  - by vm_compute.
  - intros c Hc. vm_compute in Hc. injection Hc as <-.
    vm_compute. repeat split; by intros _.
Defined.

(** X18: on the same state and the same card, when the play of the trainer
    and the play of the interactive game both return, the states they leave
    differ in two things only: the trainer's state has the log as it was
    before the play, and a card with the exhaust flag lies on its discard
    pile, the exhaust pile being as before the play. For a card without the
    flag the two states agree on all but the log. *)
Theorem trainer_differs_in_exhaust_and_log (self self' : FloatAgent) (h : Heap)
    (gs s s' : GameState) (prev key : string) (choice : Z) (c : ref) :
  1 ≤ choice → hand gs !! Z.to_nat (choice - 1) = Some c →
  play_card_float h gs choice = Ok s →
  train_play_float self h gs prev c = Ok (self', s', key) →
  s' = as_trained h gs c s.
Proof.
  intros Hc Hlook Hgame Htrain.
  assert (Hrange : 1 ≤ choice ≤ Z.of_nat (length (hand gs))).
  { apply lookup_lt_Some in Hlook. lia. }
  destruct (list_index_lookup (hand gs) choice Hrange) as (x & Hx & Hidx).
  rewrite Hlook in Hx. injection Hx as <-.
  unfold play_card_float in Hgame. rewrite Hidx in Hgame.
  cbn [mbind res_bind] in Hgame. unfold train_play_float in Htrain.
  pose proof (apply_effects_float_frame (obj h c) gs) as Hf.
  destruct (apply_effects_float (obj h c) gs) as [[gs1 entries]| |]; [|done..].
  destruct Hf as (Hf & _).
  cbn [mbind res_bind hand set_log] in Hgame, Htrain.
  destruct (update_q_table_float _ _ _ _ _ _) as [a| |]; [|done..].
  cbn [mbind res_bind] in Htrain.
  destruct (list_remove c (hand gs1)) as [hand'| |]; [|done..].
  cbn [mbind res_bind] in Hgame, Htrain.
  apply effects_frame_config in Hf as (_ & _ & _ & Hex & Hlog & _).
  unfold as_trained. unfold dispose in Hgame.
  destruct (exhaust (obj h c));
    cbn [buffs set_discard_pile set_exhaust_pile set_hand set_log] in Hgame, Htrain;
    (destruct (getitem (buffs gs1) PLAYS) as [p| |]; [|done..]);
    cbn [mbind res_bind] in Hgame, Htrain;
    injection Hgame as <-; injection Htrain as _ <- _;
    rewrite <-Hlog, <-?Hex; by destruct gs1.
Qed.

Lemma trainer_differs_in_exhaust_and_log_witness :
  ∃ s self' s' key,
    play_card_float base_heap exhaust_in_hand 1 = Ok s ∧
    train_play_float (FloatAgent_init base_deck) base_heap exhaust_in_hand
                     "k" 3%nat = Ok (self', s', key) ∧
    s' = as_trained base_heap exhaust_in_hand 3%nat s.
Proof.
  destruct (play_card_float base_heap exhaust_in_hand 1)
    as [s| |] eqn:Hgame; [|vm_compute in Hgame; discriminate..].
  destruct (train_play_float (FloatAgent_init base_deck) base_heap
              exhaust_in_hand "k" 3%nat)
    as [[[self' s'] key]| |] eqn:Htrain; [|vm_compute in Htrain; discriminate..].
  exists s, self', s', key. split; [reflexivity|]. split; [reflexivity|].
  apply (trainer_differs_in_exhaust_and_log (FloatAgent_init base_deck) self'
           base_heap exhaust_in_hand s s' "k" key 1 3%nat);
    [by vm_compute|by vm_compute|exact Hgame|exact Htrain].
Defined.

(** ** The round boundary *)

Lemma within_round_refl s : within_round s s.
Proof. by split. Qed.

Lemma within_round_trans s1 s2 s3 :
  within_round s1 s2 → within_round s2 s3 → within_round s1 s3.
Proof. intros [R1 L1] [R2 L2]. split; [congruence|by etrans]. Qed.

Lemma handle_phase_start_within (s : GameState) (g : Rng) :
  match handle_phase_start s g with
  | Ok (s', _, _) => current_round s' = current_round s ∧ log s' = log s
  | _ => True
  end.
Proof.
  unfold handle_phase_start.
  destruct (getitem (buffs s) MOOD_KEY) as [mood|e|]; cbn [mbind res_bind]; [|done..].
  assert (Hdraw : ∀ s1 entries,
            current_round s1 = current_round s ∧ log s1 = log s →
            match
              '(s3, g') ← draw_cards 3 (set_buffs (<[PLAYS := 1]> (buffs s1)) s1) g;
              Ok (s3, entries ++ ["抽取3张卡牌"], g')
            with
            | Ok (s', _, _) => current_round s' = current_round s ∧ log s' = log s
            | _ => True
            end).
  { intros s1 entries [Hr Hl].
    destruct (draw_cards_ok 3 (set_buffs (<[PLAYS := 1]> (buffs s1)) s1) g)
      as (s' & g' & -> & Hmv & _).
    cbn [mbind res_bind]. unfold piles_moved in Hmv. rewrite Hmv. by cbn. }
  destruct (bool_decide (mood > 0)).
  - destruct (getitem (new_buffs s) MOOD_KEY) as [[|]|e|]; cbn [mbind res_bind];
      [| |done..]; by apply Hdraw.
  - cbn [mbind res_bind]. by apply Hdraw.
Qed.

Lemma play_card_within (h : Heap) (s : GameState) (choice : Z) :
  match play_card h s choice with
  | Ok s' => within_round s s'
  | _ => True
  end.
Proof.
  unfold play_card.
  destruct (list_index (hand s) (choice - 1)) as [c| |]; cbn [mbind res_bind];
    [|done..].
  pose proof (apply_effects_frame (obj h c) s) as He.
  destruct (apply_effects (obj h c) s) as [[s1 entries]| |]; cbn [mbind res_bind];
    [|done..].
  destruct He as (Hf & _). apply effects_frame_config in Hf
    as (_ & _ & _ & _ & Hlog & Hround & _).
  cbn [hand set_log].
  destruct (list_remove c (hand s1)) as [hand'| |]; cbn [mbind res_bind]; [|done..].
  destruct (getitem _ PLAYS) as [p| |]; cbn [mbind res_bind]; [|done..].
  unfold within_round, dispose. destruct (exhaust (obj h c));
    cbn [current_round log set_buffs set_exhaust_pile set_discard_pile set_hand
         set_log]; rewrite Hlog; (split; [done|]); by apply prefix_app_r.
Qed.

Section RoundBoundary.
Context {Console : Type}.
Variable get_valid_input : Z → Z → Console → res Z * Console.

Lemma play_turn_within (h : Heap) (fuel : nat) :
  ∀ (s : GameState) (c : Console),
    match play_turn get_valid_input fuel h s c with
    | Ok (s', _) => within_round s s'
    | _ => True
    end.
Proof.
  induction fuel as [|fuel IH]; intros s c; [done|]. cbn [play_turn].
  destruct (getitem (buffs s) PLAYS) as [p| |]; cbn [mbind res_bind]; [|done..].
  destruct (_ && _); [|apply within_round_refl].
  destruct (get_valid_input 1 (Z.of_nat (length (hand s))) c) as [[choice| |] c1];
    cbn [mbind res_bind]; [|done..].
  destruct (bool_decide (choice = 0)); [apply within_round_refl|].
  pose proof (play_card_within h s choice) as Hp.
  destruct (play_card h s choice) as [s1| |]; cbn [mbind res_bind]; [|done..].
  specialize (IH s1 c1).
  destruct (play_turn get_valid_input fuel h s1 c1) as [[s' c']| |]; [|done..].
  by eapply within_round_trans.
Qed.

Lemma game_cycle_boundary (plays_fuel : nat) (h : Heap) (s : GameState) (g : Rng)
    (c : Console) :
  match game_cycle get_valid_input plays_fuel h s g c with
  | Ok (s', _, _) =>
      round_closed s s' ∧ log s `prefix_of` log s' ∧
      list.last (log s') =
        Some ("回合 " +:+ fmt (current_round s) +:+ " 结束")
  | _ => True
  end.
Proof.
  unfold game_cycle, handle_turn_start.
  pose proof (handle_phase_start_within (set_current_phase TURN_START s) g) as H1.
  destruct (handle_phase_start (set_current_phase TURN_START s) g)
    as [[[s2 entries] g1]| |]; cbn [mbind res_bind]; [|done..].
  pose proof (play_turn_within h plays_fuel
                (set_current_phase PLAYER_ACTION (set_log (log s2 ++ entries) s2)) c)
    as H2.
  destruct (play_turn _ _ _ _ _) as [[s4 c1]| |]; cbn [mbind res_bind]; [|done..].
  destruct H1 as [R1 L1], H2 as [R2 L2]. cbn in R1, L1, R2, L2.
  unfold round_closed, handle_turn_end, reset_for_new_round.
  cbn [buffs defense hand current_phase current_round log set_current_round
       set_log set_defense set_buffs set_hand set_discard_pile set_current_phase].
  rewrite lookup_insert_eq, R2, R1, last_snoc. split; [done|].
  split; [|done]. apply prefix_app_r.
  etrans; [|exact L2]. rewrite L1. by apply prefix_app_r.
Qed.
End RoundBoundary.

Lemma train_play_within (self : Agent) (h : Heap) (s : GameState) (prev : string)
    (c : ref) :
  match train_play self h s prev c with
  | Ok (_, s', _) => current_round s' = current_round s ∧ log s' = log s
  | _ => True
  end.
Proof.
  unfold train_play.
  pose proof (apply_effects_frame (obj h c) s) as He.
  destruct (apply_effects (obj h c) s) as [[s1 entries]| |]; cbn [mbind res_bind];
    [|done..].
  destruct He as (Hf & _). apply effects_frame_config in Hf
    as (_ & _ & _ & _ & Hlog & Hround & _).
  destruct (update_q_table _ _ _ _ _ _) as [self1| |]; cbn [mbind res_bind];
    [|done..].
  destruct (list_remove c (hand s1)) as [hand'| |]; cbn [mbind res_bind]; [|done..].
  destruct (getitem _ PLAYS) as [p| |]; cbn [mbind res_bind]; [|done..].
  by cbn.
Qed.

Lemma train_plays_within (h : Heap) (fuel : nat) :
  ∀ (self : Agent) (s : GameState) (g : Rng) (prev : string),
    match train_plays fuel self h s g prev with
    | Ok (_, s', _) => current_round s' = current_round s ∧ log s' = log s
    | _ => True
    end.
Proof.
  induction fuel as [|fuel IH]; intros self s g prev; [done|]. cbn [train_plays].
  destruct (getitem (buffs s) PLAYS) as [p| |]; cbn [mbind res_bind]; [|done..].
  destruct (_ && _); [|done].
  destruct (choose_card self h s g) as [[[[c|] self1] g1]| |]; cbn [mbind res_bind];
    [| done |done..].
  pose proof (train_play_within self1 h s prev c) as Hp.
  destruct (train_play self1 h s prev c) as [[[self2 s1] key]| |];
    cbn [mbind res_bind]; [|done..].
  specialize (IH self2 s1 g1 key).
  destruct (train_plays fuel self2 h s1 g1 key) as [[[self' s'] g']| |]; [|done..].
  destruct Hp as [Hr Hl], IH as [Hr' Hl']. split; congruence.
Qed.

Lemma train_cycle_boundary (plays_fuel : nat) (self : Agent) (h : Heap)
    (s : GameState) (g : Rng) :
  match train_cycle plays_fuel self h s g with
  | Ok (_, s', _) => round_closed s s' ∧ log s' = log s
  | _ => True
  end.
Proof.
  unfold train_cycle.
  pose proof (handle_phase_start_within (set_current_phase TURN_START s) g) as H1.
  destruct (handle_phase_start (set_current_phase TURN_START s) g)
    as [[[s2 entries] g1]| |]; cbn [mbind res_bind]; [|done..].
  pose proof (train_plays_within h plays_fuel self
                (set_current_phase PLAYER_ACTION s2) g1
                (get_state_key (set_current_phase PLAYER_ACTION s2))) as H2.
  destruct (train_plays _ _ _ _ _ _) as [[[self1 s4] g2]| |]; cbn [mbind res_bind];
    [|done..].
  destruct H1 as [R1 L1], H2 as [R2 L2]. cbn in R1, L1, R2, L2.
  unfold round_closed, reset_for_new_round.
  cbn [buffs defense hand current_phase current_round log set_current_round
       set_log set_defense set_buffs set_hand set_discard_pile set_current_phase].
  rewrite lookup_insert_eq, R2, R1, L2, L1. done.
Qed.

(** X19: focus lasts one round. Every pass through the main loop of the
    game or of the trainer that returns ends with focus 0, defense 0, an
    empty hand (the cards left in it are on the discard pile), the phase
    TURN_END and the round counter one higher. The game has only appended
    to its log, the last entry naming the round that has ended; the trainer
    has not written to the log. *)
Theorem focus_lasts_one_round :
  (∀ (Console : Type) (get_valid_input : Z → Z → Console → res Z * Console)
     plays_fuel h s g c s' g' c',
     game_cycle get_valid_input plays_fuel h s g c = Ok (s', g', c') →
     round_closed s s' ∧ log s `prefix_of` log s' ∧
     list.last (log s') = Some ("回合 " +:+ fmt (current_round s) +:+ " 结束")) ∧
  (∀ plays_fuel self h s g self' s' g',
     train_cycle plays_fuel self h s g = Ok (self', s', g') →
     round_closed s s' ∧ log s' = log s).
Proof.
  split.
  - intros Console giv pf h s g c s' g' c' H.
    pose proof (game_cycle_boundary giv pf h s g c) as Hb. by rewrite H in Hb.
  - intros pf self h s g self' s' g' H.
    pose proof (train_cycle_boundary pf self h s g) as Hb. by rewrite H in Hb.
Qed.

Lemma focus_lasts_one_round_witness :
  ∃ s' g' c',
    game_cycle always_first 5 base_heap four_to_draw rng_ones tt = Ok (s', g', c') ∧
    round_closed four_to_draw s' ∧ log four_to_draw `prefix_of` log s' ∧
    list.last (log s') =
      Some ("回合 " +:+ fmt (current_round four_to_draw) +:+ " 结束").
Proof.
  eexists _, _, _. split; [vm_compute; reflexivity|].
  eapply (proj1 focus_lasts_one_round unit always_first 5%nat base_heap
            four_to_draw rng_ones tt).
  vm_compute. reflexivity.
Defined.

(** ** The agent *)

Lemma foldl_best_spec (key : ref → Qc) (l : list ref) :
  ∀ x, let m := foldl (λ best y, if bool_decide (key best < key y)%Qc then y
                                 else best) x l in
       ∃ l1 l2, x :: l = l1 ++ m :: l2 ∧
                (∀ y, y ∈ l1 → (key y < key m)%Qc) ∧
                (∀ y, y ∈ l2 → (key y ≤ key m)%Qc).
Proof.
  induction l as [|z l IH]; intros x; cbn zeta; cbn [foldl].
  { exists [], []. split; [done|]. split; intros y Hy; by apply elem_of_nil in Hy. }
  case_bool_decide as Hlt.
  - destruct (IH z) as (l1 & l2 & Heq & Hlt1 & Hle2). cbn zeta in *.
    set (m := foldl _ z l) in *.
    exists (x :: l1), l2. split; [by rewrite Heq|]. split; [|done].
    intros y [->|Hy]%elem_of_cons; [|by apply Hlt1].
    destruct l1 as [|z' l1].
    + injection Heq as Hz _. by rewrite <-Hz.
    + injection Heq as <- _. eapply Qclt_trans; [exact Hlt|]. apply Hlt1. by left.
  - apply Qcnot_lt_le in Hlt.
    destruct (IH x) as (l1 & l2 & Heq & Hlt1 & Hle2). cbn zeta in *.
    set (m := foldl _ x l) in *.
    destruct l1 as [|x' l1].
    + injection Heq as Hx Hl. exists [], (z :: l2). rewrite <-Hx in *.
      split; [by rewrite Hl|]. split; [done|].
      intros y [->|Hy]%elem_of_cons; [done|by apply Hle2].
    + injection Heq as <- Hl. exists (x :: z :: l1), l2.
      split; [by rewrite Hl|]. split; [|done].
      intros y [->|[->|Hy]%elem_of_cons]%elem_of_cons.
      * apply Hlt1. by left.
      * eapply Qcle_lt_trans; [exact Hlt|]. apply Hlt1. by left.
      * apply Hlt1. by right.
Qed.

(** [max(items, key=...)] returns the first of the items with the largest
    key. *)
Lemma max_by_spec (key : ref → Qc) (items : list ref) :
  items ≠ [] →
  ∃ x l1 l2, max_by key items = Ok x ∧ items = l1 ++ x :: l2 ∧
             (∀ y, y ∈ l1 → (key y < key x)%Qc) ∧
             (∀ y, y ∈ l2 → (key y ≤ key x)%Qc).
Proof.
  destruct items as [|x l]; [done|]. intros _.
  destruct (foldl_best_spec key l x) as (l1 & l2 & Heq & H1 & H2).
  eexists _, l1, l2. split; [reflexivity|]. done.
Qed.

Lemma zero_row_get (h : Heap) (cards : list ref) (k : string) :
  dict_get (zero_row h cards) k 0%Qc = 0%Qc.
Proof.
  unfold dict_get, zero_row.
  destruct (list_to_map _ !! k) as [q|] eqn:Hq; [|done].
  apply elem_of_list_to_map_2 in Hq.
  apply list_elem_of_fmap in Hq as (c & [= _ ->] & _).
  done.
Qed.

Lemma choose_card_greedy (self : Agent) (h : Heap) (gs : GameState) (g : Rng) :
  hand gs ≠ [] → (exploration_rate self ≤ (random_random g).1)%Qc →
  ∃ c l1 l2,
    choose_card self h gs g =
      Ok (Some c,
          set_q_table (<[get_state_key gs := hand_row self h gs]> (q_table self))
                      self,
          (random_random g).2) ∧
    hand gs = l1 ++ c :: l2 ∧
    (∀ y, y ∈ l1 →
       (q_of h (hand_row self h gs) y < q_of h (hand_row self h gs) c)%Qc) ∧
    (∀ y, y ∈ l2 →
       (q_of h (hand_row self h gs) y ≤ q_of h (hand_row self h gs) c)%Qc).
Proof.
  intros Hhand Hexp. unfold choose_card.
  rewrite bool_decide_eq_false_2 by done.
  destruct (random_random g) as [u g1]. cbn [fst snd] in *.
  rewrite bool_decide_eq_false_2 by (by apply Qcle_not_lt).
  destruct (max_by_spec (q_of h (hand_row self h gs)) (hand gs) Hhand)
    as (c & l1 & l2 & Hmax & Heq & H1 & H2).
  exists c, l1, l2. split; [|done].
  unfold q_of in Hmax.
  destruct (q_table self !! get_state_key gs) as [row|] eqn:Hrow.
  - assert (Hr : hand_row self h gs = row) by (unfold hand_row; by rewrite Hrow).
    rewrite Hr in *.
    rewrite bool_decide_eq_true_2 by (by eexists). unfold getitem. rewrite Hrow.
    cbn [mbind res_bind]. rewrite Hmax.
    cbn [mbind res_bind]. rewrite insert_id by done. by destruct self.
  - assert (Hr : hand_row self h gs = zero_row h (hand gs))
      by (unfold hand_row; by rewrite Hrow).
    rewrite Hr in *.
    rewrite bool_decide_eq_false_2 by (by intros [? ?]).
    unfold getitem. cbn [q_table set_q_table]. rewrite lookup_insert_eq.
    cbn [mbind res_bind]. by rewrite Hmax.
Qed.

Lemma choose_card_explore (self : Agent) (h : Heap) (gs : GameState) (g : Rng) :
  hand gs ≠ [] → ((random_random g).1 < exploration_rate self)%Qc →
  ∃ c g2,
    random_choice (hand gs) (random_random g).2 = Ok (c, g2) ∧ c ∈ hand gs ∧
    choose_card self h gs g = Ok (Some c, self, g2).
Proof.
  intros Hhand Hexp. unfold choose_card.
  rewrite bool_decide_eq_false_2 by done.
  destruct (random_random g) as [u g1]. cbn [fst snd] in *.
  rewrite bool_decide_eq_true_2 by done.
  destruct (random_choice_ok (hand gs) g1 Hhand) as (c & g2 & Hc & Hin).
  exists c, g2. rewrite Hc. by cbn.
Qed.

(** X20: [choose_card] never raises. It returns no card exactly when the
    hand is empty, then leaving the agent and the random source untouched;
    a card it returns is one of the hand. It changes nothing of the agent
    but the value table, there nothing but the row of the current state,
    and that not at all when the row exists. *)
Theorem choose_card_never_fails (self : Agent) (h : Heap) (gs : GameState)
    (g : Rng) :
  ∃ sel self' g',
    choose_card self h gs g = Ok (sel, self', g') ∧
    (sel = None ↔ hand gs = []) ∧
    (∀ c, sel = Some c → c ∈ hand gs) ∧
    (hand gs = [] → self' = self ∧ g' = g) ∧
    agent_deck self' = agent_deck self ∧
    learning_rate self' = learning_rate self ∧
    discount_factor self' = discount_factor self ∧
    exploration_rate self' = exploration_rate self ∧
    (∀ k, k ≠ get_state_key gs → q_table self' !! k = q_table self !! k) ∧
    (is_Some (q_table self !! get_state_key gs) → q_table self' = q_table self).
Proof.
  destruct (decide (hand gs = [])) as [Hnil|Hhand].
  { exists None, self, g. unfold choose_card. rewrite bool_decide_eq_true_2 by done.
    repeat split; try done. }
  destruct (Qclt_le_dec (random_random g).1 (exploration_rate self)) as [Hexp|Hexp].
  - destruct (choose_card_explore self h gs g Hhand Hexp) as (c & g2 & _ & Hin & ->).
    exists (Some c), self, g2. split; [done|]. split; [by split|].
    split; [by intros ? [= <-]|]. by repeat split.
  - destruct (choose_card_greedy self h gs g Hhand Hexp)
      as (c & l1 & l2 & -> & Heq & _).
    eexists _, _, _. split; [reflexivity|]. split; [by split|].
    split; [intros ? [= <-]; rewrite Heq; apply elem_of_app; right; by left|].
    split; [done|]. cbn [agent_deck learning_rate discount_factor exploration_rate
                         q_table set_q_table].
    repeat (split; [done|]). split.
    + intros k Hk. by rewrite lookup_insert_ne.
    + intros [row Hrow]. unfold hand_row. rewrite Hrow. by apply insert_id.
Qed.

(** X21: how [choose_card] picks from a hand that is not empty. When the
    number drawn is not below the exploration rate the card is the first
    card of the hand with the largest value in the row of the current
    state (an absent value counting as 0): cards before it have smaller
    values, cards after it values that are not larger; a state met for the
    first time gets the all-zero row over the hand, and the first card of
    the hand is picked. When the number drawn is below the rate the card is
    what [random.choice] picks from the hand, and the table is untouched.
    The number drawn is in [0, 1), so a rate of 0 or less never explores and
    a rate of 1 or more always does. *)
Theorem greedy_choice_is_the_first_best :
  (∀ self h gs g,
     hand gs ≠ [] → (exploration_rate self ≤ (random_random g).1)%Qc →
     ∃ c l1 l2 self',
       choose_card self h gs g = Ok (Some c, self', (random_random g).2) ∧
       q_table self' !! get_state_key gs = Some (hand_row self h gs) ∧
       hand gs = l1 ++ c :: l2 ∧
       (∀ y, y ∈ l1 →
          (q_of h (hand_row self h gs) y < q_of h (hand_row self h gs) c)%Qc) ∧
       (∀ y, y ∈ l2 →
          (q_of h (hand_row self h gs) y ≤ q_of h (hand_row self h gs) c)%Qc) ∧
       (q_table self !! get_state_key gs = None → l1 = [])) ∧
  (∀ self h gs g,
     hand gs ≠ [] → ((random_random g).1 < exploration_rate self)%Qc →
     ∃ c g2,
       random_choice (hand gs) (random_random g).2 = Ok (c, g2) ∧ c ∈ hand gs ∧
       choose_card self h gs g = Ok (Some c, self, g2)) ∧
  (∀ self g,
     ((exploration_rate self ≤ 0)%Qc →
      (exploration_rate self ≤ (random_random g).1)%Qc) ∧
     ((1 ≤ exploration_rate self)%Qc →
      ((random_random g).1 < exploration_rate self)%Qc)).
Proof.
  split; [|split; [apply choose_card_explore|]].
  - intros self h gs g Hhand Hexp.
    destruct (choose_card_greedy self h gs g Hhand Hexp)
      as (c & l1 & l2 & Hc & Heq & H1 & H2).
    exists c, l1, l2. eexists. split; [exact Hc|].
    cbn [q_table set_q_table]. split; [by rewrite lookup_insert_eq|].
    repeat (split; [done|]).
    intros Hnone. destruct l1 as [|y l1]; [done|].
    specialize (H1 y ltac:(by left)). unfold hand_row, q_of in H1.
    rewrite Hnone in H1. cbn [default] in H1. rewrite !zero_row_get in H1.
    by apply Qclt_not_eq in H1.
  - intros self g. destruct (random_random_range g) as [H0 H1]. split; intros H.
    + by eapply Qcle_trans.
    + by eapply Qclt_le_trans.
Qed.

Lemma greedy_choice_is_the_first_best_witness :
  ∃ c l1 l2 self',
    choose_card greedy_agent base_heap exhaust_in_hand rng_ones =
      Ok (Some c, self', (random_random rng_ones).2) ∧
    q_table self' !! get_state_key exhaust_in_hand =
      Some (hand_row greedy_agent base_heap exhaust_in_hand) ∧
    hand exhaust_in_hand = l1 ++ c :: l2 ∧
    (∀ y, y ∈ l1 →
       (q_of base_heap (hand_row greedy_agent base_heap exhaust_in_hand) y <
        q_of base_heap (hand_row greedy_agent base_heap exhaust_in_hand) c)%Qc) ∧
    (∀ y, y ∈ l2 →
       (q_of base_heap (hand_row greedy_agent base_heap exhaust_in_hand) y ≤
        q_of base_heap (hand_row greedy_agent base_heap exhaust_in_hand) c)%Qc) ∧
    (q_table greedy_agent !! get_state_key exhaust_in_hand = None → l1 = []).
Proof.
  apply (proj1 greedy_choice_is_the_first_best greedy_agent base_heap
           exhaust_in_hand rng_ones); by vm_compute.
Defined.

(** X22: [update_q_table] raises [ValueError] exactly when the row of the
    new state, stored or just created over the deck, is empty, raises
    [OverflowError] exactly when that row is not empty and the reward is an
    int beyond the range of the doubles, and returns otherwise. It then has
    changed nothing of the agent but the table: the rows of other states
    are as before, the row of the new state is the stored one or the
    all-zero row over the deck, and the row of the previous state is that
    row with the entry of the card's name rewritten. *)
Theorem update_q_table_frame (self : FloatAgent) (h : Heap) (prev : string)
    (card : Card) (reward : Z) (curr : string) :
  match update_q_table_float self h prev card reward curr with
  | Ok self' =>
      float_row_at self h curr ≠ [] ∧
      (∃ r, float_of_int reward = Ok r) ∧
      float_deck self' = float_deck self ∧
      float_learning_rate self' = float_learning_rate self ∧
      float_discount_factor self' = float_discount_factor self ∧
      float_exploration_rate self' = float_exploration_rate self ∧
      (∀ k, k ≠ prev → k ≠ curr →
            float_q_table self' !! k = float_q_table self !! k) ∧
      (curr ≠ prev →
       float_q_table self' !! curr = Some (float_row_at self h curr)) ∧
      (∃ v, float_q_table self' !! prev =
              Some (row_set (float_row_at self h prev) (name card) v))
  | Raise e =>
      (e = ValueError ∧ float_row_at self h curr = []) ∨
      (e = OverflowError ∧ float_row_at self h curr ≠ [] ∧
       float_of_int reward = Raise OverflowError)
  | OutOfFuel => False
  end.
Proof.
  rewrite update_q_table_float_unfold.
  destruct (float_row_at self h curr) as [|kv row] eqn:Hrow.
  { cbn. by left. }
  destruct (max_float_spec ((kv :: row).*2)) as (m & -> & _); [done|].
  cbn [mbind res_bind].
  destruct (float_of_int_outcome reward) as [[r ->]| ->]; cbn [mbind res_bind].
  - cbn [float_deck float_learning_rate float_discount_factor
         float_exploration_rate float_q_table set_float_q_table].
    split; [done|]. split; [by eexists|]. repeat (split; [done|]).
    destruct (float_with_rows_lookup self h prev curr) as [Hp Hc].
    split; [|split].
    + intros k Hkp Hkc. rewrite lookup_insert_ne by done.
      unfold float_with_rows. repeat case_bool_decide;
        by rewrite ?lookup_insert_ne by done.
    + intros Hcp. rewrite lookup_insert_ne by done. by rewrite Hc, Hrow.
    + eexists. by rewrite lookup_insert_eq.
  - right. done.
Qed.

(** ** The state fingerprint *)

Lemma pretty_N_go_plain (x : N) :
  ∀ s, plain s → plain (pretty_N_go x s).
Proof.
  induction (N.lt_wf_0 x) as [x _ IH]; intros s Hs.
  assert (x = 0 ∨ 0 < x)%N as [->|Hpos] by lia.
  - by rewrite pretty_N_go_0.
  - rewrite pretty_N_go_step by done. apply IH.
    { by apply N.div_lt. }
    split; [|done]. unfold pretty_N_char. by repeat case_match.
Qed.

Lemma fmt_plain (z : Z) : plain (fmt z).
Proof.
  unfold fmt, pretty, pretty_Z. destruct z as [|p|p].
  - by cbn.
  - unfold pretty, pretty_positive, pretty, pretty_N.
    rewrite decide_False by done. by apply pretty_N_go_plain.
  - cbn [String.append]. split; [done|].
    unfold pretty, pretty_positive, pretty, pretty_N.
    rewrite decide_False by done. by apply pretty_N_go_plain.
Qed.

Lemma split_at_underscore (s1 s2 t1 t2 : string) :
  plain s1 → plain s2 →
  s1 +:+ String "_" t1 = s2 +:+ String "_" t2 → s1 = s2 ∧ t1 = t2.
Proof.
  revert s2. induction s1 as [|a s1 IH]; intros [|b s2] H1 H2 Heq; cbn in *.
  - by injection Heq as ->.
  - injection Heq as <- _. by destruct H2.
  - injection Heq as -> _. by destruct H1.
  - injection Heq as -> Heq. destruct H1 as [_ H1], H2 as [_ H2].
    destruct (IH s2 H1 H2 Heq) as [-> ->]. done.
Qed.

(** X23: the fingerprint of a state reads six numbers and nothing else: two
    states have the same fingerprint, and so share a row of the value
    table, exactly when they agree on the round, the score, the spirit,
    the vitality, the focus and the mood (focus and mood read with default
    0). The hand, the piles and the number of plays left do not enter. *)
Theorem state_key_reads_six_numbers (s s' : GameState) :
  get_state_key s = get_state_key s' ↔
  current_round s = current_round s' ∧ score s = score s' ∧
  spirit s = spirit s' ∧ vitality s = vitality s' ∧
  dict_get (buffs s) FOCUS_KEY 0 = dict_get (buffs s') FOCUS_KEY 0 ∧
  dict_get (buffs s) MOOD_KEY 0 = dict_get (buffs s') MOOD_KEY 0.
Proof.
  unfold get_state_key. split.
  - intros H. apply (inj (String.append "round:")) in H.
    apply split_at_underscore in H as [H1 H]; [|apply fmt_plain..].
    apply (inj (String.append "score:")) in H.
    apply split_at_underscore in H as [H2 H]; [|apply fmt_plain..].
    apply (inj (String.append "spirit:")) in H.
    apply split_at_underscore in H as [H3 H]; [|apply fmt_plain..].
    apply (inj (String.append "vitality:")) in H.
    apply split_at_underscore in H as [H4 H]; [|apply fmt_plain..].
    apply (inj (String.append "focus:")) in H.
    apply split_at_underscore in H as [H5 H]; [|apply fmt_plain..].
    apply (inj (String.append "mood:")) in H.
    unfold fmt in *. by repeat split; apply (inj pretty).
  - by intros (-> & -> & -> & -> & -> & ->).
Qed.

(** ** The whole training run and the verdict *)

Lemma train_episode_no_play (fuel plays_fuel : nat) (self : Agent) (h : Heap)
    (g : Rng) (nr ts : Z) :
  (0 < fuel)%nat → nr < 1 ∨ ts ≤ 0 →
  ∃ gs h' g', train_episode fuel plays_fuel self h g nr ts = Ok (self, gs, h', g') ∧
              score gs = 0.
Proof.
  intros Hfuel Hstop. unfold train_episode.
  pose proof (GameState_init_counters (agent_deck self) nr ts 5 30 h g) as Hcnt.
  destruct (GameState_init (agent_deck self) nr ts 5 30 h g) as [[gs h1] g1].
  cbn [fst] in *. destruct Hcnt as (_ & Hn & Ht & _ & Hc & Hs & _).
  destruct fuel as [|fuel]; [lia|]. cbn [train_rounds].
  assert (Hrun : running gs = false).
  { apply running_false_iff. rewrite Hn, Hc, Ht, Hs. lia. }
  rewrite Hrun. cbn [mbind res_bind]. by eexists _, _, _.
Qed.

Lemma train_episode_idle (fuel plays_fuel : nat) (self self1 : Agent)
    (h h1 : Heap) (g g1 : Rng) (nr ts : Z) (gs : GameState) :
  train_episode fuel plays_fuel self h g nr ts = Ok (self1, gs, h1, g1) →
  nr < 1 ∨ ts ≤ 0 → score gs = 0 ∧ self1 = self.
Proof.
  intros He Hstop. destruct fuel as [|fuel].
  { unfold train_episode in He.
    destruct (GameState_init _ _ _ _ _ _ _) as [[gs0 h0] g0]. done. }
  destruct (train_episode_no_play (S fuel) plays_fuel self h g nr ts
              ltac:(lia) Hstop) as (gs0 & h0 & g0 & He0 & Hs0).
  rewrite He in He0. by injection He0 as -> -> _ _.
Qed.

Lemma train_episodes_counts (n fuel plays_fuel : nat) (nr ts : Z) :
  ∀ (self : Agent) (h : Heap) (g : Rng) (successful total : Z)
    (self' : Agent) (h' : Heap) (g' : Rng) (successful' total' : Z),
    train_episodes n fuel plays_fuel self h g nr ts successful total =
      Ok (self', h', g', successful', total') →
    successful ≤ successful' ≤ successful + Z.of_nat n ∧
    (ts ≤ 0 → successful' = successful + Z.of_nat n) ∧
    (nr < 1 ∨ ts ≤ 0 → total' = total ∧ self' = self).
Proof.
  induction n as [|n IH];
    intros self h g successful total self' h' g' su' to' Hrun.
  { injection Hrun as <- _ _ <- <-. split; [lia|]. split; [lia|done]. }
  cbn [train_episodes] in Hrun.
  destruct (train_episode fuel plays_fuel self h g nr ts)
    as [[[[self1 gs] h1] g1]| |] eqn:He; [|done..].
  cbn [mbind res_bind] in Hrun.
  apply IH in Hrun as (Hsu & Hall & Hnone).
  pose proof (train_episode_idle _ _ _ _ _ _ _ _ _ _ _ He) as Hstop.
  split; [case_bool_decide; lia|]. split.
  - intros Hts. destruct (Hstop (or_intror Hts)) as [Hs0 _].
    rewrite Hall by done. rewrite bool_decide_eq_true_2 by lia. lia.
  - intros Hs. destruct (Hstop Hs) as [Hs0 ->].
    destruct (Hnone Hs) as [-> ->]. split; [lia|done].
Qed.

(** X24: [train] with 0 episodes raises [ZeroDivisionError]. Whenever it
    returns, the summary holds the number of episodes asked for and a count
    of successful episodes between 0 and that number. With a target score
    of 0 or less every episode counts as successful; then, or with no round
    to play, nothing is scored and the agent is as it was. *)
Theorem train_summary (fuel plays_fuel : nat) (self : Agent) (h : Heap) (g : Rng)
    (num_episodes nr ts : Z) :
  (num_episodes = 0 →
   train fuel plays_fuel self h g num_episodes nr ts = Raise ZeroDivisionError) ∧
  (∀ r self' h' g',
     train fuel plays_fuel self h g num_episodes nr ts = Ok (r, self', h', g') →
     total_episodes r = num_episodes ∧
     0 ≤ successful_episodes r ≤ Z.max num_episodes 0 ∧
     (ts ≤ 0 → successful_episodes r = Z.max num_episodes 0) ∧
     (nr < 1 ∨ ts ≤ 0 → total_final_score r = 0 ∧ self' = self)).
Proof.
  split.
  - intros ->. reflexivity.
  - intros r self' h' g' Hrun. unfold train in Hrun.
    destruct (train_episodes _ _ _ _ _ _ _ _ _ _)
      as [[[[[self1 h1] g1] su] to]| |] eqn:He; [|done..].
    cbn [mbind res_bind] in Hrun.
    case_bool_decide; [done|]. injection Hrun as <- <- _ _.
    apply train_episodes_counts in He as (Hsu & Hall & Hnone).
    cbn [total_episodes successful_episodes total_final_score].
    split; [done|]. split; [lia|].
    split; [intros Hts; rewrite Hall by done; lia|done].
Qed.

Lemma train_summary_witness :
  train 10 4 (Agent_init base_deck) base_heap rng_ones 0 9 90
    = Raise ZeroDivisionError ∧
  ∃ r self' h' g',
    train 10 4 (Agent_init base_deck) base_heap rng_ones 2 9 90
      = Ok (r, self', h', g') ∧
    total_episodes r = 2 ∧ 0 ≤ successful_episodes r ≤ Z.max 2 0.
Proof.
  destruct (train_summary 10 4 (Agent_init base_deck) base_heap rng_ones 0 9 90)
    as [H0 _].
  destruct (train_summary 10 4 (Agent_init base_deck) base_heap rng_ones 2 9 90)
    as [_ H2].
  split; [exact (H0 eq_refl)|].
  assert (Hfuel : (Z.to_nat 9 < 10)%nat) by (vm_compute; lia).
  assert (Hplays : (3 < 4)%nat) by lia.
  assert (Hn : (2 : Z) ≠ 0) by lia.
  destruct (train_returns 10 4 base_deck base_heap rng_ones 2 9 90 Hfuel Hplays)
    as [Hret _].
  destruct (Hret Hn) as [[[[r self'] h'] g'] Ht].
  destruct (H2 r self' h' g' Ht) as (He & Hs & _).
  exists r, self', h', g'. split; [exact Ht|]. split; [exact He|exact Hs].
Defined.

(** X25: the verdict [Game.start] prints once its loop has ended. It
    announces success exactly when vitality is positive and the target is
    reached, and failure to reach the target exactly when vitality is
    positive and the target is missed, which happens only when the rounds
    have run out; lost vitality is announced whenever vitality is 0 or
    less, also when the target is reached. Such a state, target reached
    with vitality 0 or less, is the one case in which [train] counts a
    success that the game does not announce. *)
Theorem verdict_after_the_loop (s : GameState) :
  running s = false →
  (final_message s = "恭喜！您达到了目标分数。" ↔
     0 < vitality s ∧ target_score s ≤ score s) ∧
  (final_message s = "很遗憾，您没有达到目标分数。" ↔
     0 < vitality s ∧ score s < target_score s) ∧
  (final_message s = "很遗憾，您没有达到目标分数。" →
     num_rounds s < current_round s) ∧
  (final_message s = "体力耗尽，游戏失败！" ↔ vitality s ≤ 0) ∧
  (counted_successful s = true ∧ final_message s ≠ "恭喜！您达到了目标分数。" ↔
     vitality s ≤ 0 ∧ target_score s ≤ score s).
Proof.
  intros Hrun. apply running_false_iff in Hrun.
  unfold final_message, counted_successful.
  repeat case_bool_decide; repeat split; try done; try lia; intros;
    try (destruct_and?; done || lia).
Qed.

Lemma verdict_after_the_loop_witness :
  running pyrrhic_state = false ∧
  final_message pyrrhic_state = "体力耗尽，游戏失败！" ∧
  counted_successful pyrrhic_state = true.
Proof.
  split; [reflexivity|]. split; [|reflexivity].
  apply (proj1 (proj2 (proj2 (proj2
           (verdict_after_the_loop pyrrhic_state eq_refl))))).
  by vm_compute.
Defined.
